(** * ZPageCacheBalance: the page cache balancer of ZGC

    A shallow embedding of [src/hotspot/share/gc/z/zPageCacheBalance.cpp]
    (and its header) together with the properties of the sizing solver and
    of the top-level [balance()] flow.

    Conventions of the embedding.
    - [size_t] is a 64-bit unsigned integer: a [Z] in [0, 2^64), every
      arithmetic operation of the source is followed by its wrap-around.
    - [double] is IEEE 754 binary64 with rounding to nearest, ties to even.
      A finite double is the rational number it denotes, and every
      operation of the source on doubles (the conversion of a [size_t],
      [+], [*], [/], a literal) is the exact operation followed by the
      rounding [double_round]: 53 significant bits, subnormal numbers below
      [2^-1022], an infinity from [2^1024] on.  Invalid operations give
      [NaN].  The two zeros are not told apart: they differ in the sign of
      a quotient by them only, and every divisor of the source is a sum
      with [0.1], the literal [100.0] or a page size, which are never the
      negative zero.  The examples at the end of the file compare these
      operations with those of the Standard Library's [SpecFloat].
    - The conversion [(size_t) d] truncates towards zero and is undefined
      when [d] is not finite or the truncated value is not representable;
      the embedding reports that as a fatal outcome of its own.
    - [guarantee], [assert] (checked in debug builds only) and
      [ShouldNotReachHere] end the VM: functions that go through one of them
      return an [outcome].
    - The constants [ZPageSizeSmall], [ZPageSizeMedium], the flag
      [ZMinPageCachePercent], the heap capacity, the allocation-rate
      averages and [ZStatCycle::is_warm()] are declared outside the two
      source files; they are gathered in the record [Globals] and read from
      there.  They do not change during one [balance()]. *)

From Stdlib Require Import ZArith QArith Qround Qabs Qpower Lia Lqa.
From Stdlib Require Import List String Bool SpecFloat.
Import ListNotations.

Local Open Scope Z_scope.

(** ** Machine integers *)

Definition size_t_modulus : Z := 2 ^ 64.

Definition wrap (z : Z) : Z := z mod size_t_modulus.

Definition is_size_t (z : Z) : Prop := 0 <= z < size_t_modulus.

Definition MAX2 (a b : Z) : Z := if a >? b then a else b.

(** ** Fatal errors and the outcome monad *)

Inductive fatal : Type :=
| GuaranteeFailed (msg : string)
| AssertFailed (msg : string)
| ShouldNotReachHere
| UndefinedConversion.

Inductive outcome (A : Type) : Type :=
| Return (a : A)
| Fatal (f : fatal).

Arguments Return {A} a.
Arguments Fatal {A} f.

Definition bind {A B : Type} (c : outcome A) (k : A -> outcome B) : outcome B :=
  match c with
  | Return a => k a
  | Fatal f => Fatal f
  end.

Declare Scope outcome_scope.
Delimit Scope outcome_scope with outcome.

Notation "x <- c ;; k" := (bind c (fun x => k))
  (at level 100, c at next level, right associativity) : outcome_scope.
Notation "c ;;; k" := (bind c (fun _ => k))
  (at level 100, right associativity) : outcome_scope.

Local Open Scope outcome_scope.

Definition guarantee (cond : bool) (msg : string) : outcome unit :=
  if cond then Return tt else Fatal (GuaranteeFailed msg).

(** ** Doubles: IEEE 754 binary64 *)

(** [floor (log2 x)], for a positive rational. *)
Definition Qilog2 (x : Q) : Z :=
  let e := Z.log2 (Qnum x) - Z.log2 (Zpos (Qden x)) in
  if Qle_bool (2 ^ e) x then e else e - 1.

(** The nearest integer, the even one of two that are as near. *)
Definition Qround_even (x : Q) : Z :=
  let f := Qfloor x in
  match (x - inject_Z f ?= 1 # 2)%Q with
  | Lt => f
  | Gt => f + 1
  | Eq => if Z.even f then f else f + 1
  end.

(** The exponent of the unit in the last place of a binary64 number near
    [x]: 53 significant bits, and [2^-1074] for the subnormal numbers. *)
Definition binary64_exponent (x : Q) : Z := Z.max (Qilog2 x - 52) (-1074).

(** The binary64 number nearest to [x], for [x] not negative and an
    exponent without upper bound. *)
Definition round_binary64 (x : Q) : Q :=
  let e := binary64_exponent x in
  (inject_Z (Qround_even (x / 2 ^ e)) * 2 ^ e)%Q.

Inductive double : Type :=
| Finite (q : Q)
| Infinity (negative : bool)
| NaN.

Definition Qnegative (x : Q) : bool := negb (Qle_bool 0 x).

(** Rounding to nearest, ties to even, of the exact result [x] of an
    operation. *)
Definition double_round (x : Q) : double :=
  let y := round_binary64 (Qabs x) in
  if Qle_bool (2 ^ 1024) y then Infinity (Qnegative x)
  else Finite (if Qnegative x then - y else y)%Q.

Definition double_add (a b : double) : double :=
  match a, b with
  | NaN, _ | _, NaN => NaN
  | Infinity s, Infinity t => if Bool.eqb s t then Infinity s else NaN
  | Infinity s, Finite _ | Finite _, Infinity s => Infinity s
  | Finite x, Finite y => double_round (x + y)
  end.

Definition double_mul (a b : double) : double :=
  match a, b with
  | NaN, _ | _, NaN => NaN
  | Infinity s, Infinity t => Infinity (xorb s t)
  | Infinity s, Finite y | Finite y, Infinity s =>
      if Qeq_bool y 0 then NaN else Infinity (xorb s (Qnegative y))
  | Finite x, Finite y => double_round (x * y)
  end.

Definition double_div (a b : double) : double :=
  match a, b with
  | NaN, _ | _, NaN => NaN
  | Infinity _, Infinity _ => NaN
  | Infinity s, Finite y => Infinity (xorb s (Qnegative y))
  | Finite _, Infinity _ => Finite 0
  | Finite x, Finite y =>
      if Qeq_bool y 0 then (if Qeq_bool x 0 then NaN else Infinity (Qnegative x))
      else double_round (x / y)
  end.

(** The literals [0.1] and [100.0] of the source. *)
Definition one_tenth : double := double_round (1 # 10).

Definition one_hundred : double := Finite 100.

(** The conversion of a [size_t] to [double]. *)
Definition double_of_size_t (z : Z) : double := double_round (inject_Z z).

(** [(size_t) d]: truncation towards zero; undefined out of range. *)
Definition size_t_of_double (d : double) : outcome Z :=
  match d with
  | Finite q =>
      let z := Z.quot (Qnum q) (Zpos (Qden q)) in
      if (0 <=? z) && (z <? size_t_modulus) then Return z
      else Fatal UndefinedConversion
  | _ => Fatal UndefinedConversion
  end.

(** ** Globals read by the balancer *)

Record Globals : Type := {
  ZPageSizeSmall : Z;
  ZPageSizeMedium : Z;
  ZMinPageCachePercent : Z;
  ZBalancePageCache : bool;
  (** [ASSERT]: true in a debug build, where [assert] is checked. *)
  ASSERT : bool;
  (** [ZHeap::heap()->capacity()] *)
  heap_capacity : Z;
  (** The averages of the allocation rates in bytes per second, as real
      numbers. *)
  small_alloc_rate : Q;
  medium_alloc_rate : Q;
  (** [ZStatCycle::is_warm()] *)
  is_warm : bool;
  (** [Thread::current()->is_ConcurrentGC_thread()] *)
  is_ConcurrentGC_thread : bool
}.

(** [ZStatSmallPageAllocRate::avg()] and [ZStatMediumPageAllocRate::avg()]
    return a [double]: the binary64 number nearest to the average. *)
Definition ZStatSmallPageAllocRate_avg (g : Globals) : double :=
  double_round (small_alloc_rate g).

Definition ZStatMediumPageAllocRate_avg (g : Globals) : double :=
  double_round (medium_alloc_rate g).

Definition assert (g : Globals) (cond : bool) (msg : string) : outcome unit :=
  if ASSERT g && negb cond then Fatal (AssertFailed msg) else Return tt.

(** ** Page types and the balancer object *)

(** The page types ([uint8_t] constants of the collector). *)
Inductive ZPageType : Type :=
| ZPageTypeSmall
| ZPageTypeMedium
| ZPageTypeLarge.

(** The fields of [class ZPageCacheBalance].  A [ZPage] is a handle on a
    page; what a page holds is known to the collaborators only.  The
    pointers [_page_allocator], [_pagetable] and [_cache] designate the
    collaborators below, and [_ticks_start] only serves the log line of the
    destructor. *)
Record ZPageCacheBalance (ZPage : Type) : Type := {
  _before_relocation : bool;
  _small_selected_to : Z;
  _medium_selected_to : Z;
  _available_small : Z;
  _available_medium : Z;
  _target_small : Z;
  _target_medium : Z;
  _loaner_count : Z;
  _debtor_count : Z;
  _loaner_type : ZPageType;
  _debtor_type : ZPageType;
  _loaner_list : list ZPage;
  _debtor_list : list ZPage
}.

Arguments _before_relocation {ZPage} _.
Arguments _small_selected_to {ZPage} _.
Arguments _medium_selected_to {ZPage} _.
Arguments _available_small {ZPage} _.
Arguments _available_medium {ZPage} _.
Arguments _target_small {ZPage} _.
Arguments _target_medium {ZPage} _.
Arguments _loaner_count {ZPage} _.
Arguments _debtor_count {ZPage} _.
Arguments _loaner_type {ZPage} _.
Arguments _debtor_type {ZPage} _.
Arguments _loaner_list {ZPage} _.
Arguments _debtor_list {ZPage} _.

(** Field updates. *)

Definition set_available {ZPage : Type} (this : ZPageCacheBalance ZPage)
    (s m : Z) : ZPageCacheBalance ZPage :=
  {| _before_relocation := _before_relocation this;
     _small_selected_to := _small_selected_to this;
     _medium_selected_to := _medium_selected_to this;
     _available_small := s;
     _available_medium := m;
     _target_small := _target_small this;
     _target_medium := _target_medium this;
     _loaner_count := _loaner_count this;
     _debtor_count := _debtor_count this;
     _loaner_type := _loaner_type this;
     _debtor_type := _debtor_type this;
     _loaner_list := _loaner_list this;
     _debtor_list := _debtor_list this |}.

Definition set_target_small {ZPage : Type} (this : ZPageCacheBalance ZPage)
    (s : Z) : ZPageCacheBalance ZPage :=
  {| _before_relocation := _before_relocation this;
     _small_selected_to := _small_selected_to this;
     _medium_selected_to := _medium_selected_to this;
     _available_small := _available_small this;
     _available_medium := _available_medium this;
     _target_small := s;
     _target_medium := _target_medium this;
     _loaner_count := _loaner_count this;
     _debtor_count := _debtor_count this;
     _loaner_type := _loaner_type this;
     _debtor_type := _debtor_type this;
     _loaner_list := _loaner_list this;
     _debtor_list := _debtor_list this |}.

Definition set_target_medium {ZPage : Type} (this : ZPageCacheBalance ZPage)
    (m : Z) : ZPageCacheBalance ZPage :=
  {| _before_relocation := _before_relocation this;
     _small_selected_to := _small_selected_to this;
     _medium_selected_to := _medium_selected_to this;
     _available_small := _available_small this;
     _available_medium := _available_medium this;
     _target_small := _target_small this;
     _target_medium := m;
     _loaner_count := _loaner_count this;
     _debtor_count := _debtor_count this;
     _loaner_type := _loaner_type this;
     _debtor_type := _debtor_type this;
     _loaner_list := _loaner_list this;
     _debtor_list := _debtor_list this |}.

Definition set_debtor {ZPage : Type} (this : ZPageCacheBalance ZPage)
    (count : Z) (type : ZPageType) : ZPageCacheBalance ZPage :=
  {| _before_relocation := _before_relocation this;
     _small_selected_to := _small_selected_to this;
     _medium_selected_to := _medium_selected_to this;
     _available_small := _available_small this;
     _available_medium := _available_medium this;
     _target_small := _target_small this;
     _target_medium := _target_medium this;
     _loaner_count := _loaner_count this;
     _debtor_count := count;
     _loaner_type := _loaner_type this;
     _debtor_type := type;
     _loaner_list := _loaner_list this;
     _debtor_list := _debtor_list this |}.

Definition set_loaner {ZPage : Type} (this : ZPageCacheBalance ZPage)
    (count : Z) (type : ZPageType) : ZPageCacheBalance ZPage :=
  {| _before_relocation := _before_relocation this;
     _small_selected_to := _small_selected_to this;
     _medium_selected_to := _medium_selected_to this;
     _available_small := _available_small this;
     _available_medium := _available_medium this;
     _target_small := _target_small this;
     _target_medium := _target_medium this;
     _loaner_count := count;
     _debtor_count := _debtor_count this;
     _loaner_type := type;
     _debtor_type := _debtor_type this;
     _loaner_list := _loaner_list this;
     _debtor_list := _debtor_list this |}.

Definition set_loaner_list {ZPage : Type} (this : ZPageCacheBalance ZPage)
    (l : list ZPage) : ZPageCacheBalance ZPage :=
  {| _before_relocation := _before_relocation this;
     _small_selected_to := _small_selected_to this;
     _medium_selected_to := _medium_selected_to this;
     _available_small := _available_small this;
     _available_medium := _available_medium this;
     _target_small := _target_small this;
     _target_medium := _target_medium this;
     _loaner_count := _loaner_count this;
     _debtor_count := _debtor_count this;
     _loaner_type := _loaner_type this;
     _debtor_type := _debtor_type this;
     _loaner_list := l;
     _debtor_list := _debtor_list this |}.

Definition set_debtor_list {ZPage : Type} (this : ZPageCacheBalance ZPage)
    (l : list ZPage) : ZPageCacheBalance ZPage :=
  {| _before_relocation := _before_relocation this;
     _small_selected_to := _small_selected_to this;
     _medium_selected_to := _medium_selected_to this;
     _available_small := _available_small this;
     _available_medium := _available_medium this;
     _target_small := _target_small this;
     _target_medium := _target_medium this;
     _loaner_count := _loaner_count this;
     _debtor_count := _debtor_count this;
     _loaner_type := _loaner_type this;
     _debtor_type := _debtor_type this;
     _loaner_list := _loaner_list this;
     _debtor_list := l |}.

(** ** Collaborators

    The page cache, the physical memory manager, the page allocator, the
    page table and the heap are not part of the two source files.  The
    balancer reaches them through the calls below; [World] is the state
    they own. *)
Class Collaborators (ZPage World : Type) : Type := {
  (** [ZPageCache::small_page_count()], [ZPageCache::medium_page_count()] *)
  small_page_count : World -> Z;
  medium_page_count : World -> Z;
  (** [ZPageCache::loan_pages(count, type, list)]: the pages taken out of
      the cache, which the call appends to [list]. *)
  loan_pages : Z -> ZPageType -> World -> World * list ZPage;
  (** [ZPhysicalMemoryManager::unmap(pmem, addr)] on the page's memory *)
  physical_unmap : ZPage -> World -> World;
  (** [ZPhysicalMemoryManager::free(pmem)] *)
  physical_free : ZPage -> World -> World;
  (** [ZPhysicalMemory::clear()] *)
  pmem_clear : ZPage -> World -> World;
  (** [ZPageAllocator::_detached.insert_last(page)] *)
  detached_insert_last : ZPage -> World -> World;
  (** [ZPageAllocator::create_page(type, size)] *)
  create_page : ZPageType -> Z -> World -> World * ZPage;
  (** [ZPageAllocator::increase_used(size, reclaimed)] *)
  increase_used : Z -> bool -> World -> World;
  (** [ZPageAllocator::map_page(page)] *)
  map_page : ZPage -> World -> World;
  (** [ZPage::is_mapped()], [ZPage::reset()] *)
  is_mapped : ZPage -> World -> bool;
  page_reset : ZPage -> World -> World;
  (** [ZPageTable::insert(page)] *)
  pagetable_insert : ZPage -> World -> World;
  (** [ZHeap::release_page(page, reclaimed)] *)
  release_page : ZPage -> bool -> World -> World
}.

(** What the balancer does to the collaborators, in order. *)
Inductive event (ZPage : Type) : Type :=
| Lock
| Unlock
| LoanPages (count : Z) (type : ZPageType)
| PhysicalUnmap (page : ZPage)
| PhysicalFree (page : ZPage)
| PmemClear (page : ZPage)
| DetachedInsertLast (page : ZPage)
| CreatePage (type : ZPageType) (size : Z)
| IncreaseUsed (size : Z) (reclaimed : bool)
| MapPage (page : ZPage)
| PageReset (page : ZPage)
| PageTableInsert (page : ZPage)
| ReleasePage (page : ZPage) (reclaimed : bool).

Arguments Lock {ZPage}.
Arguments Unlock {ZPage}.
Arguments LoanPages {ZPage} count type.
Arguments PhysicalUnmap {ZPage} page.
Arguments PhysicalFree {ZPage} page.
Arguments PmemClear {ZPage} page.
Arguments DetachedInsertLast {ZPage} page.
Arguments CreatePage {ZPage} type size.
Arguments IncreaseUsed {ZPage} size reclaimed.
Arguments MapPage {ZPage} page.
Arguments PageReset {ZPage} page.
Arguments PageTableInsert {ZPage} page.
Arguments ReleasePage {ZPage} page reclaimed.

(** The state outside the balancer object: the collaborators' state and the
    history of the calls made on them ([trace], oldest first). *)
Record Machine (ZPage World : Type) : Type := {
  world : World;
  trace : list (event ZPage)
}.

Arguments world {ZPage World} _.
Arguments trace {ZPage World} _.

Definition call {ZPage World : Type} (e : event ZPage) (f : World -> World)
    (m : Machine ZPage World) : Machine ZPage World :=
  {| world := f (world m); trace := trace m ++ [e] |}.

(** [ZLocker locker(&_page_allocator->_lock)] and the end of its scope. *)
Definition lock {ZPage World : Type} (m : Machine ZPage World) : Machine ZPage World :=
  call Lock (fun w => w) m.

Definition unlock {ZPage World : Type} (m : Machine ZPage World) : Machine ZPage World :=
  call Unlock (fun w => w) m.

(** ** The sizing solver *)

Section Solver.

Context {ZPage : Type}.
Variable g : Globals.

Definition calculate_total_size (small_count medium_count : Z) : Z :=
  wrap (wrap (ZPageSizeSmall g * small_count)
        + wrap (ZPageSizeMedium g * medium_count)).

Definition available_page_cache_size (this : ZPageCacheBalance ZPage) : Z :=
  calculate_total_size (_available_small this) (_available_medium this).

Definition calculate_maximal_small_for_medium
    (this : ZPageCacheBalance ZPage) (medium : Z) : outcome Z :=
  assert g (available_page_cache_size this >? wrap (medium * ZPageSizeMedium g))
    "enough page cache" ;;;
  Return (wrap (available_page_cache_size this - wrap (medium * ZPageSizeMedium g))
          / ZPageSizeSmall g).

Definition calculate_maximal_medium_for_small
    (this : ZPageCacheBalance ZPage) (small : Z) : outcome Z :=
  assert g (available_page_cache_size this >? wrap (small * ZPageSizeSmall g))
    "enough page cache" ;;;
  Return (wrap (available_page_cache_size this - wrap (small * ZPageSizeSmall g))
          / ZPageSizeMedium g).

Definition calculate_optimal_medium (this : ZPageCacheBalance ZPage) : outcome Z :=
  if _before_relocation this then Return (_available_medium this)
  else
    let medium_rate : double := ZStatMediumPageAllocRate_avg g in
    let small_rate : double := ZStatSmallPageAllocRate_avg g in
    let predicted_medium_ratio : double :=
      double_div medium_rate
        (double_add (double_add medium_rate small_rate) one_tenth) in
    size_t_of_double
      (double_div
         (double_mul (double_of_size_t (available_page_cache_size this))
            predicted_medium_ratio)
         (double_of_size_t (ZPageSizeMedium g))).

Definition calculate_optimal_small (this : ZPageCacheBalance ZPage) : outcome Z :=
  if _before_relocation this then Return (_available_small this)
  else
    medium <- calculate_optimal_medium this ;;
    calculate_maximal_small_for_medium this medium.

Definition calculate_minimal_medium (this : ZPageCacheBalance ZPage) : outcome Z :=
  r <- size_t_of_double
         (double_div
            (double_div
               (double_of_size_t (wrap (heap_capacity g * ZMinPageCachePercent g)))
               one_hundred)
            (double_of_size_t (ZPageSizeMedium g))) ;;
  let result := MAX2 r 1 in
  if _before_relocation this then Return (MAX2 (_medium_selected_to this) result)
  else Return result.

Definition calculate_minimal_small (this : ZPageCacheBalance ZPage) : outcome Z :=
  r <- size_t_of_double
         (double_div
            (double_div
               (double_of_size_t (wrap (heap_capacity g * ZMinPageCachePercent g)))
               one_hundred)
            (double_of_size_t (ZPageSizeSmall g))) ;;
  let result := MAX2 r 1 in
  let result := if _before_relocation this
                then MAX2 (_small_selected_to this) result else result in
  Return result.

Definition determine_balance_necessity (this : ZPageCacheBalance ZPage)
  : outcome (bool * ZPageCacheBalance ZPage) :=
  minimal_medium <- calculate_minimal_medium this ;;
  minimal_small <- calculate_minimal_small this ;;
  if calculate_total_size minimal_small minimal_medium
       >? available_page_cache_size this
  then Return (false, this)
  else
    optimal_medium <- calculate_optimal_medium this ;;
    optimal_small <- calculate_optimal_small this ;;
    guarantee (calculate_total_size optimal_small optimal_medium
                 =? available_page_cache_size this)
      "The optimum should not change the size of the page cache." ;;;
    this <-
      (if (optimal_medium >=? minimal_medium) && (optimal_small >=? minimal_small)
       then
         let this := set_target_medium this optimal_medium in
         Return (set_target_small this optimal_small)
       else if optimal_medium <? minimal_medium then
         let this := set_target_medium this minimal_medium in
         small <- calculate_maximal_small_for_medium this (_target_medium this) ;;
         let this := set_target_small this small in
         guarantee (_target_small this >=? minimal_small)
           "small page lower bound" ;;;
         Return this
       else if optimal_small <? minimal_small then
         medium <- calculate_maximal_medium_for_small this minimal_small ;;
         let this := set_target_medium this medium in
         guarantee (_target_medium this >=? minimal_medium)
           "medium page lower bound" ;;;
         small <- calculate_maximal_small_for_medium this (_target_medium this) ;;
         let this := set_target_small this small in
         guarantee (_target_small this >=? minimal_small)
           "small page lower bound" ;;;
         Return this
       else Fatal ShouldNotReachHere) ;;
    guarantee (calculate_total_size (_target_small this) (_target_medium this)
                 =? available_page_cache_size this)
      "The target should not change the size of the page cache." ;;;
    if _target_medium this =? _available_medium this
    then Return (false, this)
    else Return (true, this).

Definition calculate_loaner_and_debtor (this : ZPageCacheBalance ZPage)
  : ZPageCacheBalance ZPage :=
  if _target_small this >? _available_small this then
    let this := set_debtor this
                  (wrap (_target_small this - _available_small this))
                  ZPageTypeSmall in
    set_loaner this
      (wrap (_available_medium this - _target_medium this)) ZPageTypeMedium
  else if _target_medium this >? _available_medium this then
    let this := set_debtor this
                  (wrap (_target_medium this - _available_medium this))
                  ZPageTypeMedium in
    set_loaner this
      (wrap (_available_small this - _target_small this)) ZPageTypeSmall
  else this.

End Solver.

(** ** The balancer: construction and the [balance()] flow *)

Section Flow.

Context {ZPage World : Type} {C : Collaborators ZPage World}.
Variable g : Globals.

Local Abbreviation State := (Machine ZPage World * ZPageCacheBalance ZPage)%type.

(** The constructor. *)
Definition ZPageCacheBalance_new
    (before_relocation : bool) (small_selected_to medium_selected_to : Z)
  : outcome (ZPageCacheBalance ZPage) :=
  assert g (ZBalancePageCache g) "sanity" ;;;
  Return {| _before_relocation := before_relocation;
            _small_selected_to := small_selected_to;
            _medium_selected_to := medium_selected_to;
            _available_small := 0;
            _available_medium := 0;
            _target_small := 0;
            _target_medium := 0;
            _loaner_count := 0;
            _debtor_count := 0;
            _loaner_type := ZPageTypeSmall;
            _debtor_type := ZPageTypeMedium;
            _loaner_list := [];
            _debtor_list := [] |}.

Definition initialize_page_count (m : Machine ZPage World)
    (this : ZPageCacheBalance ZPage) : ZPageCacheBalance ZPage :=
  let this := set_available this (small_page_count (world m))
                                 (medium_page_count (world m)) in
  let this := set_target_small this (_available_small this) in
  set_target_medium this (_available_medium this).

Definition need_to_balance (s : State) : outcome (bool * State) :=
  let (m, this) := s in
  if negb (is_warm g) then Return (false, (m, this))
  else
    let m := lock m in
    let this := initialize_page_count m this in
    r <- determine_balance_necessity g this ;;
    let (necessary, this) := r in
    if necessary then
      let this := calculate_loaner_and_debtor this in
      let (w, loaned) := loan_pages (_loaner_count this) (_loaner_type this)
                                    (world m) in
      let m := call (LoanPages (_loaner_count this) (_loaner_type this))
                    (fun _ => w) m in
      let this := set_loaner_list this (_loaner_list this ++ loaned) in
      Return (true, (unlock m, this))
    else Return (false, (unlock m, this)).

Definition unmap_pages (s : State) : State :=
  let (m, this) := s in
  (fold_left (fun m page => call (PhysicalUnmap page) (physical_unmap page) m)
             (_loaner_list this) m,
   this).

Definition free_physical_memory (s : State) : State :=
  let (m, this) := s in
  (fold_left
     (fun m page =>
        let m := lock m in
        let m := call (PhysicalFree page) (physical_free page) m in
        let m := call (PmemClear page) (pmem_clear page) m in
        let m := call (DetachedInsertLast page) (detached_insert_last page) m in
        unlock m)
     (_loaner_list this) m,
   set_loaner_list this []).

Definition unmap (s : State) : State :=
  free_physical_memory (unmap_pages s).

Fixpoint create_pages (n : nat) (debtor_page_size : Z) (s : State) : State :=
  match n with
  | O => s
  | S n =>
      let (m, this) := s in
      let m := lock m in
      let (w, page) := create_page (_debtor_type this) debtor_page_size (world m) in
      let m := call (CreatePage (_debtor_type this) debtor_page_size)
                    (fun _ => w) m in
      let this := set_debtor_list this (_debtor_list this ++ [page]) in
      let m := call (IncreaseUsed debtor_page_size false)
                    (increase_used debtor_page_size false) m in
      create_pages n debtor_page_size (unlock m, this)
  end.

Definition create_pages_for_debtor (s : State) : State :=
  let debtor_page_size :=
    match _debtor_type (snd s) with
    | ZPageTypeSmall => ZPageSizeSmall g
    | _ => ZPageSizeMedium g
    end in
  create_pages (Z.to_nat (_debtor_count (snd s))) debtor_page_size s.

Fixpoint map_each (pages : list ZPage) (m : Machine ZPage World)
  : outcome (Machine ZPage World) :=
  match pages with
  | [] => Return m
  | page :: pages =>
      assert g (negb (is_mapped page (world m)))
        "ZPage should not be mapped right after page creation." ;;;
      map_each pages (call (MapPage page) (map_page page) m)
  end.

Definition map_pages (s : State) : outcome State :=
  let (m, this) := s in
  m <- map_each (_debtor_list this) m ;;
  Return (m, this).

Definition insert_pages_to_page_cache (s : State) : State :=
  let (m, this) := s in
  (fold_left
     (fun m page =>
        let m := call (PageReset page) (page_reset page) m in
        let m := call (PageTableInsert page) (pagetable_insert page) m in
        call (ReleasePage page false) (release_page page false) m)
     (_debtor_list this) m,
   set_debtor_list this []).

Definition remap (s : State) : outcome State :=
  s <- map_pages (create_pages_for_debtor s) ;;
  Return (insert_pages_to_page_cache s).

Definition balance (s : State) : outcome State :=
  assert g (ZBalancePageCache g) "sanity" ;;;
  assert g (is_ConcurrentGC_thread g)
    "must balance in a concurrent GC thread" ;;;
  r <- need_to_balance s ;;
  let (necessary, s) := r in
  if necessary then remap (unmap s) else Return s.

End Flow.

(** * Verification *)

Arguments calculate_total_size g small_count medium_count : simpl never.

(** ** Assumptions on the globals and on the sampled cache counts *)

(** The page sizes are positive, a medium page is a whole number of small
    pages, and the allocation rates are not negative. *)
Record globals_ok (g : Globals) : Prop := {
  small_size_positive : 0 < ZPageSizeSmall g;
  medium_size_multiple : (ZPageSizeSmall g | ZPageSizeMedium g);
  medium_size_range : 0 < ZPageSizeMedium g < size_t_modulus;
  small_rate_nonneg : (0 <= small_alloc_rate g)%Q;
  medium_rate_nonneg : (0 <= medium_alloc_rate g)%Q
}.

(** The largest finite double. *)
Definition binary64_max : Q := inject_Z ((2 ^ 53 - 1) * 2 ^ 971).

(** The page sizes are powers of two, as [(size_t)1 << shift] makes them,
    of [2^11] bytes at least, so that the byte size of a whole number of
    pages below [2^64] is a binary64 number. *)
Record page_sizes_ok (g : Globals) : Prop := {
  small_size_power_of_two : exists k, 11 <= k /\ ZPageSizeSmall g = 2 ^ k;
  medium_size_power_of_two : exists k, 0 <= k /\ ZPageSizeMedium g = 2 ^ k
}.

(** The average of the medium rate is a finite double. *)
Definition medium_rate_finite (g : Globals) : Prop :=
  (medium_alloc_rate g <= binary64_max)%Q.

(** The binary64 numbers, signs and magnitudes apart: an integer of 53 bits
    at most times a power of two that is not below the smallest subnormal
    number. *)
Definition is_binary64 (x : Q) : Prop :=
  exists m e, -1074 <= e /\ Z.abs m <= 2 ^ 53 /\ (x == inject_Z m * 2 ^ e)%Q.

(** A double that is a binary64 number between [lo] and [hi]. *)
Definition finite_between (lo hi : Q) (d : double) : Prop :=
  exists v, d = Finite v /\ (lo <= v <= hi)%Q /\ is_binary64 v.

(** A double that is [+inf] or a binary64 number of [lo] at least. *)
Definition at_least (lo : Q) (d : double) : Prop :=
  d = Infinity false \/ exists v, d = Finite v /\ (lo <= v)%Q /\ is_binary64 v.

(** The byte size of the cached pages, as a mathematical integer. *)
Definition cache_bytes {ZPage : Type} (g : Globals)
    (this : ZPageCacheBalance ZPage) : Z :=
  ZPageSizeSmall g * _available_small this
  + ZPageSizeMedium g * _available_medium this.

(** The cache counts are counts, and the cached bytes are addressable. *)
Record cache_ok {ZPage : Type} (g : Globals)
    (this : ZPageCacheBalance ZPage) : Prop := {
  available_small_nonneg : 0 <= _available_small this;
  available_medium_nonneg : 0 <= _available_medium this;
  cache_bytes_fit : cache_bytes g this < size_t_modulus
}.

(** The projection onto the feasible region, as the table of the
    specification gives it: from the page sizes [S] and [M], the available
    bytes [A], the floor [(ms, mm)] and the optimum [(os, om)] to the target
    [(ts, tm)]. *)
Definition spec_projection (S M A ms mm os om : Z) : Z * Z :=
  if (om >=? mm) && (os >=? ms) then (os, om)
  else if om <? mm then ((A - M * mm) / S, mm)
  else
    let om' := (A - S * ms) / M in
    ((A - M * om') / S, om').

(** The optimal medium count after relocation, as the specification writes
    it. *)
Definition spec_optimal_medium (M A : Z) (small_rate medium_rate : Q) : Z :=
  let ratio := (medium_rate / (medium_rate + small_rate + (1 # 10)))%Q in
  Qfloor (inject_Z A * ratio / inject_Z M)%Q.

(** The reservation floor of a class of page size [size], as the
    specification writes it. *)
Definition spec_floor (capacity percent size : Z) : Z :=
  Z.max 1 (Qfloor (inject_Z capacity * inject_Z percent / 100 / inject_Z size)%Q).

(** ** Scenarios

    Page sizes of 2 MiB and 32 MiB, a heap of 20000 MiB of which 8 percent
    are reserved for the cache (800 small pages, or 50 medium pages), and
    allocation rates of 200 MiB/s (small) and 1 MiB/s (medium). *)

Definition MiB : Z := 1024 * 1024.

Definition scenario_globals (percent : Z) (debug warm : bool) : Globals :=
  {| ZPageSizeSmall := 2 * MiB;
     ZPageSizeMedium := 32 * MiB;
     ZMinPageCachePercent := percent;
     ZBalancePageCache := true;
     ASSERT := debug;
     heap_capacity := 20000 * MiB;
     small_alloc_rate := inject_Z (200 * MiB);
     medium_alloc_rate := inject_Z (1 * MiB);
     is_warm := warm;
     is_ConcurrentGC_thread := true |}.

(** A balancer whose page counts have been sampled: [available_small] small
    and [available_medium] medium pages in the cache. *)
Definition scenario_balancer (before_relocation : bool)
    (small_selected_to medium_selected_to available_small available_medium : Z)
  : ZPageCacheBalance ZPageType :=
  {| _before_relocation := before_relocation;
     _small_selected_to := small_selected_to;
     _medium_selected_to := medium_selected_to;
     _available_small := available_small;
     _available_medium := available_medium;
     _target_small := available_small;
     _target_medium := available_medium;
     _loaner_count := 0;
     _debtor_count := 0;
     _loaner_type := ZPageTypeSmall;
     _debtor_type := ZPageTypeMedium;
     _loaner_list := [];
     _debtor_list := [] |}.

(** A counting model of the collaborators, for the scenarios only.  The
    world is the number of cached small and medium pages, a page is known
    by its type; [loan_pages] takes [count] pages of the type out of the
    cache, [release_page] puts a page into it, and the other calls leave
    the counts alone. *)
Definition counting_world : Type := (Z * Z)%type.

Definition counting_loan (count : Z) (type : ZPageType) (w : counting_world)
  : counting_world * list ZPageType :=
  (match type with
   | ZPageTypeSmall => (fst w - count, snd w)
   | _ => (fst w, snd w - count)
   end,
   repeat type (Z.to_nat count)).

Definition counting_release (page : ZPageType) (reclaimed : bool)
    (w : counting_world) : counting_world :=
  match page with
  | ZPageTypeSmall => (fst w + 1, snd w)
  | _ => (fst w, snd w + 1)
  end.

#[local] Instance counting_collaborators
  : Collaborators ZPageType counting_world :=
  {| small_page_count := fst;
     medium_page_count := snd;
     loan_pages := counting_loan;
     physical_unmap := fun _ w => w;
     physical_free := fun _ w => w;
     pmem_clear := fun _ w => w;
     detached_insert_last := fun _ w => w;
     create_page := fun type _ w => (w, type);
     increase_used := fun _ _ w => w;
     map_page := fun _ w => w;
     is_mapped := fun _ _ => false;
     page_reset := fun _ w => w;
     pagetable_insert := fun _ w => w;
     release_page := counting_release |}.

Definition counting_machine (small medium : Z)
  : Machine ZPageType counting_world :=
  {| world := (small, medium); trace := [] |}.

(** The same globals (8 percent, debug build, warm cycle) with other
    allocation rates, in bytes per second. *)
Definition scenario_globals_with_rates (small_rate medium_rate : Z) : Globals :=
  {| ZPageSizeSmall := 2 * MiB;
     ZPageSizeMedium := 32 * MiB;
     ZMinPageCachePercent := 8;
     ZBalancePageCache := true;
     ASSERT := true;
     heap_capacity := 20000 * MiB;
     small_alloc_rate := inject_Z small_rate;
     medium_alloc_rate := inject_Z medium_rate;
     is_warm := true;
     is_ConcurrentGC_thread := true |}.


(** The same globals with another heap capacity and percentage. *)
Definition scenario_globals_with_heap (capacity percent : Z) : Globals :=
  {| ZPageSizeSmall := 2 * MiB;
     ZPageSizeMedium := 32 * MiB;
     ZMinPageCachePercent := percent;
     ZBalancePageCache := true;
     ASSERT := true;
     heap_capacity := capacity;
     small_alloc_rate := inject_Z (200 * MiB);
     medium_alloc_rate := inject_Z (1 * MiB);
     is_warm := true;
     is_ConcurrentGC_thread := true |}.

(** ** The operations on doubles as the Standard Library specifies them

    [SpecFloat] gives the operations of IEEE 754 on sign, mantissa and
    exponent; they serve as a reference for the operations above on the
    examples at the end of the file. *)

Definition double_of_spec_float (x : spec_float) : double :=
  match x with
  | S754_zero _ => Finite 0
  | S754_infinity s => Infinity s
  | S754_nan => NaN
  | S754_finite s m e =>
      Finite ((if s then - (1) else 1) * inject_Z (Zpos m) * 2 ^ e)%Q
  end.

Definition double_eqb (a b : double) : bool :=
  match a, b with
  | Finite x, Finite y => Qeq_bool x y
  | Infinity s, Infinity t => Bool.eqb s t
  | NaN, NaN => true
  | _, _ => false
  end.

Definition spec_float_of_Z (z : Z) : spec_float :=
  binary_normalize 53 1024 z 0 false.

(** [medium / (medium + small + 0.1)] and [A * ratio / M], for integer
    rates, with the operations of [SpecFloat]. *)
Definition spec_float_ratio (medium small : Z) : spec_float :=
  SFdiv 53 1024 (spec_float_of_Z medium)
    (SFadd 53 1024
       (SFadd 53 1024 (spec_float_of_Z medium) (spec_float_of_Z small))
       (SFdiv 53 1024 (spec_float_of_Z 1) (spec_float_of_Z 10))).

Definition spec_float_scaled (A M medium small : Z) : spec_float :=
  SFdiv 53 1024
    (SFmul 53 1024 (spec_float_of_Z A) (spec_float_ratio medium small))
    (spec_float_of_Z M).

(** The same with the operations of the embedding. *)
Definition double_ratio (medium small : Z) : double :=
  double_div (double_round (inject_Z medium))
    (double_add
       (double_add (double_round (inject_Z medium))
          (double_round (inject_Z small)))
       one_tenth).

Definition double_scaled (A M medium small : Z) : double :=
  double_div (double_mul (double_of_size_t A) (double_ratio medium small))
    (double_of_size_t M).

(** ** Shapes of the history of calls

    The calls each stage of the flow makes, as the source orders them. *)

(** [free_physical_memory], for one page. *)
Definition free_events {ZPage : Type} (page : ZPage) : list (event ZPage) :=
  [Lock; PhysicalFree page; PmemClear page; DetachedInsertLast page; Unlock].

(** [create_pages_for_debtor], for one page. *)
Definition create_events {ZPage : Type} (type : ZPageType) (size : Z)
  : list (event ZPage) :=
  [Lock; CreatePage type size; IncreaseUsed size false; Unlock].

(** [insert_pages_to_page_cache], for one page. *)
Definition publish_events {ZPage : Type} (page : ZPage) : list (event ZPage) :=
  [PageReset page; PageTableInsert page; ReleasePage page false].

(** The byte size of the pages [create_pages_for_debtor] creates for a
    type. *)
Definition page_size_of_type (g : Globals) (type : ZPageType) : Z :=
  match type with
  | ZPageTypeSmall => ZPageSizeSmall g
  | _ => ZPageSizeMedium g
  end.

(** The locking discipline of the source, checked along a history of calls:
    the lock is not taken twice nor released when free; the cache is loaned
    from, physical memory is freed and pages are created with the lock
    held; pages are unmapped, mapped and published with the lock free.
    The result is the state of the lock at the end, if the discipline is
    kept ([held]: the state at the start). *)
Fixpoint lock_discipline {ZPage : Type} (held : bool) (t : list (event ZPage))
  : option bool :=
  match t with
  | [] => Some held
  | Lock :: t => if held then None else lock_discipline true t
  | Unlock :: t => if held then lock_discipline false t else None
  | LoanPages _ _ :: t | PhysicalFree _ :: t | PmemClear _ :: t
  | DetachedInsertLast _ :: t | CreatePage _ _ :: t | IncreaseUsed _ _ :: t =>
      if held then lock_discipline true t else None
  | PhysicalUnmap _ :: t | MapPage _ :: t | PageReset _ :: t
  | PageTableInsert _ :: t | ReleasePage _ _ :: t =>
      if held then None else lock_discipline false t
  end.

(** Exactly one of three propositions holds. *)
Definition exactly_one (P Q R : Prop) : Prop :=
  (P /\ ~ Q /\ ~ R) \/ (~ P /\ Q /\ ~ R) \/ (~ P /\ ~ Q /\ R).

(** * Binary64 arithmetic *)

(** ** Powers of two *)

Lemma pow2_pos (e : Z) : (0 < 2 ^ e)%Q.
Proof. apply Qpower_0_lt. reflexivity. Qed.

Lemma pow2_add (a b : Z) : (2 ^ (a + b) == 2 ^ a * 2 ^ b)%Q.
Proof. apply Qpower_plus. discriminate. Qed.

Lemma pow2_le (a b : Z) : a <= b -> (2 ^ a <= 2 ^ b)%Q.
Proof. intros H. apply Qpower_le_compat_l; [exact H|discriminate]. Qed.

Lemma pow2_lt (a b : Z) : a < b -> (2 ^ a < 2 ^ b)%Q.
Proof. intros H. apply Qpower_lt_compat_l; [exact H|reflexivity]. Qed.

Lemma pow2_lt_inv (a b : Z) : (2 ^ a < 2 ^ b)%Q -> a < b.
Proof. intros H. apply (Qpower_lt_compat_l_inv 2); [exact H|reflexivity]. Qed.

Lemma pow2_le_inv (a b : Z) : (2 ^ a <= 2 ^ b)%Q -> a <= b.
Proof. intros H. apply (Qpower_le_compat_l_inv 2); [exact H|reflexivity]. Qed.

Lemma pow2_Z (n : Z) : 0 <= n -> (inject_Z (2 ^ n) == 2 ^ n)%Q.
Proof. intros H. apply (Zpower_Qpower 2 n H). Qed.

Lemma pow2_succ (a : Z) : (2 ^ (a + 1) == 2 * 2 ^ a)%Q.
Proof. rewrite pow2_add. change (2 ^ 1)%Q with 2%Q. ring. Qed.

(** ** Rounding to the nearest integer, ties to even *)

Lemma Qround_even_bounds (x : Q) :
  Qfloor x <= Qround_even x <= Qfloor x + 1.
Proof.
  unfold Qround_even.
  destruct (x - inject_Z (Qfloor x) ?= 1 # 2)%Q; [|lia|lia].
  destruct (Z.even (Qfloor x)); lia.
Qed.

Lemma Qround_even_ge (k : Z) (x : Q) :
  (inject_Z k <= x)%Q -> k <= Qround_even x.
Proof.
  intros H. pose proof (Qround_even_bounds x) as [Hb _].
  apply Qfloor_resp_le in H. rewrite Qfloor_Z in H. lia.
Qed.

Lemma Qround_even_le (x : Q) (k : Z) :
  (x <= inject_Z k)%Q -> Qround_even x <= k.
Proof.
  intros H. pose proof (Qround_even_bounds x) as [_ Hb].
  pose proof (Qfloor_le x) as Hf.
  assert (Hfk : Qfloor x <= k).
  { apply Qfloor_resp_le in H. rewrite Qfloor_Z in H. exact H. }
  destruct (Z.eq_dec (Qfloor x) k) as [E|E]; [|lia].
  unfold Qround_even.
  assert (Hlt : (x - inject_Z (Qfloor x) < 1 # 2)%Q).
  { rewrite E. lra. }
  destruct (x - inject_Z (Qfloor x) ?= 1 # 2)%Q eqn:E2.
  - apply Qeq_alt in E2. lra.
  - lia.
  - apply Qgt_alt in E2. lra.
Qed.

Lemma Qround_even_error (x : Q) :
  (x - (1 # 2) <= inject_Z (Qround_even x) <= x + (1 # 2))%Q.
Proof.
  unfold Qround_even.
  pose proof (Qfloor_le x) as Hf. pose proof (Qlt_floor x) as Hc.
  rewrite inject_Z_plus in Hc. change (inject_Z 1) with 1%Q in Hc.
  destruct (x - inject_Z (Qfloor x) ?= 1 # 2)%Q eqn:E.
  - apply Qeq_alt in E.
    destruct (Z.even (Qfloor x)); rewrite ?inject_Z_plus;
      change (inject_Z 1) with 1%Q; lra.
  - apply Qlt_alt in E. lra.
  - apply Qgt_alt in E. rewrite inject_Z_plus.
    change (inject_Z 1) with 1%Q. lra.
Qed.

Lemma Qround_even_comp (x y : Q) : (x == y)%Q -> Qround_even x = Qround_even y.
Proof.
  intros H. unfold Qround_even. rewrite (Qfloor_comp x y H).
  assert (E : (x - inject_Z (Qfloor y) ?= 1 # 2)%Q
              = (y - inject_Z (Qfloor y) ?= 1 # 2)%Q).
  { apply Qcompare_comp; [rewrite H; reflexivity|reflexivity]. }
  rewrite E. reflexivity.
Qed.

Lemma Qround_even_Z (k : Z) : Qround_even (inject_Z k) = k.
Proof.
  apply Z.le_antisymm.
  - apply Qround_even_le. apply Qle_refl.
  - apply Qround_even_ge. apply Qle_refl.
Qed.

(** ** The binary logarithm of a positive rational *)

Lemma Qilog2_spec (x : Q) :
  (0 < x)%Q -> (2 ^ Qilog2 x <= x /\ x < 2 ^ (Qilog2 x + 1))%Q.
Proof.
  intros Hx. unfold Qilog2.
  destruct x as [n d]. cbn [Qnum Qden].
  assert (Hn : 0 < n).
  { unfold Qlt in Hx. cbn in Hx. lia. }
  set (a := Z.log2 n). set (b := Z.log2 (Zpos d)).
  destruct (Z.log2_spec n Hn) as [Ha1 Ha2]. fold a in Ha1, Ha2.
  destruct (Z.log2_spec (Zpos d) (Pos2Z.is_pos d)) as [Hb1 Hb2].
  fold b in Hb1, Hb2.
  assert (Ha0 : 0 <= a) by apply Z.log2_nonneg.
  assert (Hb0 : 0 <= b) by apply Z.log2_nonneg.
  assert (HA : (2 ^ a <= inject_Z n /\ inject_Z n < 2 * 2 ^ a)%Q).
  { rewrite <- pow2_succ, <- !pow2_Z by lia.
    rewrite <- Zle_Qle, <- Zlt_Qlt. replace (a + 1) with (Z.succ a) by lia.
    split; assumption. }
  assert (HB : (2 ^ b <= inject_Z (Zpos d) /\ inject_Z (Zpos d) < 2 * 2 ^ b)%Q).
  { rewrite <- pow2_succ, <- !pow2_Z by lia.
    rewrite <- Zle_Qle, <- Zlt_Qlt. replace (b + 1) with (Z.succ b) by lia.
    split; assumption. }
  assert (Hd : (0 < inject_Z (Zpos d))%Q) by reflexivity.
  pose proof (pow2_pos a) as Hpa. pose proof (pow2_pos b) as Hpb.
  assert (He : (2 ^ (a - b) == 2 ^ a / 2 ^ b)%Q).
  { apply Qpower_minus. discriminate. }
  assert (Hlow : (2 ^ (a - b - 1) < n # d)%Q).
  { replace (a - b - 1) with ((a - b) + -1) by lia.
    rewrite pow2_add, He, (Qmake_Qdiv n d). change (2 ^ (-1))%Q with (1 # 2)%Q.
    apply Qlt_shift_div_l; [exact Hd|].
    assert (E : (2 ^ a / 2 ^ b * (1 # 2) * inject_Z (Z.pos d)
                 == (2 ^ a * inject_Z (Z.pos d)) / (2 * 2 ^ b))%Q)
      by (field; lra).
    rewrite E. apply Qlt_shift_div_r; [lra|].
    apply Qle_lt_trans with (inject_Z n * inject_Z (Zpos d))%Q.
    - apply Qmult_le_compat_r; lra.
    - apply Qmult_lt_l; lra. }
  assert (Hhigh : (n # d < 2 ^ (a - b + 1))%Q).
  { rewrite pow2_succ, He, (Qmake_Qdiv n d).
    apply Qlt_shift_div_r; [exact Hd|].
    assert (E : (2 * (2 ^ a / 2 ^ b) * inject_Z (Z.pos d)
                 == (2 * 2 ^ a * inject_Z (Z.pos d)) / 2 ^ b)%Q)
      by (field; lra).
    rewrite E. apply Qlt_shift_div_l; [lra|].
    apply Qlt_le_trans with (2 * 2 ^ a * 2 ^ b)%Q.
    - apply Qmult_lt_r; lra.
    - apply Qmult_le_l; lra. }
  destruct (Qle_bool (2 ^ (a - b)) (n # d)) eqn:E.
  - apply Qle_bool_iff in E. split; assumption.
  - assert (Hlt : (n # d < 2 ^ (a - b))%Q).
    { apply Qnot_le_lt. intros H. apply Qle_bool_iff in H. congruence. }
    replace (a - b - 1 + 1) with (a - b) by lia.
    split; [apply Qlt_le_weak; exact Hlow|exact Hlt].
Qed.

(** ** Binary64 numbers *)

Lemma binary64_exponent_min (x : Q) : -1074 <= binary64_exponent x.
Proof. unfold binary64_exponent. lia. Qed.

Lemma binary64_exponent_upper (x : Q) :
  (0 < x)%Q -> (x < 2 ^ (binary64_exponent x + 53))%Q.
Proof.
  intros Hx. destruct (Qilog2_spec x Hx) as [_ H].
  apply Qlt_le_trans with (1 := H). apply pow2_le.
  unfold binary64_exponent. lia.
Qed.

Lemma binary64_exponent_lower (x : Q) :
  (0 < x)%Q -> -1074 < binary64_exponent x ->
  (2 ^ (binary64_exponent x + 52) <= x)%Q.
Proof.
  intros Hx He. destruct (Qilog2_spec x Hx) as [H _].
  apply Qle_trans with (2 := H). apply pow2_le.
  unfold binary64_exponent in *. lia.
Qed.

Lemma is_binary64_bound (f : Q) (m e : Z) :
  Z.abs m <= 2 ^ 53 -> (f == inject_Z m * 2 ^ e)%Q -> (f <= 2 ^ (e + 53))%Q.
Proof.
  intros Hm Hf. rewrite Hf, Z.add_comm, pow2_add, <- (pow2_Z 53) by lia.
  apply Qmult_le_compat_r; [|apply Qlt_le_weak, pow2_pos].
  rewrite <- Zle_Qle. lia.
Qed.

(** A binary64 number on the other side of [x] is a whole number of units
    in the last place of [x], or lies below the binade of [x]. *)
Lemma is_binary64_multiple (x f : Q) :
  (0 < x)%Q -> is_binary64 f ->
  let e := binary64_exponent x in
  (exists N, (f == inject_Z N * 2 ^ e)%Q) \/ (f <= 2 ^ (e + 52) <= x)%Q.
Proof.
  intros Hx (m & ef & Hef & Hm & Hf) e.
  destruct (Z_le_gt_dec e ef) as [Hle|Hgt].
  - left. exists (m * 2 ^ (ef - e))%Z.
    rewrite Hf, inject_Z_mult, (pow2_Z (ef - e)) by lia.
    replace ef with ((ef - e) + e)%Z at 1 by lia.
    rewrite pow2_add. ring.
  - right. split.
    + apply Qle_trans with (1 := is_binary64_bound f m ef Hm Hf).
      apply pow2_le. lia.
    + apply binary64_exponent_lower; [exact Hx|]. fold e. lia.
Qed.

Lemma scaled_le (x y : Q) (e : Z) :
  (x <= y * 2 ^ e)%Q -> (x / 2 ^ e <= y)%Q.
Proof. intros H. apply Qle_shift_div_r; [apply pow2_pos|exact H]. Qed.

Lemma scaled_ge (x y : Q) (e : Z) :
  (y * 2 ^ e <= x)%Q -> (y <= x / 2 ^ e)%Q.
Proof. intros H. apply Qle_shift_div_l; [apply pow2_pos|exact H]. Qed.

Lemma round_binary64_zero (x : Q) : (x == 0)%Q -> (round_binary64 x == 0)%Q.
Proof.
  intros H. unfold round_binary64.
  rewrite (Qround_even_comp _ 0); [reflexivity|].
  unfold Qdiv.
  transitivity (0 * / 2 ^ binary64_exponent x)%Q; [|ring].
  apply Qmult_comp; [exact H|reflexivity].
Qed.

Lemma round_binary64_nonneg (x : Q) : (0 <= x)%Q -> (0 <= round_binary64 x)%Q.
Proof.
  intros H. unfold round_binary64.
  apply Qmult_le_0_compat; [|apply Qlt_le_weak, pow2_pos].
  change 0%Q with (inject_Z 0). rewrite <- Zle_Qle.
  apply Qround_even_ge. apply scaled_ge.
  change (inject_Z 0) with 0%Q. lra.
Qed.

(** Rounding does not cross a binary64 number. *)
Lemma round_binary64_le (x f : Q) :
  (0 <= x)%Q -> (x <= f)%Q -> is_binary64 f -> (round_binary64 x <= f)%Q.
Proof.
  intros Hx Hxf Hf.
  destruct (Qlt_le_dec 0 x) as [Hpos|Hzero].
  - destruct (is_binary64_multiple x f Hpos Hf) as [[N HN]|[H1 H2]].
    + unfold round_binary64. rewrite HN.
      apply Qmult_le_compat_r; [|apply Qlt_le_weak, pow2_pos].
      rewrite <- Zle_Qle. apply Qround_even_le. apply scaled_le.
      rewrite <- HN. exact Hxf.
    + assert (E : (x == inject_Z (2 ^ 52) * 2 ^ binary64_exponent x)%Q).
      { rewrite (pow2_Z 52), <- pow2_add, Z.add_comm by lia.
        apply Qle_antisym; [|exact H2].
        apply Qle_trans with (1 := Hxf). exact H1. }
      unfold round_binary64.
      rewrite (Qround_even_comp _ (inject_Z (2 ^ 52))).
      * rewrite Qround_even_Z, <- E. exact Hxf.
      * rewrite E at 1. field. pose proof (pow2_pos (binary64_exponent x)). lra.
  - rewrite round_binary64_zero; lra.
Qed.

Lemma round_binary64_ge (x f : Q) :
  (f <= x)%Q -> (0 <= f)%Q -> is_binary64 f -> (f <= round_binary64 x)%Q.
Proof.
  intros Hfx H0 Hf.
  destruct (Qlt_le_dec 0 x) as [Hpos|Hzero].
  - destruct (is_binary64_multiple x f Hpos Hf) as [[N HN]|[H1 H2]].
    + unfold round_binary64. rewrite HN.
      apply Qmult_le_compat_r; [|apply Qlt_le_weak, pow2_pos].
      rewrite <- Zle_Qle. apply Qround_even_ge. apply scaled_ge.
      rewrite <- HN. exact Hfx.
    + apply Qle_trans with (1 := H1). unfold round_binary64.
      rewrite Z.add_comm, pow2_add, <- (pow2_Z 52) by lia.
      apply Qmult_le_compat_r; [|apply Qlt_le_weak, pow2_pos].
      rewrite <- Zle_Qle. apply Qround_even_ge. apply scaled_ge.
      rewrite (pow2_Z 52), <- pow2_add, Z.add_comm by lia. exact H2.
  - rewrite round_binary64_zero; lra.
Qed.

Lemma round_binary64_exact (x : Q) :
  (0 <= x)%Q -> is_binary64 x -> (round_binary64 x == x)%Q.
Proof.
  intros H0 Hf. apply Qle_antisym.
  - apply round_binary64_le; [exact H0|apply Qle_refl|exact Hf].
  - apply round_binary64_ge; [apply Qle_refl|exact H0|exact Hf].
Qed.

Lemma round_binary64_format (x : Q) : (0 <= x)%Q -> is_binary64 (round_binary64 x).
Proof.
  intros Hx. unfold is_binary64, round_binary64.
  exists (Qround_even (x / 2 ^ binary64_exponent x)), (binary64_exponent x).
  split; [apply binary64_exponent_min|]. split; [|reflexivity].
  assert (H0 : 0 <= Qround_even (x / 2 ^ binary64_exponent x)).
  { apply Qround_even_ge. apply scaled_ge.
    change (inject_Z 0) with 0%Q. lra. }
  rewrite Z.abs_eq by exact H0.
  apply Qround_even_le. apply scaled_le.
  rewrite (pow2_Z 53), <- pow2_add by lia.
  destruct (Qlt_le_dec 0 x) as [Hpos|Hzero].
  - apply Qlt_le_weak. rewrite Z.add_comm.
    apply binary64_exponent_upper. exact Hpos.
  - apply Qle_trans with 0%Q; [exact Hzero|apply Qlt_le_weak, pow2_pos].
Qed.

(** The rounding error is at most half a unit in the last place. *)
Lemma round_binary64_error (x : Q) (k : Z) :
  (0 < x)%Q -> (x < 2 ^ k)%Q -> -1074 <= k - 53 ->
  (x - 2 ^ (k - 54) <= round_binary64 x <= x + 2 ^ (k - 54))%Q.
Proof.
  intros Hx Hk Hmin.
  set (e := binary64_exponent x).
  assert (He : e <= k - 53).
  { destruct (Qilog2_spec x Hx) as [H _].
    assert (Qilog2 x < k).
    { apply pow2_lt_inv. apply Qle_lt_trans with (1 := H). exact Hk. }
    unfold e, binary64_exponent. lia. }
  pose proof (Qround_even_error (x / 2 ^ e)) as [E1 E2].
  pose proof (pow2_pos e) as Hpe.
  assert (Hhalf : ((1 # 2) * 2 ^ e <= 2 ^ (k - 54))%Q).
  { apply Qle_trans with (2 ^ (e - 1))%Q.
    - replace (e - 1) with (e + -1) by lia. rewrite pow2_add.
      change (2 ^ (-1))%Q with (1 # 2)%Q. lra.
    - apply pow2_le. lia. }
  assert (Hx' : (x / 2 ^ e * 2 ^ e == x)%Q) by (field; lra).
  unfold round_binary64. fold e.
  apply (Qmult_le_compat_r _ _ (2 ^ e)) in E1; [|lra].
  apply (Qmult_le_compat_r _ _ (2 ^ e)) in E2; [|lra].
  rewrite Qmult_plus_distr_l in E2.
  assert (E1' : ((x / 2 ^ e - (1 # 2)) * 2 ^ e
                 == x / 2 ^ e * 2 ^ e - (1 # 2) * 2 ^ e)%Q) by ring.
  rewrite E1' in E1. rewrite Hx' in E1, E2.
  split; lra.
Qed.

(** ** Examples of binary64 numbers *)

Lemma is_binary64_Z (z : Z) : Z.abs z <= 2 ^ 53 -> is_binary64 (inject_Z z).
Proof.
  intros H. exists z, 0. split; [lia|]. split; [exact H|].
  change (2 ^ 0)%Q with 1%Q. ring.
Qed.

Lemma is_binary64_shifted (n k : Z) :
  0 <= k -> Z.abs n <= 2 ^ 53 -> is_binary64 (inject_Z (n * 2 ^ k)).
Proof.
  intros Hk Hn. exists n, k. split; [lia|]. split; [exact Hn|].
  rewrite inject_Z_mult, (pow2_Z k) by exact Hk. reflexivity.
Qed.

(** A binary64 number that is at least 1 is still one when divided by a
    power of two up to [2^1021]. *)
Lemma is_binary64_scaled (x : Q) (k : Z) :
  is_binary64 x -> (1 <= x)%Q -> 0 <= k <= 1021 -> is_binary64 (x / 2 ^ k).
Proof.
  intros (m & e & He & Hm & Hx) H1 Hk.
  assert (H53 : -53 <= e).
  { apply pow2_le_inv. replace (-53) with (0 + -53) by lia.
    pose proof (is_binary64_bound x m e Hm Hx) as Hb.
    apply Qle_trans with (2 ^ (e + 53) * 2 ^ (-53))%Q.
    - replace (0 + -53) with (-53) by lia.
      assert (E : (2 ^ (-53) == 1 * 2 ^ (-53))%Q) by ring.
      rewrite E at 1. apply Qmult_le_compat_r; [|apply Qlt_le_weak, pow2_pos].
      apply Qle_trans with (1 := H1). exact Hb.
    - rewrite <- pow2_add. apply pow2_le. lia. }
  exists m, (e - k). split; [lia|]. split; [exact Hm|].
  rewrite Hx. replace (e - k) with (e + - k) by lia.
  rewrite pow2_add, Qpower_opp. unfold Qdiv. ring.
Qed.

(** ** Operations on doubles that are not negative *)

Lemma is_binary64_comp (x y : Q) : (x == y)%Q -> is_binary64 x -> is_binary64 y.
Proof.
  intros E (m & e & He & Hm & Hx). exists m, e.
  split; [exact He|]. split; [exact Hm|]. rewrite <- E. exact Hx.
Qed.

Lemma is_binary64_pow2 (k : Z) : 0 <= k -> is_binary64 (2 ^ k).
Proof.
  intros Hk. exists 1, k. split; [lia|]. split; [simpl; lia|]. ring.
Qed.

Lemma is_binary64_binary64_max : is_binary64 binary64_max.
Proof. apply is_binary64_shifted; simpl; lia. Qed.

Lemma Qabs_nonneg (x : Q) : (0 <= x)%Q -> Qabs x = x.
Proof.
  destruct x as [n d]. unfold Qle. cbn. intros H.
  rewrite Z.abs_eq by lia. reflexivity.
Qed.

Lemma Qnegative_nonneg (x : Q) : (0 <= x)%Q -> Qnegative x = false.
Proof.
  intros H. unfold Qnegative. apply Qle_bool_iff in H. rewrite H. reflexivity.
Qed.

Lemma double_round_between (lo hi x : Q) :
  (0 <= lo)%Q -> (lo <= x <= hi)%Q -> is_binary64 lo -> is_binary64 hi ->
  (hi < 2 ^ 1024)%Q ->
  finite_between lo hi (double_round x).
Proof.
  intros H0 [H1 H2] Hlo Hhi Hfin.
  assert (Hx : (0 <= x)%Q) by lra.
  pose proof (round_binary64_le x hi Hx H2 Hhi) as Hle.
  pose proof (round_binary64_ge x lo H1 H0 Hlo) as Hge.
  unfold double_round. rewrite (Qabs_nonneg x Hx), (Qnegative_nonneg x Hx).
  destruct (Qle_bool (2 ^ 1024) (round_binary64 x)) eqn:E.
  - apply Qle_bool_iff in E. lra.
  - exists (round_binary64 x). split; [reflexivity|]. split; [lra|].
    apply round_binary64_format. exact Hx.
Qed.

Lemma double_round_at_least (lo x : Q) :
  (0 <= lo)%Q -> (lo <= x)%Q -> is_binary64 lo -> at_least lo (double_round x).
Proof.
  intros H0 H1 Hlo.
  assert (Hx : (0 <= x)%Q) by lra.
  pose proof (round_binary64_ge x lo H1 H0 Hlo) as Hge.
  unfold double_round. rewrite (Qabs_nonneg x Hx), (Qnegative_nonneg x Hx).
  destruct (Qle_bool (2 ^ 1024) (round_binary64 x)).
  - left. reflexivity.
  - right. exists (round_binary64 x). split; [reflexivity|]. split; [exact Hge|].
    apply round_binary64_format. exact Hx.
Qed.

Lemma is_binary64_zero : is_binary64 0.
Proof. apply (is_binary64_Z 0). simpl. lia. Qed.

Lemma is_binary64_one : is_binary64 1.
Proof. apply (is_binary64_Z 1). simpl. lia. Qed.

(** Rounding a binary64 number gives it back. *)
Lemma double_round_exact (x : Q) :
  (0 <= x)%Q -> is_binary64 x -> (x < 2 ^ 1024)%Q ->
  exists v, double_round x = Finite v /\ (v == x)%Q /\ is_binary64 v.
Proof.
  intros H0 Hf Hfin.
  destruct (double_round_between x x x H0 (conj (Qle_refl x) (Qle_refl x))
              Hf Hf Hfin) as (v & E & [H1 H2] & Hv).
  exists v. split; [exact E|]. split; [apply Qle_antisym; assumption|exact Hv].
Qed.

Lemma at_least_weaken (lo lo' : Q) (d : double) :
  (lo' <= lo)%Q -> at_least lo d -> at_least lo' d.
Proof.
  intros H [E|(v & E & Hv & Hf)]; [left; exact E|].
  right. exists v. split; [exact E|]. split; [lra|exact Hf].
Qed.

Lemma double_add_at_least (lo1 lo2 : Q) (a b : double) :
  (0 <= lo1)%Q -> (0 <= lo2)%Q -> at_least lo1 a -> at_least lo2 b ->
  at_least 0 (double_add a b)
  /\ (forall v, a = Finite v -> at_least v (double_add a b))
  /\ (forall v, b = Finite v -> at_least v (double_add a b)).
Proof.
  intros H1 H2 [Ea|(va & Ea & Hva & Hfa)] [Eb|(vb & Eb & Hvb & Hfb)]; subst a b;
    cbn [double_add Bool.eqb].
  - repeat split; intros; left; reflexivity.
  - repeat split; intros; left; reflexivity.
  - repeat split; intros; left; reflexivity.
  - split; [|split].
    + apply double_round_at_least; [lra|lra|apply is_binary64_zero].
    + intros v E. injection E as <-.
      apply double_round_at_least; [lra|lra|exact Hfa].
    + intros v E. injection E as <-.
      apply double_round_at_least; [lra|lra|exact Hfb].
Qed.

Lemma one_tenth_value :
  exists c, one_tenth = Finite c /\ (0 < c)%Q /\ is_binary64 c.
Proof.
  destruct (double_round_between (1 # 16) 1 (1 # 10)) as (c & E & [H1 H2] & Hc).
  - discriminate.
  - split; discriminate.
  - exists 1, (-4). split; [lia|]. split; [simpl; lia|]. reflexivity.
  - apply is_binary64_one.
  - reflexivity.
  - exists c. split; [exact E|]. split; [lra|exact Hc].
Qed.

(** The predicted ratio [medium / (medium + small + 0.1)] of a medium rate
    that is a finite double and of a small rate, both not negative, is a
    binary64 number between 0 and 1; it can be 1. *)
Lemma predicted_ratio_of_finite (m small : Q) :
  (0 <= m)%Q -> is_binary64 m -> (0 <= small)%Q ->
  finite_between 0 1
    (double_div (Finite m)
       (double_add (double_add (Finite m) (double_round small)) one_tenth)).
Proof.
  intros Hm2 Hfm Hs.
  pose proof (double_round_at_least 0 small (Qle_refl 0) Hs is_binary64_zero) as Hsd.
  destruct one_tenth_value as (c & Ec & Hc & Hfc).
  rewrite Ec.
  destruct (double_add_at_least m 0 (Finite m) (double_round small) Hm2
              (Qle_refl 0)) as (_ & Hsum & _).
  { right. exists m. split; [reflexivity|]. split; [lra|exact Hfm]. }
  { exact Hsd. }
  specialize (Hsum m eq_refl).
  destruct Hsum as [E1|(v1 & E1 & Hv1 & Hf1)]; rewrite E1; cbn [double_add double_div].
  - exists 0%Q. split; [reflexivity|]. split; [lra|apply is_binary64_zero].
  - assert (Hx : (0 <= v1 + c)%Q) by lra.
    assert (Hge1 : (v1 <= round_binary64 (v1 + c))%Q)
      by (apply round_binary64_ge; [lra|lra|exact Hf1]).
    assert (Hgec : (c <= round_binary64 (v1 + c))%Q)
      by (apply round_binary64_ge; [lra|lra|exact Hfc]).
    unfold double_round at 1.
    rewrite (Qabs_nonneg _ Hx), (Qnegative_nonneg _ Hx).
    destruct (Qle_bool (2 ^ 1024) (round_binary64 (v1 + c))).
    + exists 0%Q. split; [reflexivity|]. split; [lra|apply is_binary64_zero].
    + set (D := round_binary64 (v1 + c)) in *.
      assert (HD : ~ (D == 0)%Q) by lra.
      destruct (Qeq_bool D 0) eqn:E0; [apply Qeq_bool_iff in E0; contradiction|].
      apply double_round_between;
        [lra| |apply is_binary64_zero|apply is_binary64_one|reflexivity].
      split.
      * apply Qle_shift_div_l; lra.
      * apply Qle_shift_div_r; lra.
Qed.

Lemma predicted_ratio_bounds (medium small : Q) :
  (0 <= medium <= binary64_max)%Q -> (0 <= small)%Q ->
  finite_between 0 1
    (double_div (double_round medium)
       (double_add (double_add (double_round medium) (double_round small))
          one_tenth)).
Proof.
  intros [Hm0 Hm1] Hs.
  destruct (double_round_between 0 binary64_max medium) as (m & Em & [Hm2 Hm3] & Hfm);
    [lra|lra|apply is_binary64_zero|apply is_binary64_binary64_max|reflexivity|].
  rewrite Em. apply predicted_ratio_of_finite; assumption.
Qed.

(** A medium rate beyond the doubles is read as [+inf], and the predicted
    ratio is then [inf / inf], not a number. *)
Lemma predicted_ratio_cases (medium small : Q) :
  (0 <= medium)%Q -> (0 <= small)%Q ->
  double_div (double_round medium)
    (double_add (double_add (double_round medium) (double_round small))
       one_tenth) = NaN
  \/ finite_between 0 1
       (double_div (double_round medium)
          (double_add (double_add (double_round medium) (double_round small))
             one_tenth)).
Proof.
  intros Hm Hs.
  destruct (double_round_at_least 0 medium (Qle_refl 0) Hm is_binary64_zero)
    as [E|(m & E & Hm0 & Hfm)]; rewrite E.
  - left.
    destruct one_tenth_value as (c & Ec & _). rewrite Ec.
    destruct (double_round_at_least 0 small (Qle_refl 0) Hs is_binary64_zero)
      as [Es|(v & Es & _)]; rewrite Es; reflexivity.
  - right. apply predicted_ratio_of_finite; assumption.
Qed.

(** ** Conversions between [size_t] and [double] *)

Lemma quot_floor (q : Q) :
  (0 <= q)%Q -> Z.quot (Qnum q) (Zpos (Qden q)) = Qfloor q.
Proof.
  destruct q as [n d]. unfold Qle. simpl. intros H.
  rewrite Z.mul_1_r in H. apply Z.quot_div_nonneg; lia.
Qed.

Lemma size_t_of_double_floor (q : Q) :
  (0 <= q)%Q -> Qfloor q < size_t_modulus ->
  size_t_of_double (Finite q) = Return (Qfloor q).
Proof.
  intros H0 Hlt. unfold size_t_of_double.
  rewrite (quot_floor q H0).
  assert (H : 0 <= Qfloor q).
  { change 0 with (Qfloor 0). apply Qfloor_resp_le. exact H0. }
  replace (0 <=? Qfloor q) with true by (symmetry; apply Z.leb_le; exact H).
  replace (Qfloor q <? size_t_modulus) with true
    by (symmetry; apply Z.ltb_lt; exact Hlt).
  reflexivity.
Qed.

Lemma double_of_size_t_between (z hi : Z) :
  0 <= z <= hi -> hi <= 2 ^ 64 -> (exists n k, 0 <= k /\ Z.abs n <= 2 ^ 53 /\ hi = n * 2 ^ k) ->
  finite_between 0 (inject_Z hi) (double_of_size_t z).
Proof.
  intros [H0 H1] Hhi (n & k & Hk & Hn & E).
  apply double_round_between.
  - apply Qle_refl.
  - split; [change 0%Q with (inject_Z 0)|]; rewrite <- Zle_Qle; assumption.
  - apply is_binary64_zero.
  - rewrite E. apply is_binary64_shifted; assumption.
  - apply Qle_lt_trans with (inject_Z (2 ^ 64)); [rewrite <- Zle_Qle; exact Hhi|].
    reflexivity.
Qed.

(** Every [size_t] converts to a finite double, of at most [2^64]. *)
Lemma double_of_size_t_finite (z : Z) :
  0 <= z < size_t_modulus ->
  finite_between 0 (inject_Z (2 ^ 64)) (double_of_size_t z).
Proof.
  intros [H0 H1]. apply double_of_size_t_between.
  - unfold size_t_modulus in H1. lia.
  - lia.
  - exists 1, 64. split; [lia|]. split; [simpl; lia|]. reflexivity.
Qed.

(** A [size_t] of one at least converts to a double of one at least. *)
Lemma double_of_size_t_positive (z : Z) :
  1 <= z < size_t_modulus ->
  finite_between 1 (inject_Z (2 ^ 64)) (double_of_size_t z).
Proof.
  intros [H0 H1]. apply double_round_between.
  - discriminate.
  - split; [change 1%Q with (inject_Z 1)|]; rewrite <- Zle_Qle;
      unfold size_t_modulus in H1; lia.
  - apply is_binary64_one.
  - apply (is_binary64_shifted 1 64); simpl; lia.
  - reflexivity.
Qed.

(** A [size_t] that is a binary64 number converts to itself. *)
Lemma double_of_size_t_exact (z : Z) :
  0 <= z < size_t_modulus -> is_binary64 (inject_Z z) ->
  exists v, double_of_size_t z = Finite v /\ (v == inject_Z z)%Q /\ is_binary64 v.
Proof.
  intros [H0 H1] Hf. apply double_round_exact.
  - change 0%Q with (inject_Z 0). rewrite <- Zle_Qle. exact H0.
  - exact Hf.
  - apply Qlt_trans with (inject_Z (2 ^ 64)); [|reflexivity].
    rewrite <- Zlt_Qlt. exact H1.
Qed.

Lemma double_round_zero (x : Q) :
  (x == 0)%Q -> exists v, double_round x = Finite v /\ (v == 0)%Q.
Proof.
  intros H.
  destruct (double_round_between 0 0 x) as (v & E & [H1 H2] & _);
    [lra|lra|apply is_binary64_zero|apply is_binary64_zero|reflexivity|].
  exists v. split; [exact E|lra].
Qed.

Lemma size_t_of_double_zero (v : Q) :
  (v == 0)%Q -> size_t_of_double (Finite v) = Return 0.
Proof.
  intros H. rewrite size_t_of_double_floor.
  - rewrite (Qfloor_comp v 0 H). reflexivity.
  - lra.
  - rewrite (Qfloor_comp v 0 H). reflexivity.
Qed.

(** With a medium rate of zero the predicted ratio is zero. *)
Lemma predicted_ratio_zero (medium small : Q) :
  (medium == 0)%Q -> (0 <= small)%Q ->
  exists r,
    double_div (double_round medium)
      (double_add (double_add (double_round medium) (double_round small))
         one_tenth) = Finite r
    /\ (r == 0)%Q.
Proof.
  intros Hm Hs.
  destruct (double_round_zero medium Hm) as (m & Em & Hm0).
  pose proof (double_round_at_least 0 small (Qle_refl 0) Hs is_binary64_zero) as Hsd.
  destruct one_tenth_value as (c & Ec & Hc & Hfc).
  rewrite Em, Ec.
  destruct Hsd as [Es|(s & Es & Hs0 & Hfs)]; rewrite Es; cbn [double_add double_div].
  - exists 0%Q. split; reflexivity.
  - destruct (double_round_at_least 0 (m + s)) as [E1|(v1 & E1 & Hv1 & Hf1)];
      [lra|lra|apply is_binary64_zero| |]; rewrite E1; cbn [double_add double_div].
    + exists 0%Q. split; reflexivity.
    + destruct (double_round_at_least c (v1 + c)) as [E2|(D & E2 & HD & HfD)];
        [lra|lra|exact Hfc| |]; rewrite E2; cbn [double_div].
      * exists 0%Q. split; reflexivity.
      * destruct (Qeq_bool D 0) eqn:E0;
          [apply Qeq_bool_iff in E0; lra|].
        apply double_round_zero. rewrite Hm0. unfold Qdiv. ring.
Qed.

(** The count [(size_t)(A * ratio / M)] for a ratio of zero. *)
Lemma scaled_count_zero (A M : Z) (r : Q) :
  0 <= A < size_t_modulus -> 1 <= M < size_t_modulus -> (r == 0)%Q ->
  size_t_of_double
    (double_div (double_mul (double_of_size_t A) (Finite r))
       (double_of_size_t M)) = Return 0.
Proof.
  intros HA HM Hr.
  destruct (double_of_size_t_finite A HA) as (a & Ea & _ & _).
  destruct (double_of_size_t_positive M HM) as (m & Em & [Hm _] & _).
  rewrite Ea, Em. cbn [double_mul].
  destruct (double_round_zero (a * r)) as (p & Ep & Hp).
  { rewrite Hr. ring. }
  rewrite Ep. cbn [double_div].
  destruct (Qeq_bool m 0) eqn:E0; [apply Qeq_bool_iff in E0; lra|].
  destruct (double_round_zero (p / m)) as (q & Eq & Hq).
  { rewrite Hp. unfold Qdiv. ring. }
  rewrite Eq. apply size_t_of_double_zero. exact Hq.
Qed.

(** The count [(size_t)(A * ratio / M)] for a ratio of one at most, when
    [A] is a binary64 number and [M] a power of two: the pages counted fit
    in [A] bytes. *)
Lemma scaled_count_bound (A k : Z) (r : Q) :
  0 <= A < size_t_modulus -> is_binary64 (inject_Z A) -> 0 <= k < 64 ->
  (0 <= r <= 1)%Q ->
  exists count,
    size_t_of_double
      (double_div (double_mul (double_of_size_t A) (Finite r))
         (double_of_size_t (2 ^ k))) = Return count
    /\ 0 <= count /\ 2 ^ k * count <= A.
Proof.
  intros HA HfA Hk [Hr0 Hr1].
  destruct (double_of_size_t_exact A HA HfA) as (a & Ea & Ha & Hfa).
  assert (HM : 0 <= 2 ^ k < size_t_modulus).
  { unfold size_t_modulus. split; [apply Z.pow_nonneg; lia|].
    apply Z.pow_lt_mono_r; lia. }
  destruct (double_of_size_t_exact (2 ^ k) HM) as (m & Em & Hm & Hfm).
  { apply (is_binary64_comp (2 ^ k)); [symmetry; apply pow2_Z; lia|].
    apply is_binary64_pow2. lia. }
  rewrite (pow2_Z k) in Hm by lia.
  pose proof (pow2_pos k) as Hpk.
  assert (Hk1 : (1 <= 2 ^ k)%Q).
  { change 1%Q with (2 ^ 0)%Q. apply pow2_le. lia. }
  assert (HA0 : (0 <= inject_Z A)%Q).
  { change 0%Q with (inject_Z 0). rewrite <- Zle_Qle. lia. }
  assert (HAfin : (inject_Z A < 2 ^ 1024)%Q).
  { apply Qlt_trans with (inject_Z (2 ^ 64)); [|reflexivity].
    rewrite <- Zlt_Qlt. apply HA. }
  rewrite Ea, Em. cbn [double_mul].
  destruct (double_round_between 0 (inject_Z A) (a * r))
    as (p & Ep & [Hp0 Hp1] & Hfp);
    [lra| |apply is_binary64_zero|exact HfA|exact HAfin|].
  { rewrite Ha. split.
    - apply Qmult_le_0_compat; lra.
    - rewrite <- (Qmult_1_r (inject_Z A)) at 2.
      apply Qmult_le_compat_nonneg; split; lra. }
  rewrite Ep. cbn [double_div].
  destruct (Qeq_bool m 0) eqn:E0; [apply Qeq_bool_iff in E0; lra|].
  assert (Hq : (0 <= p / m <= p)%Q).
  { split.
    - apply Qle_shift_div_l; lra.
    - apply Qle_shift_div_r; [lra|].
      rewrite <- (Qmult_1_r p) at 1. apply Qmult_le_compat_nonneg; split; lra. }
  destruct (double_round_between 0 p (p / m))
    as (q & Eq & [Hq0 Hq1] & Hfq);
    [lra|exact Hq|apply is_binary64_zero|exact Hfp|lra|].
  rewrite Eq.
  assert (Hfloor : Qfloor q <= A).
  { rewrite <- (Qfloor_Z A). apply Qfloor_resp_le. lra. }
  rewrite size_t_of_double_floor; [|exact Hq0|lia].
  exists (Qfloor q). split; [reflexivity|].
  assert (H0 : 0 <= Qfloor q).
  { change 0 with (Qfloor 0). apply Qfloor_resp_le. exact Hq0. }
  split; [exact H0|].
  destruct (Qlt_le_dec p 1) as [Hsmall|Hbig].
  - assert (Qfloor q = 0).
    { assert (Qfloor q < 1); [|lia].
      rewrite Zlt_Qlt. apply Qle_lt_trans with q; [apply Qfloor_le|].
      change (inject_Z 1) with 1%Q. lra. }
    lia.
  - assert (Hexact : (q == p / 2 ^ k)%Q).
    { assert (E : (p / m == p / 2 ^ k)%Q) by (rewrite Hm; reflexivity).
      assert (Hfs : is_binary64 (p / m)).
      { apply (is_binary64_comp (p / 2 ^ k)); [symmetry; exact E|].
        apply is_binary64_scaled; [exact Hfp|exact Hbig|lia]. }
      rewrite <- E.
      assert (Hr : double_round (p / m) = Finite q) by exact Eq.
      destruct (double_round_exact (p / m)) as (q' & Eq' & Hq' & _);
        [lra|exact Hfs|lra|].
      rewrite Eq' in Hr. injection Hr as <-. exact Hq'. }
    rewrite Zle_Qle, inject_Z_mult, (pow2_Z k) by lia.
    apply Qle_trans with p; [|exact Hp1].
    apply Qle_trans with (2 ^ k * q)%Q.
    + apply Qmult_le_l; [exact Hpk|apply Qfloor_le].
    + rewrite Hexact. apply Qle_lteq. right. field. lra.
Qed.

(** No count comes of a ratio that is not a number. *)
Lemma scaled_count_undefined (A M : Z) :
  size_t_of_double
    (double_div (double_mul (double_of_size_t A) NaN) (double_of_size_t M))
  = Fatal UndefinedConversion.
Proof. destruct (double_of_size_t A); reflexivity. Qed.

Lemma double_round_finite (x hi : Q) :
  (0 <= x <= hi)%Q -> is_binary64 hi -> (hi < 2 ^ 1024)%Q ->
  double_round x = Finite (round_binary64 x).
Proof.
  intros [Hx H2] Hhi Hfin.
  pose proof (round_binary64_le x hi Hx H2 Hhi) as Hle.
  unfold double_round. rewrite (Qabs_nonneg x Hx), (Qnegative_nonneg x Hx).
  destruct (Qle_bool (2 ^ 1024) (round_binary64 x)) eqn:E; [|reflexivity].
  apply Qle_bool_iff in E. lra.
Qed.

Lemma Qfloor_unique (q : Q) (j : Z) :
  (inject_Z j <= q)%Q -> (q < inject_Z (j + 1))%Q -> Qfloor q = j.
Proof.
  intros H1 H2.
  assert (j <= Qfloor q).
  { rewrite <- (Qfloor_Z j). apply Qfloor_resp_le. exact H1. }
  assert (Qfloor q < j + 1).
  { rewrite Zlt_Qlt. apply Qle_lt_trans with q; [apply Qfloor_le|exact H2]. }
  lia.
Qed.

(** The count [(size_t)(W / 100.0 / size)] is defined for every [size_t]
    [W] and every page size. *)
Lemma percent_count_returns (W size : Z) :
  0 <= W < size_t_modulus -> 1 <= size < size_t_modulus ->
  exists count,
    size_t_of_double
      (double_div (double_div (double_of_size_t W) (Finite 100))
         (double_of_size_t size)) = Return count
    /\ 0 <= count.
Proof.
  intros HW Hsize.
  destruct (double_of_size_t_finite W HW) as (w & Ew & [Hw0 Hw1] & Hfw).
  destruct (double_of_size_t_positive size Hsize) as (m & Em & [Hm _] & _).
  rewrite Ew, Em. cbn [double_div].
  change (Qeq_bool 100 0) with false. cbv iota.
  assert (H64 : (inject_Z (2 ^ 64) == 2 ^ 64)%Q) by reflexivity.
  destruct (double_round_between 0 (2 ^ 58) (w / 100))
    as (y & Ey & [Hy0 Hy1] & Hfy);
    [lra| |apply is_binary64_zero|apply is_binary64_pow2; lia|reflexivity|].
  { split.
    - apply Qle_shift_div_l; lra.
    - apply Qle_shift_div_r; [reflexivity|].
      apply Qle_trans with (1 := Hw1). discriminate. }
  rewrite Ey. cbn [double_div].
  destruct (Qeq_bool m 0) eqn:E0; [apply Qeq_bool_iff in E0; lra|].
  destruct (double_round_between 0 (2 ^ 58) (y / m))
    as (z & Ez & [Hz0 Hz1] & Hfz);
    [lra| |apply is_binary64_zero|apply is_binary64_pow2; lia|reflexivity|].
  { split.
    - apply Qle_shift_div_l; lra.
    - apply Qle_shift_div_r; [lra|].
      apply Qle_trans with (1 := Hy1).
      rewrite <- (Qmult_1_r (2 ^ 58)) at 1.
      apply Qmult_le_l; [reflexivity|exact Hm]. }
  rewrite Ez.
  assert (Hfloor : Qfloor z <= 2 ^ 58).
  { rewrite <- (Qfloor_Z (2 ^ 58)). apply Qfloor_resp_le.
    apply Qle_trans with (1 := Hz1). discriminate. }
  rewrite size_t_of_double_floor; [|exact Hz0|].
  - eexists. split; [reflexivity|].
    change 0 with (Qfloor 0). apply Qfloor_resp_le. exact Hz0.
  - unfold size_t_modulus. apply Z.le_lt_trans with (1 := Hfloor). reflexivity.
Qed.

(** Below [2^53] the count [(size_t)(W / 100.0 / 2^k)] is the exact
    quotient, rounded down. *)
Lemma percent_count_exact (W k : Z) :
  0 <= W < 2 ^ 53 -> 0 <= k < 64 ->
  size_t_of_double
    (double_div (double_div (double_of_size_t W) (Finite 100))
       (double_of_size_t (2 ^ k)))
  = Return (Qfloor (inject_Z W / 100 / inject_Z (2 ^ k))).
Proof.
  intros HW Hk.
  assert (HW' : 0 <= W < size_t_modulus).
  { unfold size_t_modulus. split; [lia|].
    apply Z.lt_trans with (2 ^ 53); [lia|reflexivity]. }
  destruct (double_of_size_t_exact W HW') as (w & Ew & Hw & Hfw).
  { apply is_binary64_Z. lia. }
  assert (HM : 0 <= 2 ^ k < size_t_modulus).
  { unfold size_t_modulus. split; [apply Z.pow_nonneg; lia|].
    apply Z.pow_lt_mono_r; lia. }
  destruct (double_of_size_t_exact (2 ^ k) HM) as (m & Em & Hm & Hfm).
  { apply (is_binary64_comp (2 ^ k)); [symmetry; apply pow2_Z; lia|].
    apply is_binary64_pow2. lia. }
  pose proof (pow2_pos k) as Hpk.
  assert (Hk1 : (1 <= 2 ^ k)%Q).
  { change 1%Q with (2 ^ 0)%Q. apply pow2_le. lia. }
  rewrite (pow2_Z k) by lia. rewrite (pow2_Z k) in Hm by lia.
  set (x := (inject_Z W / 100)%Q).
  assert (Hx : (w / 100 == x)%Q) by (unfold x; rewrite Hw; reflexivity).
  assert (HW0 : (0 <= inject_Z W)%Q).
  { change 0%Q with (inject_Z 0). rewrite <- Zle_Qle. lia. }
  assert (HW53 : (inject_Z W <= inject_Z (2 ^ 53 - 1))%Q).
  { rewrite <- Zle_Qle. lia. }
  assert (Hx0 : (0 <= x)%Q) by (unfold x; apply Qle_shift_div_l; lra).
  assert (Hx47 : (x < 2 ^ 47)%Q).
  { unfold x. apply Qlt_shift_div_r; [reflexivity|].
    apply Qle_lt_trans with (1 := HW53). reflexivity. }
  set (j := Qfloor (x / 2 ^ k)).
  assert (Hj0 : 0 <= j).
  { unfold j. change 0 with (Qfloor 0). apply Qfloor_resp_le.
    apply Qle_shift_div_l; lra. }
  assert (HL : (inject_Z (j * 2 ^ k) <= x)%Q).
  { rewrite inject_Z_mult, (pow2_Z k) by lia.
    apply (Qmult_le_r _ _ (/ 2 ^ k)); [apply Qinv_lt_0_compat; exact Hpk|].
    rewrite <- Qmult_assoc, Qmult_inv_r, Qmult_1_r by lra.
    apply Qfloor_le. }
  assert (HB : (x < inject_Z ((j + 1) * 2 ^ k))%Q).
  { rewrite inject_Z_mult, (pow2_Z k) by lia.
    apply (Qmult_lt_r _ _ (/ 2 ^ k)); [apply Qinv_lt_0_compat; exact Hpk|].
    rewrite <- Qmult_assoc, Qmult_inv_r, Qmult_1_r by lra.
    apply Qlt_floor. }
  set (L := j * 2 ^ k) in *. set (B := (j + 1) * 2 ^ k) in *.
  assert (HB' : (x <= inject_Z B - (1 # 100))%Q).
  { assert (HWB : W < 100 * B).
    { rewrite Zlt_Qlt, inject_Z_mult.
      apply (Qmult_lt_r _ _ (1 # 100)); [reflexivity|].
      assert (E : (inject_Z 100 * inject_Z B * (1 # 100) == inject_Z B)%Q).
      { change (inject_Z 100) with 100%Q. field. }
      rewrite E. exact HB. }
    assert (HWB' : (inject_Z W <= inject_Z (100 * B - 1))%Q).
    { rewrite <- Zle_Qle. lia. }
    unfold x. apply Qle_shift_div_r; [reflexivity|].
    apply Qle_trans with (1 := HWB').
    unfold Z.sub. rewrite inject_Z_plus, inject_Z_mult.
    change (inject_Z 100) with 100%Q. change (inject_Z (- (1))) with (- (1))%Q.
    apply Qle_lteq. right. field. }
  assert (HLf : is_binary64 (inject_Z L)).
  { apply is_binary64_Z.
    assert (0 <= L) by (unfold L; apply Z.mul_nonneg_nonneg;
                         [exact Hj0|apply Z.pow_nonneg; lia]).
    assert (L < 2 ^ 47).
    { rewrite Zlt_Qlt. apply Qle_lt_trans with (1 := HL).
      apply Qlt_le_trans with (1 := Hx47). discriminate. }
    rewrite Z.abs_eq by assumption.
    apply Z.lt_le_incl. apply Z.lt_trans with (2 ^ 47); [assumption|reflexivity]. }
  assert (HL0 : (0 <= inject_Z L)%Q).
  { change 0%Q with (inject_Z 0). rewrite <- Zle_Qle.
    unfold L. apply Z.mul_nonneg_nonneg; [exact Hj0|apply Z.pow_nonneg; lia]. }
  rewrite Ew, Em. cbn [double_div].
  change (Qeq_bool 100 0) with false. cbv iota.
  set (y := round_binary64 (w / 100)).
  assert (Hy : double_round (w / 100) = Finite y).
  { apply (double_round_finite _ (2 ^ 47)).
    - rewrite Hx. split; [exact Hx0|apply Qlt_le_weak; exact Hx47].
    - apply is_binary64_pow2. lia.
    - reflexivity. }
  assert (Hfy : is_binary64 y).
  { apply round_binary64_format. rewrite Hx. exact Hx0. }
  assert (HyL : (inject_Z L <= y)%Q).
  { apply round_binary64_ge; [rewrite Hx; exact HL|exact HL0|exact HLf]. }
  assert (HyB : (y < inject_Z B)%Q).
  { destruct (Qlt_le_dec 0 x) as [Hpos|Hzero].
    - destruct (round_binary64_error (w / 100) 47) as [_ Herr].
      + rewrite Hx. exact Hpos.
      + rewrite Hx. exact Hx47.
      + lia.
      + fold y in Herr. rewrite Hx in Herr.
        change (2 ^ (47 - 54))%Q with (1 # 128)%Q in Herr.
        apply Qle_lt_trans with (1 := Herr).
        apply Qle_lt_trans with (inject_Z B - (1 # 100) + (1 # 128))%Q; [lra|].
        assert ((- (1 # 100) + (1 # 128) < 0)%Q) by reflexivity. lra.
    - assert (Hy0 : (y == 0)%Q).
      { apply round_binary64_zero. rewrite Hx. lra. }
      rewrite Hy0. lra. }
  assert (Hy0 : (0 <= y)%Q) by lra.
  rewrite Hy. cbn [double_div].
  destruct (Qeq_bool m 0) eqn:E0; [apply Qeq_bool_iff in E0; lra|].
  assert (Hq : (0 <= y / m <= y)%Q).
  { split.
    - apply Qle_shift_div_l; lra.
    - apply Qle_shift_div_r; [lra|].
      rewrite <- (Qmult_1_r y) at 1. apply Qmult_le_compat_nonneg; split; lra. }
  assert (Hyfin : (y < 2 ^ 1024)%Q).
  { apply Qle_lt_trans with (2 ^ 47)%Q; [|reflexivity].
    apply round_binary64_le.
    - rewrite Hx. exact Hx0.
    - rewrite Hx. apply Qlt_le_weak. exact Hx47.
    - apply is_binary64_pow2. lia. }
  destruct (double_round_between 0 y (y / m))
    as (z & Ez & [Hz0 Hz1] & Hfz);
    [lra|exact Hq|apply is_binary64_zero|exact Hfy|exact Hyfin|].
  rewrite Ez.
  assert (Hzj : Qfloor z = j).
  { destruct (Qlt_le_dec y 1) as [Hsmall|Hbig].
    - assert (Hz : Qfloor z = 0).
      { apply Qfloor_unique; [exact Hz0|].
        change (inject_Z (0 + 1)) with 1%Q. lra. }
      assert (L < 1).
      { rewrite Zlt_Qlt. change (inject_Z 1) with 1%Q. lra. }
      assert (1 <= 2 ^ k)
        by (change 1 with (2 ^ 0); apply Z.pow_le_mono_r; lia).
      unfold L in *. nia.
    - assert (Hexact : (z == y / 2 ^ k)%Q).
      { assert (E : (y / m == y / 2 ^ k)%Q) by (rewrite Hm; reflexivity).
        assert (Hfs : is_binary64 (y / m)).
        { apply (is_binary64_comp (y / 2 ^ k)); [symmetry; exact E|].
          apply is_binary64_scaled; [exact Hfy|exact Hbig|lia]. }
        rewrite <- E.
        destruct (double_round_exact (y / m)) as (z' & Ez' & Hz' & _);
          [lra|exact Hfs|lra|].
        rewrite Ez' in Ez. injection Ez as <-. exact Hz'. }
      apply Qfloor_unique.
      + rewrite Hexact. apply Qle_shift_div_l; [exact Hpk|].
        rewrite <- (pow2_Z k), <- inject_Z_mult by lia. exact HyL.
      + rewrite Hexact. apply Qlt_shift_div_r; [exact Hpk|].
        rewrite <- (pow2_Z k), <- inject_Z_mult by lia. exact HyB. }
  rewrite size_t_of_double_floor; [|exact Hz0|].
  - rewrite Hzj. reflexivity.
  - rewrite Hzj. unfold size_t_modulus.
    assert (j <= L).
    { unfold L.
      assert (1 <= 2 ^ k)
        by (change 1 with (2 ^ 0); apply Z.pow_le_mono_r; lia).
      nia. }
    assert (L < 2 ^ 47).
    { rewrite Zlt_Qlt. apply Qle_lt_trans with (1 := HL).
      apply Qlt_le_trans with (1 := Hx47). discriminate. }
    apply Z.le_lt_trans with L; [assumption|].
    apply Z.lt_trans with (2 ^ 47); [assumption|reflexivity].
Qed.


Section SolverFacts.

Context {ZPage : Type}.

Local Abbreviation Balancer := (ZPageCacheBalance ZPage).

(** ** Arithmetic helpers *)

Lemma wrap_small (z : Z) : 0 <= z < size_t_modulus -> wrap z = z.
Proof. intros H. unfold wrap. apply Z.mod_small. exact H. Qed.

Lemma wrap_range (z : Z) : is_size_t (wrap z).
Proof.
  unfold is_size_t, wrap. apply Z.mod_pos_bound. reflexivity.
Qed.

Lemma MAX2_max (a b : Z) : MAX2 a b = Z.max a b.
Proof. unfold MAX2. destruct (Z.gtb_spec a b); lia. Qed.

Lemma geb_true_iff (a b : Z) : (a >=? b) = true <-> b <= a.
Proof. rewrite Z.geb_le. reflexivity. Qed.

Lemma gtb_true_iff (a b : Z) : (a >? b) = true <-> b < a.
Proof. rewrite Z.gtb_lt. reflexivity. Qed.

Lemma gtb_false_iff (a b : Z) : (a >? b) = false <-> a <= b.
Proof. destruct (Z.gtb_spec a b); split; intros; try lia; congruence. Qed.

Lemma geb_false_iff (a b : Z) : (a >=? b) = false <-> a < b.
Proof. destruct (Z.geb_spec a b); split; intros; try lia; congruence. Qed.

Lemma total_size_exact (g : Globals) (a b : Z) :
  0 < ZPageSizeSmall g -> 0 < ZPageSizeMedium g ->
  0 <= a -> 0 <= b ->
  ZPageSizeSmall g * a + ZPageSizeMedium g * b < size_t_modulus ->
  calculate_total_size g a b = ZPageSizeSmall g * a + ZPageSizeMedium g * b.
Proof.
  intros HS HM Ha Hb Hfit. unfold calculate_total_size.
  assert (0 <= ZPageSizeSmall g * a) by nia.
  assert (0 <= ZPageSizeMedium g * b) by nia.
  rewrite (wrap_small (ZPageSizeSmall g * a)) by lia.
  rewrite (wrap_small (ZPageSizeMedium g * b)) by lia.
  apply wrap_small. lia.
Qed.

Lemma available_exact (g : Globals) (this : Balancer) :
  globals_ok g -> cache_ok g this ->
  available_page_cache_size g this = cache_bytes g this.
Proof.
  intros [HS _ HM _ _] [Hs Hm Hfit]. unfold available_page_cache_size.
  apply total_size_exact; try assumption; lia.
Qed.

Lemma cache_bytes_nonneg (g : Globals) (this : Balancer) :
  globals_ok g -> cache_ok g this -> 0 <= cache_bytes g this.
Proof.
  intros [HS _ HM _ _] [Hs Hm _]. unfold cache_bytes. nia.
Qed.

Lemma small_divides_cache (g : Globals) (this : Balancer) :
  globals_ok g -> (ZPageSizeSmall g | cache_bytes g this).
Proof.
  intros [_ Hdiv _ _ _]. unfold cache_bytes.
  apply Z.divide_add_r.
  - apply Z.divide_factor_l.
  - apply Z.divide_mul_l. exact Hdiv.
Qed.

(** What is left of the cache after [medium] medium pages is a whole number
    of small pages. *)
Lemma small_pages_exact (g : Globals) (this : Balancer) (medium : Z) :
  globals_ok g ->
  ZPageSizeSmall g * ((cache_bytes g this - ZPageSizeMedium g * medium)
                      / ZPageSizeSmall g)
  = cache_bytes g this - ZPageSizeMedium g * medium.
Proof.
  intros Hg. pose proof (small_divides_cache g this Hg) as Hd.
  destruct Hg as [HS Hdiv _ _ _].
  symmetry. apply Z.div_exact; [lia|].
  apply Z.mod_divide; [lia|].
  apply Z.divide_sub_r; [exact Hd|].
  apply Z.divide_mul_l. exact Hdiv.
Qed.

Lemma assert_holds (g : Globals) (msg : string) :
  assert g true msg = Return tt.
Proof. unfold assert. rewrite andb_false_r. reflexivity. Qed.

Lemma calculate_maximal_small_for_medium_exact
    (g : Globals) (this : Balancer) (medium : Z) :
  globals_ok g -> cache_ok g this ->
  0 <= medium -> ZPageSizeMedium g * medium < cache_bytes g this ->
  calculate_maximal_small_for_medium g this medium
  = Return ((cache_bytes g this - ZPageSizeMedium g * medium) / ZPageSizeSmall g).
Proof.
  intros Hg Hc Hm Hlt. unfold calculate_maximal_small_for_medium.
  rewrite (available_exact g this Hg Hc).
  pose proof (cache_bytes_fit g this Hc) as Hfit.
  destruct Hg as [HS _ HM _ _].
  assert (Hw : wrap (medium * ZPageSizeMedium g) = ZPageSizeMedium g * medium).
  { rewrite wrap_small; nia. }
  rewrite Hw.
  replace (cache_bytes g this >? ZPageSizeMedium g * medium) with true
    by (symmetry; apply gtb_true_iff; lia).
  rewrite assert_holds. simpl. rewrite wrap_small by lia. reflexivity.
Qed.

Lemma calculate_maximal_medium_for_small_exact
    (g : Globals) (this : Balancer) (small : Z) :
  globals_ok g -> cache_ok g this ->
  0 <= small -> ZPageSizeSmall g * small < cache_bytes g this ->
  calculate_maximal_medium_for_small g this small
  = Return ((cache_bytes g this - ZPageSizeSmall g * small) / ZPageSizeMedium g).
Proof.
  intros Hg Hc Hm Hlt. unfold calculate_maximal_medium_for_small.
  rewrite (available_exact g this Hg Hc).
  pose proof (cache_bytes_fit g this Hc) as Hfit.
  destruct Hg as [HS _ HM _ _].
  assert (Hw : wrap (small * ZPageSizeSmall g) = ZPageSizeSmall g * small).
  { rewrite wrap_small; nia. }
  rewrite Hw.
  replace (cache_bytes g this >? ZPageSizeSmall g * small) with true
    by (symmetry; apply gtb_true_iff; lia).
  rewrite assert_holds. simpl. rewrite wrap_small by lia. reflexivity.
Qed.

Lemma guarantee_holds (msg : string) : guarantee true msg = Return tt.
Proof. reflexivity. Qed.

(** ** The cached bytes and the page sizes as doubles *)

Lemma medium_size_shift (g : Globals) :
  globals_ok g -> page_sizes_ok g ->
  exists k, 0 <= k < 64 /\ ZPageSizeMedium g = 2 ^ k.
Proof.
  intros Hg Hd. destruct (medium_size_power_of_two g Hd) as (k & Hk & E).
  exists k. split; [|exact E]. split; [exact Hk|].
  pose proof (medium_size_range g Hg) as [_ H]. rewrite E in H.
  apply (Z.pow_lt_mono_r_iff 2); [lia|lia|exact H].
Qed.

Lemma small_size_shift (g : Globals) :
  globals_ok g -> page_sizes_ok g ->
  exists k, 11 <= k < 64 /\ ZPageSizeSmall g = 2 ^ k.
Proof.
  intros Hg Hd. destruct (small_size_power_of_two g Hd) as (k & Hk & E).
  exists k. split; [|exact E]. split; [exact Hk|].
  pose proof (medium_size_range g Hg) as [H0 H].
  pose proof (small_size_positive g Hg) as HS.
  assert (ZPageSizeSmall g <= ZPageSizeMedium g).
  { apply Z.divide_pos_le; [exact H0|apply (medium_size_multiple g Hg)]. }
  rewrite E in *.
  apply (Z.pow_lt_mono_r_iff 2); [lia|lia|]. unfold size_t_modulus in H. lia.
Qed.

(** The cached bytes are a whole number of small pages of [2^11] bytes at
    least, below [2^64]: a binary64 number. *)
Lemma cache_bytes_is_binary64 (g : Globals) (this : Balancer) :
  globals_ok g -> page_sizes_ok g -> cache_ok g this ->
  is_binary64 (inject_Z (cache_bytes g this)).
Proof.
  intros Hg Hd Hc.
  destruct (small_size_shift g Hg Hd) as (k & Hk & E).
  pose proof (small_divides_cache g this Hg) as (n & Hn).
  pose proof (cache_bytes_nonneg g this Hg Hc) as H0.
  pose proof (cache_bytes_fit g this Hc) as Hfit.
  rewrite Hn, E in *. unfold size_t_modulus in Hfit.
  assert (Hp : 0 < 2 ^ k) by (apply Z.pow_pos_nonneg; lia).
  assert (Hle : 2 ^ 11 <= 2 ^ k) by (apply Z.pow_le_mono_r; lia).
  apply is_binary64_shifted; [lia|].
  assert (0 <= n) by nia.
  rewrite Z.abs_eq by assumption.
  assert (n * 2 ^ 11 < 2 ^ 64) by nia.
  change (2 ^ 64) with (2 ^ 53 * 2 ^ 11) in *. nia.
Qed.

(** ** The reservation floor *)

Lemma minimal_medium_at_least_one (g : Globals) (this : Balancer) (mm : Z) :
  globals_ok g -> calculate_minimal_medium g this = Return mm -> 1 <= mm.
Proof.
  intros _ H. unfold calculate_minimal_medium in H.
  destruct (size_t_of_double _) as [r|]; [|discriminate H].
  cbn [bind] in H. rewrite !MAX2_max in H.
  destruct (_before_relocation this); injection H as <-; lia.
Qed.

Lemma minimal_small_at_least_one (g : Globals) (this : Balancer) (ms : Z) :
  globals_ok g -> calculate_minimal_small g this = Return ms -> 1 <= ms.
Proof.
  intros _ H. unfold calculate_minimal_small in H.
  destruct (size_t_of_double _) as [r|]; [|discriminate H].
  cbn [bind] in H. rewrite !MAX2_max in H.
  destruct (_before_relocation this); injection H as <-; lia.
Qed.

(** The floors are computed whatever the capacity and the percentage are:
    the conversion to [size_t] is always defined. *)
Lemma calculate_minimal_medium_returns (g : Globals) (this : Balancer) :
  globals_ok g ->
  exists count,
    0 <= count
    /\ calculate_minimal_medium g this
       = Return (if _before_relocation this
                 then Z.max (_medium_selected_to this) (Z.max count 1)
                 else Z.max count 1).
Proof.
  intros Hg. unfold calculate_minimal_medium, one_hundred.
  pose proof (medium_size_range g Hg) as HM.
  destruct (percent_count_returns
              (wrap (heap_capacity g * ZMinPageCachePercent g))
              (ZPageSizeMedium g)) as (count & E & H0);
    [apply wrap_range|lia|].
  rewrite E. cbn [bind]. rewrite !MAX2_max. exists count. split; [exact H0|].
  destruct (_before_relocation this); reflexivity.
Qed.

Lemma calculate_minimal_small_returns (g : Globals) (this : Balancer) :
  globals_ok g ->
  exists count,
    0 <= count
    /\ calculate_minimal_small g this
       = Return (if _before_relocation this
                 then Z.max (_small_selected_to this) (Z.max count 1)
                 else Z.max count 1).
Proof.
  intros Hg. unfold calculate_minimal_small, one_hundred.
  pose proof (small_size_positive g Hg) as HS.
  pose proof (medium_size_range g Hg) as [HM0 HM].
  assert (ZPageSizeSmall g <= ZPageSizeMedium g).
  { apply Z.divide_pos_le; [exact HM0|apply (medium_size_multiple g Hg)]. }
  destruct (percent_count_returns
              (wrap (heap_capacity g * ZMinPageCachePercent g))
              (ZPageSizeSmall g)) as (count & E & H0);
    [apply wrap_range|lia|].
  rewrite E. cbn [bind]. rewrite !MAX2_max. exists count. split; [exact H0|].
  destruct (_before_relocation this); reflexivity.
Qed.

(** Below [2^53] the percentage rule is the one of the specification. *)
Lemma percent_count_spec (capacity percent k : Z) :
  0 <= capacity * percent < 2 ^ 53 -> 0 <= k < 64 ->
  bind (size_t_of_double
          (double_div
             (double_div (double_of_size_t (wrap (capacity * percent)))
                one_hundred)
             (double_of_size_t (2 ^ k))))
    (fun r => Return (MAX2 r 1))
  = Return (spec_floor capacity percent (2 ^ k)).
Proof.
  intros HW Hk.
  rewrite wrap_small
    by (unfold size_t_modulus; split; [lia|];
        apply Z.lt_trans with (2 ^ 53); [lia|reflexivity]).
  unfold one_hundred. rewrite (percent_count_exact _ k HW Hk). cbn [bind].
  rewrite MAX2_max, Z.max_comm. unfold spec_floor.
  rewrite (Qfloor_comp
             (inject_Z (capacity * percent) / 100 / inject_Z (2 ^ k))
             (inject_Z capacity * inject_Z percent / 100 / inject_Z (2 ^ k)))
    by (rewrite inject_Z_mult; reflexivity).
  reflexivity.
Qed.

Lemma calculate_minimal_medium_exact (g : Globals) (this : Balancer) :
  globals_ok g -> page_sizes_ok g ->
  0 <= heap_capacity g * ZMinPageCachePercent g < 2 ^ 53 ->
  calculate_minimal_medium g this
  = Return (if _before_relocation this
            then Z.max (_medium_selected_to this)
                   (spec_floor (heap_capacity g) (ZMinPageCachePercent g)
                      (ZPageSizeMedium g))
            else spec_floor (heap_capacity g) (ZMinPageCachePercent g)
                   (ZPageSizeMedium g)).
Proof.
  intros Hg Hd HW.
  destruct (medium_size_shift g Hg Hd) as (k & Hk & E).
  pose proof (percent_count_spec _ _ k HW Hk) as H.
  unfold calculate_minimal_medium. rewrite E.
  destruct (size_t_of_double _) as [r|]; [|discriminate H].
  cbn [bind] in *. injection H as H. rewrite H, MAX2_max.
  destruct (_before_relocation this); reflexivity.
Qed.

Lemma calculate_minimal_small_exact (g : Globals) (this : Balancer) :
  globals_ok g -> page_sizes_ok g ->
  0 <= heap_capacity g * ZMinPageCachePercent g < 2 ^ 53 ->
  calculate_minimal_small g this
  = Return (if _before_relocation this
            then Z.max (_small_selected_to this)
                   (spec_floor (heap_capacity g) (ZMinPageCachePercent g)
                      (ZPageSizeSmall g))
            else spec_floor (heap_capacity g) (ZMinPageCachePercent g)
                   (ZPageSizeSmall g)).
Proof.
  intros Hg Hd HW.
  destruct (small_size_shift g Hg Hd) as (k & Hk & E).
  assert (Hk' : 0 <= k < 64) by lia.
  pose proof (percent_count_spec _ _ k HW Hk') as H.
  unfold calculate_minimal_small. rewrite E.
  destruct (size_t_of_double _) as [r|]; [|discriminate H].
  cbn [bind] in *. injection H as H. rewrite H, MAX2_max.
  destruct (_before_relocation this); reflexivity.
Qed.

(** ** The optimal pair *)

(** The optimal medium pages fit in the cache: the predicted ratio is at
    most one, the cached bytes convert exactly and the division by the page
    size is exact. *)
Lemma calculate_optimal_medium_fits (g : Globals) (this : Balancer) :
  globals_ok g -> page_sizes_ok g -> medium_rate_finite g -> cache_ok g this ->
  exists om,
    calculate_optimal_medium g this = Return om
    /\ 0 <= om
    /\ ZPageSizeMedium g * om <= cache_bytes g this.
Proof.
  intros Hg Hd Hfin Hc. unfold calculate_optimal_medium.
  pose proof (available_small_nonneg g this Hc) as Hs.
  pose proof (available_medium_nonneg g this Hc) as Hm.
  pose proof (small_size_positive g Hg) as HS.
  destruct (_before_relocation this).
  - exists (_available_medium this). split; [reflexivity|].
    split; [exact Hm|]. unfold cache_bytes. nia.
  - rewrite (available_exact g this Hg Hc).
    destruct (medium_size_shift g Hg Hd) as (k & Hk & E). rewrite E.
    destruct (predicted_ratio_bounds (medium_alloc_rate g) (small_alloc_rate g))
      as (r & Er & Hr & _).
    + split; [apply (medium_rate_nonneg g Hg)|exact Hfin].
    + apply (small_rate_nonneg g Hg).
    + unfold ZStatMediumPageAllocRate_avg, ZStatSmallPageAllocRate_avg.
      cbv zeta. rewrite Er.
      apply scaled_count_bound.
      * split; [apply (cache_bytes_nonneg g this Hg Hc)
               |apply (cache_bytes_fit g this Hc)].
      * apply cache_bytes_is_binary64; assumption.
      * exact Hk.
      * exact Hr.
Qed.

(** Whenever the optimal medium count is computed, its pages fit in the
    cache: a medium rate beyond the doubles gives no count at all. *)
Lemma calculate_optimal_medium_bounded (g : Globals) (this : Balancer) (om : Z) :
  globals_ok g -> page_sizes_ok g -> cache_ok g this ->
  calculate_optimal_medium g this = Return om ->
  0 <= om /\ ZPageSizeMedium g * om <= cache_bytes g this.
Proof.
  intros Hg Hd Hc Hom. unfold calculate_optimal_medium in Hom.
  pose proof (available_medium_nonneg g this Hc) as Hm.
  pose proof (available_small_nonneg g this Hc) as Hs.
  pose proof (small_size_positive g Hg) as HS.
  destruct (_before_relocation this).
  - injection Hom as <-. split; [exact Hm|]. unfold cache_bytes. nia.
  - rewrite (available_exact g this Hg Hc) in Hom.
    destruct (medium_size_shift g Hg Hd) as (k & Hk & E). rewrite E in *.
    unfold ZStatMediumPageAllocRate_avg, ZStatSmallPageAllocRate_avg in Hom.
    cbv zeta in Hom.
    destruct (predicted_ratio_cases (medium_alloc_rate g) (small_alloc_rate g)
                (medium_rate_nonneg g Hg) (small_rate_nonneg g Hg))
      as [En|(r & Er & Hr & _)].
    + rewrite En, scaled_count_undefined in Hom. discriminate Hom.
    + rewrite Er in Hom.
      destruct (scaled_count_bound (cache_bytes g this) k r)
        as (count & Ec & H0 & Hle).
      * split; [apply (cache_bytes_nonneg g this Hg Hc)
               |apply (cache_bytes_fit g this Hc)].
      * apply cache_bytes_is_binary64; assumption.
      * exact Hk.
      * exact Hr.
      * rewrite Ec in Hom. injection Hom as <-. split; assumption.
Qed.

(** The optimal small count is computed from the optimal medium count. *)
Lemma calculate_optimal_small_medium (g : Globals) (this : Balancer) (os : Z) :
  calculate_optimal_small g this = Return os ->
  exists om, calculate_optimal_medium g this = Return om.
Proof.
  unfold calculate_optimal_small, calculate_optimal_medium. intros Hos.
  destruct (_before_relocation this); [eexists; reflexivity|].
  destruct (size_t_of_double _) as [om|]; [|discriminate Hos].
  exists om. reflexivity.
Qed.

(** With a medium rate of zero the optimal medium count is zero. *)
Lemma calculate_optimal_medium_zero_rate (g : Globals) (this : Balancer) :
  globals_ok g -> cache_ok g this ->
  _before_relocation this = false -> (medium_alloc_rate g == 0)%Q ->
  calculate_optimal_medium g this = Return 0.
Proof.
  intros Hg Hc Hb Hzero. unfold calculate_optimal_medium. rewrite Hb.
  rewrite (available_exact g this Hg Hc).
  destruct (predicted_ratio_zero (medium_alloc_rate g) (small_alloc_rate g)
              Hzero (small_rate_nonneg g Hg)) as (r & Er & Hr).
  unfold ZStatMediumPageAllocRate_avg, ZStatSmallPageAllocRate_avg.
  cbv zeta. rewrite Er.
  apply scaled_count_zero.
  - split; [apply (cache_bytes_nonneg g this Hg Hc)
           |apply (cache_bytes_fit g this Hc)].
  - pose proof (medium_size_range g Hg). lia.
  - exact Hr.
Qed.

Lemma assert_product (g : Globals) (cond : bool) (msg : string) :
  ASSERT g = false -> assert g cond msg = Return tt.
Proof. intros H. unfold assert. rewrite H. reflexivity. Qed.

(** What [calculate_optimal_small] returns, when it does: the small pages
    that take the bytes the optimal medium pages leave. *)
Lemma calculate_optimal_small_value (g : Globals) (this : Balancer) (om os : Z) :
  globals_ok g -> cache_ok g this ->
  calculate_optimal_medium g this = Return om ->
  0 <= om -> ZPageSizeMedium g * om <= cache_bytes g this ->
  calculate_optimal_small g this = Return os ->
  os = (cache_bytes g this - ZPageSizeMedium g * om) / ZPageSizeSmall g
  /\ 0 <= os
  /\ ZPageSizeSmall g * os + ZPageSizeMedium g * om = cache_bytes g this.
Proof.
  intros Hg Hc Hom H0 Hle Hos.
  pose proof (small_size_positive g Hg) as HS.
  pose proof (medium_size_range g Hg) as [HM _].
  pose proof (cache_bytes_fit g this Hc) as Hfit.
  pose proof (small_pages_exact g this om Hg) as Hex.
  assert (Hval : os = (cache_bytes g this - ZPageSizeMedium g * om)
                      / ZPageSizeSmall g).
  { unfold calculate_optimal_small in Hos.
    unfold calculate_optimal_medium in Hom, Hos.
    destruct (_before_relocation this).
    - injection Hom as <-. injection Hos as <-.
      unfold cache_bytes.
      replace (ZPageSizeSmall g * _available_small this
               + ZPageSizeMedium g * _available_medium this
               - ZPageSizeMedium g * _available_medium this)
        with (_available_small this * ZPageSizeSmall g) by ring.
      rewrite Z.div_mul by lia. reflexivity.
    - rewrite Hom in Hos. cbn [bind] in Hos.
      unfold calculate_maximal_small_for_medium in Hos.
      rewrite (available_exact g this Hg Hc) in Hos.
      rewrite (wrap_small (om * ZPageSizeMedium g)) in Hos by nia.
      destruct (assert g _ _); [|discriminate Hos].
      cbn [bind] in Hos. injection Hos as <-.
      rewrite wrap_small by nia.
      replace (om * ZPageSizeMedium g) with (ZPageSizeMedium g * om) by ring.
      reflexivity. }
  split; [exact Hval|]. rewrite <- Hval in Hex.
  split; [|lia]. rewrite Hval. apply Z.div_pos; lia.
Qed.

(** [calculate_optimal_small] returns in a product build, and in a debug
    build as long as the optimal medium pages leave room in the cache. *)
Lemma calculate_optimal_small_returns (g : Globals) (this : Balancer) (om : Z) :
  globals_ok g -> cache_ok g this ->
  calculate_optimal_medium g this = Return om ->
  0 <= om -> ZPageSizeMedium g * om <= cache_bytes g this ->
  ASSERT g = false \/ ZPageSizeMedium g * om < cache_bytes g this ->
  exists os, calculate_optimal_small g this = Return os.
Proof.
  intros Hg Hc Hom H0 Hle Hroom.
  pose proof (cache_bytes_fit g this Hc) as Hfit.
  pose proof (medium_size_range g Hg) as [HM _].
  unfold calculate_optimal_small.
  unfold calculate_optimal_medium in *.
  destruct (_before_relocation this); [eexists; reflexivity|].
  rewrite Hom. cbn [bind]. unfold calculate_maximal_small_for_medium.
  rewrite (available_exact g this Hg Hc).
  rewrite (wrap_small (om * ZPageSizeMedium g)) by nia.
  destruct Hroom as [Hproduct|Hlt].
  - rewrite (assert_product g _ _ Hproduct). eexists. reflexivity.
  - replace (cache_bytes g this >? om * ZPageSizeMedium g) with true
      by (symmetry; apply gtb_true_iff; lia).
    rewrite assert_holds. eexists. reflexivity.
Qed.

(** ** The projection onto the feasible region *)

Lemma exact_division (S x : Z) : 0 < S -> (S | x) -> S * (x / S) = x.
Proof.
  intros HS Hd. symmetry. apply Z.div_exact; [lia|].
  apply Z.mod_divide; [lia|exact Hd].
Qed.

Lemma spec_projection_properties (S M A ms mm os om : Z) :
  0 < S -> 0 < M -> (S | M) -> (S | A) ->
  1 <= ms -> 1 <= mm -> S * ms + M * mm <= A ->
  S * os + M * om = A ->
  let (ts, tm) := spec_projection S M A ms mm os om in
  S * ts + M * tm = A /\ ms <= ts /\ mm <= tm /\ M * tm < A.
Proof.
  intros HS HM HdM HdA Hms Hmm Hfeas Hopt. unfold spec_projection.
  destruct ((om >=? mm) && (os >=? ms)) eqn:E1.
  - apply andb_true_iff in E1. destruct E1 as [E1 E2].
    apply geb_true_iff in E1. apply geb_true_iff in E2.
    repeat split; try lia; nia.
  - destruct (om <? mm) eqn:E2.
    + assert (Hex : S * ((A - M * mm) / S) = A - M * mm).
      { apply exact_division; [exact HS|].
        apply Z.divide_sub_r; [exact HdA|]. apply Z.divide_mul_l. exact HdM. }
      assert (ms <= (A - M * mm) / S).
      { apply Z.div_le_lower_bound; lia. }
      repeat split; try lia; nia.
    + set (tm := (A - S * ms) / M).
      assert (Htm : mm <= tm).
      { apply Z.div_le_lower_bound; lia. }
      assert (Hle : M * tm <= A - S * ms).
      { apply Z.mul_div_le. exact HM. }
      assert (Hex : S * ((A - M * tm) / S) = A - M * tm).
      { apply exact_division; [exact HS|].
        apply Z.divide_sub_r; [exact HdA|]. apply Z.divide_mul_l. exact HdM. }
      assert (ms <= (A - M * tm) / S).
      { apply Z.div_le_lower_bound; lia. }
      repeat split; try lia; nia.
Qed.

Lemma calculate_maximal_small_for_medium_target
    (g : Globals) (this : Balancer) (m x : Z) :
  calculate_maximal_small_for_medium g (set_target_medium this m) x
  = calculate_maximal_small_for_medium g this x.
Proof. reflexivity. Qed.

Lemma available_page_cache_size_targets
    (g : Globals) (this : Balancer) (m x : Z) :
  available_page_cache_size g (set_target_small (set_target_medium this m) x)
  = available_page_cache_size g this.
Proof. reflexivity. Qed.

(** What [determine_balance_necessity] does once the floor fits in the
    cache and the optimal pair is computed: the pair passes its
    [guarantee], and the targets are the projection of the
    specification. *)
Lemma determine_balance_necessity_projection
    (g : Globals) (this : Balancer) (ms mm om os : Z) :
  globals_ok g -> cache_ok g this ->
  calculate_minimal_small g this = Return ms ->
  calculate_minimal_medium g this = Return mm ->
  ZPageSizeSmall g * ms + ZPageSizeMedium g * mm <= cache_bytes g this ->
  calculate_optimal_medium g this = Return om ->
  0 <= om -> ZPageSizeMedium g * om <= cache_bytes g this ->
  calculate_optimal_small g this = Return os ->
  0 <= os
  /\ ZPageSizeSmall g * os + ZPageSizeMedium g * om = cache_bytes g this
  /\ determine_balance_necessity g this
     = let (ts, tm) := spec_projection (ZPageSizeSmall g) (ZPageSizeMedium g)
                         (cache_bytes g this) ms mm os om in
       Return (negb (tm =? _available_medium this),
               set_target_small (set_target_medium this tm) ts).
Proof.
  intros Hg Hc Hms Hmm Hfeas Hom Hom0 Hfits Hos.
  pose proof (minimal_small_at_least_one g this ms Hg Hms) as Hms1.
  pose proof (minimal_medium_at_least_one g this mm Hg Hmm) as Hmm1.
  pose proof (small_size_positive g Hg) as HS.
  pose proof (medium_size_range g Hg) as [HM HMfit].
  pose proof (medium_size_multiple g Hg) as HdM.
  pose proof (small_divides_cache g this Hg) as HdA.
  pose proof (cache_bytes_fit g this Hc) as Hfit.
  destruct (calculate_optimal_small_value g this om os Hg Hc Hom Hom0 Hfits Hos)
    as (_ & Hos0 & Hsat).
  split; [exact Hos0|]. split; [exact Hsat|].
  pose proof (spec_projection_properties _ _ _ ms mm os om
                HS HM HdM HdA Hms1 Hmm1 Hfeas Hsat) as Hproj.
  unfold determine_balance_necessity.
  rewrite Hmm, Hms. cbn [bind].
  rewrite (available_exact g this Hg Hc).
  rewrite (total_size_exact g ms mm) by (try assumption; lia).
  replace (_ >? cache_bytes g this) with false
    by (symmetry; apply gtb_false_iff; exact Hfeas).
  rewrite Hom, Hos. cbn [bind].
  rewrite (total_size_exact g os om) by (try assumption; lia).
  rewrite Hsat, Z.eqb_refl, guarantee_holds. cbn [bind].
  unfold spec_projection in *.
  destruct ((om >=? mm) && (os >=? ms)) eqn:E1.
  - cbn [bind _target_small _target_medium set_target_small set_target_medium
         _available_medium].
    rewrite available_page_cache_size_targets, (available_exact g this Hg Hc).
    rewrite (total_size_exact g os om) by (try assumption; lia).
    rewrite Hsat, Z.eqb_refl, guarantee_holds. cbn [bind].
    destruct (om =? _available_medium this); reflexivity.
  - destruct (om <? mm) eqn:E2.
    + destruct Hproj as (Heq & Hts & Htm & Hlt).
      cbn [_target_medium set_target_medium].
      rewrite calculate_maximal_small_for_medium_target.
      rewrite (calculate_maximal_small_for_medium_exact g this mm Hg Hc)
        by lia.
      cbn [bind _target_small _target_medium set_target_small set_target_medium
           _available_medium].
      set (ts := (cache_bytes g this - ZPageSizeMedium g * mm) / ZPageSizeSmall g) in *.
      replace (ts >=? ms) with true by (symmetry; apply geb_true_iff; exact Hts).
      rewrite guarantee_holds. cbn [bind _target_small _target_medium
           set_target_small set_target_medium _available_medium].
      rewrite available_page_cache_size_targets, (available_exact g this Hg Hc).
      rewrite (total_size_exact g ts mm) by (try assumption; lia).
      rewrite Heq, Z.eqb_refl, guarantee_holds. cbn [bind].
      destruct (mm =? _available_medium this); reflexivity.
    + assert (E3 : (os <? ms) = true).
      { apply Z.ltb_lt. apply Z.ltb_ge in E2.
        apply andb_false_iff in E1. destruct E1 as [E1|E1].
        - apply geb_false_iff in E1. lia.
        - apply geb_false_iff in E1. exact E1. }
      rewrite E3.
      cbv zeta in Hproj. destruct Hproj as (Heq & Hts & Htm & Hlt).
      rewrite (calculate_maximal_medium_for_small_exact g this ms Hg Hc)
        by nia.
      cbn [bind _target_small _target_medium set_target_small set_target_medium
           _available_medium].
      set (tm := (cache_bytes g this - ZPageSizeSmall g * ms) / ZPageSizeMedium g) in *.
      replace (tm >=? mm) with true by (symmetry; apply geb_true_iff; exact Htm).
      rewrite guarantee_holds. cbn [bind].
      rewrite calculate_maximal_small_for_medium_target.
      rewrite (calculate_maximal_small_for_medium_exact g this tm Hg Hc)
        by lia.
      cbn [bind _target_small _target_medium set_target_small set_target_medium
           _available_medium].
      set (ts := (cache_bytes g this - ZPageSizeMedium g * tm) / ZPageSizeSmall g) in *.
      replace (ts >=? ms) with true by (symmetry; apply geb_true_iff; exact Hts).
      rewrite guarantee_holds. cbn [bind _target_small _target_medium
           set_target_small set_target_medium _available_medium].
      rewrite available_page_cache_size_targets, (available_exact g this Hg Hc).
      rewrite (total_size_exact g ts tm) by (try assumption; lia).
      rewrite Heq, Z.eqb_refl, guarantee_holds. cbn [bind].
      destruct (tm =? _available_medium this); reflexivity.
Qed.

(** The same with the page sizes of the collector, for which the optimal
    medium pages always fit. *)
Lemma determine_balance_necessity_feasible
    (g : Globals) (this : Balancer) (ms mm os : Z) :
  globals_ok g -> page_sizes_ok g -> cache_ok g this ->
  calculate_minimal_small g this = Return ms ->
  calculate_minimal_medium g this = Return mm ->
  ZPageSizeSmall g * ms + ZPageSizeMedium g * mm <= cache_bytes g this ->
  calculate_optimal_small g this = Return os ->
  exists om,
    calculate_optimal_medium g this = Return om
    /\ 0 <= om /\ 0 <= os
    /\ ZPageSizeMedium g * om <= cache_bytes g this
    /\ ZPageSizeSmall g * os + ZPageSizeMedium g * om = cache_bytes g this
    /\ determine_balance_necessity g this
       = let (ts, tm) := spec_projection (ZPageSizeSmall g) (ZPageSizeMedium g)
                           (cache_bytes g this) ms mm os om in
         Return (negb (tm =? _available_medium this),
                 set_target_small (set_target_medium this tm) ts).
Proof.
  intros Hg Hd Hc Hms Hmm Hfeas Hos.
  destruct (calculate_optimal_small_medium g this os Hos) as (om & Hom).
  destruct (calculate_optimal_medium_bounded g this om Hg Hd Hc Hom)
    as (Hom0 & Hfits).
  destruct (determine_balance_necessity_projection g this ms mm om os
              Hg Hc Hms Hmm Hfeas Hom Hom0 Hfits Hos) as (Hos0 & Hsat & Hdet).
  exists om. repeat (split; [assumption|]). exact Hdet.
Qed.

(** The outcome of the solver when the floor fits in the cache. *)
Lemma solver_outcome (g : Globals) (this : Balancer) (ms mm os : Z) :
  globals_ok g -> page_sizes_ok g -> cache_ok g this ->
  calculate_minimal_small g this = Return ms ->
  calculate_minimal_medium g this = Return mm ->
  ZPageSizeSmall g * ms + ZPageSizeMedium g * mm <= cache_bytes g this ->
  calculate_optimal_small g this = Return os ->
  exists ts tm,
    determine_balance_necessity g this
    = Return (negb (tm =? _available_medium this),
              set_target_small (set_target_medium this tm) ts)
    /\ ZPageSizeSmall g * ts + ZPageSizeMedium g * tm = cache_bytes g this
    /\ ms <= ts /\ mm <= tm.
Proof.
  intros Hg Hd Hc Hms Hmm Hfeas Hos.
  destruct (determine_balance_necessity_feasible g this ms mm os
              Hg Hd Hc Hms Hmm Hfeas Hos)
    as (om & _ & _ & _ & _ & Hsat & Hdet).
  pose proof (spec_projection_properties
                (ZPageSizeSmall g) (ZPageSizeMedium g) (cache_bytes g this)
                ms mm os om
                (small_size_positive g Hg)
                (proj1 (medium_size_range g Hg))
                (medium_size_multiple g Hg)
                (small_divides_cache g this Hg)
                (minimal_small_at_least_one g this ms Hg Hms)
                (minimal_medium_at_least_one g this mm Hg Hmm)
                Hfeas Hsat) as Hproj.
  destruct (spec_projection _ _ _ ms mm os om) as [ts tm].
  exists ts, tm. destruct Hproj as (H1 & H2 & H3 & _).
  repeat split; assumption.
Qed.

(** The outcome of the solver when the floor does not fit in the cache. *)
Lemma determine_balance_necessity_infeasible
    (g : Globals) (this : Balancer) (ms mm : Z) :
  globals_ok g -> cache_ok g this ->
  calculate_minimal_small g this = Return ms ->
  calculate_minimal_medium g this = Return mm ->
  ZPageSizeSmall g * ms + ZPageSizeMedium g * mm < size_t_modulus ->
  cache_bytes g this < ZPageSizeSmall g * ms + ZPageSizeMedium g * mm ->
  determine_balance_necessity g this = Return (false, this).
Proof.
  intros Hg Hc Hms Hmm Hfit Hinf.
  pose proof (minimal_small_at_least_one g this ms Hg Hms) as Hms1.
  pose proof (minimal_medium_at_least_one g this mm Hg Hmm) as Hmm1.
  unfold determine_balance_necessity. rewrite Hmm, Hms. cbn [bind].
  rewrite (available_exact g this Hg Hc).
  rewrite (total_size_exact g ms mm); try lia.
  - replace (_ >? cache_bytes g this) with true
      by (symmetry; apply gtb_true_iff; exact Hinf).
    reflexivity.
  - apply (small_size_positive g Hg).
  - apply (medium_size_range g Hg).
Qed.

(** A solver that returns with a floor that fits has computed the optimal
    small count. *)
Lemma determine_balance_necessity_optimal_small
    (g : Globals) (this : Balancer) (ms mm : Z)
    (result : bool * Balancer) :
  globals_ok g -> cache_ok g this ->
  calculate_minimal_small g this = Return ms ->
  calculate_minimal_medium g this = Return mm ->
  ZPageSizeSmall g * ms + ZPageSizeMedium g * mm <= cache_bytes g this ->
  determine_balance_necessity g this = Return result ->
  exists os, calculate_optimal_small g this = Return os.
Proof.
  intros Hg Hc Hms Hmm Hfeas Hdet.
  pose proof (minimal_small_at_least_one g this ms Hg Hms) as Hms1.
  pose proof (minimal_medium_at_least_one g this mm Hg Hmm) as Hmm1.
  pose proof (cache_bytes_fit g this Hc) as Hfit.
  unfold determine_balance_necessity in Hdet.
  rewrite Hmm, Hms in Hdet. cbn [bind] in Hdet.
  rewrite (available_exact g this Hg Hc) in Hdet.
  rewrite (total_size_exact g ms mm) in Hdet;
    [|apply (small_size_positive g Hg)|apply (medium_size_range g Hg)
     |lia|lia|lia].
  replace (_ >? cache_bytes g this) with false in Hdet
    by (symmetry; apply gtb_false_iff; exact Hfeas).
  destruct (calculate_optimal_medium g this); [|discriminate Hdet].
  cbn [bind] in Hdet.
  destruct (calculate_optimal_small g this) as [os|]; [|discriminate Hdet].
  exists os. reflexivity.
Qed.

(** With equal byte sizes, the medium counts agree exactly when the small
    counts do, and at most one of the two counts grows. *)
Lemma equal_bytes_counts (S M ts tm a_s a_m : Z) :
  0 < S -> 0 < M ->
  S * ts + M * tm = S * a_s + M * a_m ->
  (tm = a_m <-> ts = a_s)
  /\ (a_s < ts -> tm < a_m)
  /\ (a_m < tm -> ts < a_s).
Proof. intros HS HM H. repeat split; intros; nia. Qed.

(** ** Properties of the solver *)

(** C1.  Capacity preservation: when the floor [(min_s, min_m)] fits in the
    available bytes and the optimal pair [(os, om)] is computed,
    [determine_balance_necessity] returns, its targets are the projection
    of the optimal pair on the floor (one of the three cases of
    [spec_projection]), and the targets take exactly the available
    bytes. *)
Theorem capacity_preservation
    (g : Globals) (this : Balancer) (min_s min_m om os : Z) :
  globals_ok g -> page_sizes_ok g -> cache_ok g this ->
  calculate_minimal_small g this = Return min_s ->
  calculate_minimal_medium g this = Return min_m ->
  ZPageSizeSmall g * min_s + ZPageSizeMedium g * min_m
  <= ZPageSizeSmall g * _available_small this
     + ZPageSizeMedium g * _available_medium this ->
  calculate_optimal_medium g this = Return om ->
  calculate_optimal_small g this = Return os ->
  exists necessary this',
    determine_balance_necessity g this = Return (necessary, this')
    /\ (_target_small this', _target_medium this')
       = spec_projection (ZPageSizeSmall g) (ZPageSizeMedium g)
           (ZPageSizeSmall g * _available_small this
            + ZPageSizeMedium g * _available_medium this)
           min_s min_m os om
    /\ _available_small this' = _available_small this
    /\ _available_medium this' = _available_medium this
    /\ ZPageSizeSmall g * _target_small this'
       + ZPageSizeMedium g * _target_medium this'
       = ZPageSizeSmall g * _available_small this
         + ZPageSizeMedium g * _available_medium this.
Proof.
  intros Hg Hd Hc Hms Hmm Hfeas Hom Hos.
  destruct (determine_balance_necessity_feasible g this min_s min_m os
              Hg Hd Hc Hms Hmm Hfeas Hos)
    as (om' & Hom' & _ & _ & _ & Hsat & Hdet).
  rewrite Hom in Hom'. injection Hom' as <-.
  pose proof (spec_projection_properties
                (ZPageSizeSmall g) (ZPageSizeMedium g) (cache_bytes g this)
                min_s min_m os om
                (small_size_positive g Hg)
                (proj1 (medium_size_range g Hg))
                (medium_size_multiple g Hg)
                (small_divides_cache g this Hg)
                (minimal_small_at_least_one g this min_s Hg Hms)
                (minimal_medium_at_least_one g this min_m Hg Hmm)
                Hfeas Hsat) as Hproj.
  fold (cache_bytes g this).
  destruct (spec_projection _ _ (cache_bytes g this) min_s min_m os om)
    as [ts tm] eqn:Hp.
  exists (negb (tm =? _available_medium this)),
    (set_target_small (set_target_medium this tm) ts).
  destruct Hproj as (Heq & _).
  repeat split; try assumption; try reflexivity.
Qed.

(** C2.  Reservation floor: when the floor fits in the available bytes and
    the optimal pair is computed, [determine_balance_necessity] returns
    (none of its [guarantee]s fails) and both targets are at least their
    floor. *)
Theorem reservation_floor_honoured
    (g : Globals) (this : Balancer)
    (minimal_small minimal_medium optimal_small : Z) :
  globals_ok g -> page_sizes_ok g -> cache_ok g this ->
  calculate_minimal_small g this = Return minimal_small ->
  calculate_minimal_medium g this = Return minimal_medium ->
  ZPageSizeSmall g * minimal_small + ZPageSizeMedium g * minimal_medium
  <= cache_bytes g this ->
  calculate_optimal_small g this = Return optimal_small ->
  exists necessary this',
    determine_balance_necessity g this = Return (necessary, this')
    /\ minimal_small <= _target_small this'
    /\ minimal_medium <= _target_medium this'.
Proof.
  intros Hg Hd Hc Hms Hmm Hfeas Hos.
  destruct (solver_outcome g this _ _ _ Hg Hd Hc Hms Hmm Hfeas Hos)
    as (ts & tm & Hdet & _ & Hts & Htm).
  exists (negb (tm =? _available_medium this)),
    (set_target_small (set_target_medium this tm) ts).
  repeat split; assumption.
Qed.

(** C3.  No-op conditions: when the optimal pair is computed, the solver
    answers "no balance" exactly when the floor does not fit in the
    available bytes or the computed medium target is the available medium
    count; with equal byte sizes the medium counts agree exactly when the
    small counts do, so that a feasible solver answers "no balance" exactly
    when nothing moves. *)
Theorem no_op_conditions
    (g : Globals) (this : Balancer)
    (minimal_small minimal_medium optimal_small : Z) :
  globals_ok g -> page_sizes_ok g -> cache_ok g this ->
  calculate_minimal_small g this = Return minimal_small ->
  calculate_minimal_medium g this = Return minimal_medium ->
  ZPageSizeSmall g * minimal_small + ZPageSizeMedium g * minimal_medium
  < size_t_modulus ->
  calculate_optimal_small g this = Return optimal_small ->
  exists necessary this',
    determine_balance_necessity g this = Return (necessary, this')
    /\ (necessary = false <->
        (ZPageSizeSmall g * minimal_small + ZPageSizeMedium g * minimal_medium
         > cache_bytes g this
         \/ _target_medium this' = _available_medium this))
    /\ (ZPageSizeSmall g * _target_small this'
        + ZPageSizeMedium g * _target_medium this' = cache_bytes g this ->
        (_target_medium this' = _available_medium this
         <-> _target_small this' = _available_small this))
    /\ (ZPageSizeSmall g * minimal_small + ZPageSizeMedium g * minimal_medium
        <= cache_bytes g this ->
        (necessary = false <->
         _target_small this' = _available_small this
         /\ _target_medium this' = _available_medium this)).
Proof.
  intros Hg Hd Hc Hms Hmm Hfit Hos.
  pose proof (small_size_positive g Hg) as HS.
  pose proof (medium_size_range g Hg) as [HM _].
  destruct (Z_le_gt_dec
              (ZPageSizeSmall g * minimal_small
               + ZPageSizeMedium g * minimal_medium)
              (cache_bytes g this)) as [Hfeas|Hinf].
  - destruct (solver_outcome g this _ _ _ Hg Hd Hc Hms Hmm Hfeas Hos)
      as (ts & tm & Hdet & Heq & _ & _).
    exists (negb (tm =? _available_medium this)),
      (set_target_small (set_target_medium this tm) ts).
    cbn [_target_small _target_medium set_target_small set_target_medium
         _available_small _available_medium].
    destruct (equal_bytes_counts _ _ ts tm _ _ HS HM Heq) as (Hiff & _ & _).
    split; [exact Hdet|].
    destruct (Z.eqb_spec tm (_available_medium this)) as [E|E]; cbn [negb].
    + repeat split; intros; try tauto; try apply Hiff; auto.
    + repeat split; intros; try tauto; try discriminate; try lia.
  - exists false, this.
    split.
    + apply (determine_balance_necessity_infeasible g this _ _ Hg Hc Hms Hmm);
        [exact Hfit|lia].
    + repeat split; intros; try tauto; try lia;
        unfold cache_bytes in *; nia.
Qed.

(** C4.  Before relocation the optimal counts are the available counts, and
    each floor is the larger of the selected to-space count and of the
    percentage rule [max(1, floor(capacity * percent / 100 / size))].  The
    rule is computed in binary64: it is the exact one as long as
    [capacity * percent] is below [2^53]. *)
Theorem before_relocation_behaviour (g : Globals) (this : Balancer) :
  globals_ok g -> page_sizes_ok g ->
  0 <= heap_capacity g * ZMinPageCachePercent g < 2 ^ 53 ->
  _before_relocation this = true ->
  calculate_optimal_medium g this = Return (_available_medium this)
  /\ calculate_optimal_small g this = Return (_available_small this)
  /\ exists minimal_small minimal_medium,
       calculate_minimal_small g this = Return minimal_small
       /\ calculate_minimal_medium g this = Return minimal_medium
       /\ minimal_small
          = Z.max (_small_selected_to this)
              (spec_floor (heap_capacity g) (ZMinPageCachePercent g)
                 (ZPageSizeSmall g))
       /\ minimal_medium
          = Z.max (_medium_selected_to this)
              (spec_floor (heap_capacity g) (ZMinPageCachePercent g)
                 (ZPageSizeMedium g))
       /\ _small_selected_to this <= minimal_small
       /\ _medium_selected_to this <= minimal_medium
       /\ spec_floor (heap_capacity g) (ZMinPageCachePercent g)
            (ZPageSizeSmall g) <= minimal_small
       /\ spec_floor (heap_capacity g) (ZMinPageCachePercent g)
            (ZPageSizeMedium g) <= minimal_medium.
Proof.
  intros Hg Hd Hfit Hb.
  unfold calculate_optimal_medium, calculate_optimal_small. rewrite Hb.
  split; [reflexivity|split; [reflexivity|]].
  eexists. eexists.
  rewrite (calculate_minimal_small_exact g this Hg Hd Hfit).
  rewrite (calculate_minimal_medium_exact g this Hg Hd Hfit).
  rewrite Hb.
  repeat split; lia.
Qed.


End SolverFacts.

(** ** Properties of the flow *)

Section FlowFacts.

Context {ZPage World : Type} {C : Collaborators ZPage World}.

Lemma assert_true (g : Globals) (cond : bool) (msg : string) :
  ASSERT g = false \/ cond = true -> assert g cond msg = Return tt.
Proof.
  unfold assert. intros [H|H]; rewrite H.
  - reflexivity.
  - rewrite andb_false_r. reflexivity.
Qed.

Lemma need_to_balance_cold (g : Globals) (m : Machine ZPage World)
    (this : ZPageCacheBalance ZPage) :
  is_warm g = false -> need_to_balance g (m, this) = Return (false, (m, this)).
Proof. intros H. unfold need_to_balance. rewrite H. reflexivity. Qed.

Lemma need_to_balance_warm (g : Globals) (m : Machine ZPage World)
    (this : ZPageCacheBalance ZPage) :
  is_warm g = true ->
  need_to_balance g (m, this)
  = bind (determine_balance_necessity g (initialize_page_count (lock m) this))
      (fun r =>
         let (necessary, this) := r in
         if necessary then
           let this := calculate_loaner_and_debtor this in
           let (w, loaned) := loan_pages (_loaner_count this) (_loaner_type this)
                                (world (lock m)) in
           Return (true,
                   (unlock (call (LoanPages (_loaner_count this)
                                            (_loaner_type this))
                                 (fun _ => w) (lock m)),
                    set_loaner_list this (_loaner_list this ++ loaned)))
         else Return (false, (unlock (lock m), this))).
Proof. intros H. unfold need_to_balance. rewrite H. reflexivity. Qed.

Lemma initialize_page_count_lock (m : Machine ZPage World)
    (this : ZPageCacheBalance ZPage) :
  initialize_page_count (lock m) this = initialize_page_count m this.
Proof. reflexivity. Qed.

(** C6.  After the page counts are sampled, and when the optimal pair is
    computed, the solver returns, and exactly one of these holds of its
    targets: the small target exceeds the
    available small count, the medium target exceeds the available medium
    count, or the targets are the available counts.  When balancing is
    necessary and the small count grows, [calculate_loaner_and_debtor] makes
    the small class the debtor, of the small growth, and the medium class
    the loaner, of the medium decrease; and the other way round when the
    medium count grows. *)
Theorem exactly_one_class_grows
    (g : Globals) (m : Machine ZPage World) (this : ZPageCacheBalance ZPage)
    (minimal_small minimal_medium optimal_small : Z) :
  let sampled := initialize_page_count m this in
  globals_ok g -> page_sizes_ok g -> cache_ok g sampled ->
  calculate_minimal_small g sampled = Return minimal_small ->
  calculate_minimal_medium g sampled = Return minimal_medium ->
  ZPageSizeSmall g * minimal_small + ZPageSizeMedium g * minimal_medium
  < size_t_modulus ->
  calculate_optimal_small g sampled = Return optimal_small ->
  exists necessary this',
    determine_balance_necessity g sampled = Return (necessary, this')
    /\ _available_small this' = small_page_count (world m)
    /\ _available_medium this' = medium_page_count (world m)
    /\ exactly_one
         (_target_small this' > _available_small this')
         (_target_medium this' > _available_medium this')
         (_target_small this' = _available_small this'
          /\ _target_medium this' = _available_medium this')
    /\ (necessary = true ->
        _target_small this' > _available_small this' ->
        let this'' := calculate_loaner_and_debtor this' in
        _debtor_type this'' = ZPageTypeSmall
        /\ _debtor_count this'' = _target_small this' - _available_small this'
        /\ _loaner_type this'' = ZPageTypeMedium
        /\ _loaner_count this''
           = _available_medium this' - _target_medium this')
    /\ (necessary = true ->
        _target_medium this' > _available_medium this' ->
        let this'' := calculate_loaner_and_debtor this' in
        _debtor_type this'' = ZPageTypeMedium
        /\ _debtor_count this''
           = _target_medium this' - _available_medium this'
        /\ _loaner_type this'' = ZPageTypeSmall
        /\ _loaner_count this'' = _available_small this' - _target_small this').
Proof.
  intros sampled Hg Hd Hc Hms Hmm Hfit Hos.
  pose proof (small_size_positive g Hg) as HS.
  pose proof (medium_size_range g Hg) as [HM _].
  pose proof (minimal_small_at_least_one g sampled _ Hg Hms) as Hms1.
  pose proof (minimal_medium_at_least_one g sampled _ Hg Hmm) as Hmm1.
  pose proof (cache_bytes_fit g sampled Hc) as HAfit.
  pose proof (available_small_nonneg g sampled Hc) as Has.
  pose proof (available_medium_nonneg g sampled Hc) as Ham.
  destruct (Z_le_gt_dec
              (ZPageSizeSmall g * minimal_small
               + ZPageSizeMedium g * minimal_medium)
              (cache_bytes g sampled)) as [Hfeas|Hinf].
  - destruct (solver_outcome g sampled _ _ _ Hg Hd Hc Hms Hmm Hfeas Hos)
      as (ts & tm & Hdet & Heq & Hts & Htm).
    exists (negb (tm =? _available_medium sampled)),
      (set_target_small (set_target_medium sampled tm) ts).
    split; [exact Hdet|].
    unfold calculate_loaner_and_debtor.
    cbn [_target_small _target_medium set_target_small set_target_medium
         _available_small _available_medium sampled initialize_page_count
         set_available] in *.
    unfold cache_bytes in *.
    cbn [_available_small _available_medium sampled initialize_page_count
         set_available set_target_small set_target_medium] in *.
    set (a_s := small_page_count (world m)) in *.
    set (a_m := medium_page_count (world m)) in *.
    destruct (equal_bytes_counts _ _ ts tm a_s a_m HS HM Heq)
      as (Hiff & Hsmall & Hmedium).
    split; [reflexivity|]. split; [reflexivity|].
    split; [|split].
    + unfold exactly_one.
      destruct (Z_lt_le_dec a_s ts) as [H1|H1];
        [|destruct (Z_lt_le_dec a_m tm) as [H2|H2]].
      * left. specialize (Hsmall H1). lia.
      * right. left. specialize (Hmedium H2). lia.
      * right. right. assert (tm = a_m) by nia. lia.
    + intros _ Hgrow.
      replace (ts >? a_s) with true by (symmetry; apply gtb_true_iff; lia).
      cbv zeta.
      cbn [_debtor_type _debtor_count _loaner_type _loaner_count
           set_debtor set_loaner _target_small _target_medium
           _available_small _available_medium sampled initialize_page_count
           set_available set_target_small set_target_medium].
      fold a_s a_m.
      assert (tm < a_m) by (apply Hsmall; lia).
      rewrite !wrap_small by nia.
      repeat split; reflexivity.
    + intros _ Hgrow.
      assert (ts < a_s) by (apply Hmedium; lia).
      replace (ts >? a_s) with false by (symmetry; apply gtb_false_iff; lia).
      replace (tm >? a_m) with true by (symmetry; apply gtb_true_iff; lia).
      cbv zeta.
      cbn [_debtor_type _debtor_count _loaner_type _loaner_count
           set_debtor set_loaner _target_small _target_medium
           _available_small _available_medium sampled initialize_page_count
           set_available set_target_small set_target_medium].
      fold a_s a_m.
      rewrite !wrap_small by nia.
      repeat split; reflexivity.
  - exists false, sampled.
    split.
    + apply (determine_balance_necessity_infeasible g sampled _ _
               Hg Hc Hms Hmm Hfit). lia.
    + split; [reflexivity|]. split; [reflexivity|].
      split; [|split; intros H; discriminate H].
      unfold exactly_one. right. right.
      cbn [_target_small _target_medium _available_small _available_medium
           sampled initialize_page_count set_available set_target_small
           set_target_medium].
      lia.
Qed.

(** C8.  Cold cycle: when the GC is not warm, [need_to_balance] answers
    "no" at once and [balance] returns with the collaborators' state, the
    history of calls (no lock taken, no page loaned, unmapped, freed,
    created, mapped or published) and the balancer object all unchanged,
    whatever the cache holds. *)
Theorem cold_cycle_no_op
    (g : Globals) (m : Machine ZPage World) (this : ZPageCacheBalance ZPage) :
  is_warm g = false ->
  need_to_balance g (m, this) = Return (false, (m, this))
  /\ (ASSERT g = false
      \/ (ZBalancePageCache g = true /\ is_ConcurrentGC_thread g = true) ->
      balance g (m, this) = Return (m, this)).
Proof.
  intros Hcold. split.
  - apply need_to_balance_cold. exact Hcold.
  - intros Hpre. unfold balance.
    rewrite !assert_true by tauto. cbn [bind].
    rewrite (need_to_balance_cold g m this Hcold). reflexivity.
Qed.

(** C10.  Tiny caches never balance: when the cached bytes are fewer than
    one small page plus one medium page, the floor (at least one page of
    each class, whatever the percentage) does not fit, the solver answers
    "no balance" and leaves the targets at the available counts, and
    [balance] takes and releases the lock without any other call. *)
Theorem tiny_cache_never_balances
    (g : Globals) (m : Machine ZPage World) (this : ZPageCacheBalance ZPage)
    (minimal_small minimal_medium : Z) :
  let sampled := initialize_page_count m this in
  globals_ok g -> cache_ok g sampled ->
  calculate_minimal_small g sampled = Return minimal_small ->
  calculate_minimal_medium g sampled = Return minimal_medium ->
  ZPageSizeSmall g * minimal_small + ZPageSizeMedium g * minimal_medium
  < size_t_modulus ->
  cache_bytes g sampled < ZPageSizeSmall g + ZPageSizeMedium g ->
  (calculate_total_size g minimal_small minimal_medium
     >? available_page_cache_size g sampled) = true
  /\ determine_balance_necessity g sampled = Return (false, sampled)
  /\ (is_warm g = true ->
      need_to_balance g (m, this) = Return (false, (unlock (lock m), sampled)))
  /\ (is_warm g = true ->
      ASSERT g = false
      \/ (ZBalancePageCache g = true /\ is_ConcurrentGC_thread g = true) ->
      balance g (m, this) = Return (unlock (lock m), sampled)).
Proof.
  intros sampled Hg Hc Hms Hmm Hfit Htiny.
  pose proof (small_size_positive g Hg) as HS.
  pose proof (medium_size_range g Hg) as [HM _].
  pose proof (minimal_small_at_least_one g sampled _ Hg Hms) as Hms1.
  pose proof (minimal_medium_at_least_one g sampled _ Hg Hmm) as Hmm1.
  assert (Hinf : cache_bytes g sampled
                 < ZPageSizeSmall g * minimal_small
                   + ZPageSizeMedium g * minimal_medium) by nia.
  pose proof (determine_balance_necessity_infeasible g sampled _ _
                Hg Hc Hms Hmm Hfit Hinf) as Hdet.
  assert (Hneed : is_warm g = true ->
                  need_to_balance g (m, this)
                  = Return (false, (unlock (lock m), sampled))).
  { intros Hwarm. rewrite (need_to_balance_warm g m this Hwarm).
    rewrite initialize_page_count_lock. fold sampled. rewrite Hdet.
    reflexivity. }
  split; [|split; [exact Hdet|split; [exact Hneed|]]].
  - rewrite (available_exact g sampled Hg Hc).
    rewrite (total_size_exact g _ _ HS HM) by lia.
    apply gtb_true_iff. exact Hinf.
  - intros Hwarm Hpre. unfold balance.
    rewrite !assert_true by tauto. cbn [bind].
    rewrite (Hneed Hwarm). reflexivity.
Qed.

End FlowFacts.

(** ** Scenarios *)

(** C7.  Rate-driven shrink of small: with pages of 2 MiB and 32 MiB, a
    cache of 8640 small pages and no medium page, after relocation, floors
    of 800 small and 50 medium pages and allocation rates of 200 MiB/s
    (small) and 1 MiB/s (medium), the solver sets the targets to 7840 small
    and 50 medium pages and answers that balancing is necessary. *)
Theorem rate_driven_shrink_of_small
    {ZPage : Type} (g : Globals) (this : ZPageCacheBalance ZPage) :
  ZPageSizeSmall g = 2 * MiB -> ZPageSizeMedium g = 32 * MiB ->
  small_alloc_rate g = inject_Z (200 * MiB) ->
  medium_alloc_rate g = inject_Z (1 * MiB) ->
  _before_relocation this = false ->
  _available_small this = 8640 -> _available_medium this = 0 ->
  calculate_minimal_small g this = Return 800 ->
  calculate_minimal_medium g this = Return 50 ->
  exists this',
    determine_balance_necessity g this = Return (true, this')
    /\ _target_small this' = 7840
    /\ _target_medium this' = 50.
Proof.
  intros HS HM Hsr Hmr Hb Has Ham Hms Hmm.
  assert (Hg : globals_ok g).
  { constructor; rewrite ?HS, ?HM, ?Hsr, ?Hmr.
    - reflexivity.
    - exists 16. reflexivity.
    - split; reflexivity.
    - discriminate.
    - discriminate. }
  assert (HA : cache_bytes g this = 17280 * MiB).
  { unfold cache_bytes. rewrite HS, HM, Has, Ham. reflexivity. }
  assert (Hc : cache_ok g this).
  { constructor; rewrite ?HA, ?Has, ?Ham; [discriminate|discriminate|reflexivity]. }
  assert (Hfeas : ZPageSizeSmall g * 800 + ZPageSizeMedium g * 50
                  <= cache_bytes g this).
  { rewrite HA, HS, HM. discriminate. }
  assert (Hom : calculate_optimal_medium g this = Return 2).
  { unfold calculate_optimal_medium. rewrite Hb.
    rewrite (available_exact g this Hg Hc), HA, HM.
    unfold ZStatMediumPageAllocRate_avg, ZStatSmallPageAllocRate_avg.
    rewrite Hsr, Hmr. vm_compute. reflexivity. }
  assert (Hos : calculate_optimal_small g this = Return 8608).
  { unfold calculate_optimal_small. rewrite Hb, Hom. cbn [bind].
    rewrite (calculate_maximal_small_for_medium_exact g this 2 Hg Hc).
    - rewrite HA, HS, HM. reflexivity.
    - discriminate.
    - rewrite HA, HM. reflexivity. }
  destruct (determine_balance_necessity_projection g this 800 50 2 8608
              Hg Hc Hms Hmm Hfeas Hom) as (_ & _ & Hdet).
  - discriminate.
  - rewrite HA, HM. discriminate.
  - exact Hos.
  - rewrite HA, HS, HM, Ham in Hdet.
    eexists. split; [exact Hdet|]. split; reflexivity.
Qed.

(** ** The theorems at the scenarios *)

Ltac scenario_globals_ok :=
  constructor;
  [ reflexivity
  | exists 16; reflexivity
  | split; reflexivity
  | discriminate
  | discriminate ].

Ltac scenario_page_sizes_ok :=
  constructor;
  [ exists 21; split; [discriminate|reflexivity]
  | exists 25; split; [discriminate|reflexivity] ].

Ltac scenario_medium_rate_finite := vm_compute; discriminate.

Ltac scenario_cache_ok :=
  constructor; vm_compute; first [ reflexivity | discriminate ].

Ltac by_evaluation :=
  vm_compute; first [ reflexivity | discriminate | tauto ].

Lemma capacity_preservation_witness :
  exists necessary this',
    determine_balance_necessity (scenario_globals 8 true true)
      (scenario_balancer false 0 0 8640 0) = Return (necessary, this')
    /\ 2 * MiB * _target_small this' + 32 * MiB * _target_medium this'
       = 2 * MiB * 8640 + 32 * MiB * 0.
Proof.
  destruct (capacity_preservation (scenario_globals 8 true true)
              (scenario_balancer false 0 0 8640 0) 800 50 2 8608)
    as (necessary & this' & Hdet & _ & _ & _ & Heq).
  - scenario_globals_ok.
  - scenario_page_sizes_ok.
  - scenario_cache_ok.
  - by_evaluation.
  - by_evaluation.
  - by_evaluation.
  - by_evaluation.
  - by_evaluation.
  - exists necessary, this'. split; [exact Hdet|exact Heq].
Defined.

Lemma reservation_floor_honoured_witness :
  exists necessary this',
    determine_balance_necessity (scenario_globals 8 true true)
      (scenario_balancer false 0 0 8640 0) = Return (necessary, this')
    /\ 800 <= _target_small this'
    /\ 50 <= _target_medium this'.
Proof.
  apply (reservation_floor_honoured (scenario_globals 8 true true)
           (scenario_balancer false 0 0 8640 0) 800 50 8608).
  - scenario_globals_ok.
  - scenario_page_sizes_ok.
  - scenario_cache_ok.
  - by_evaluation.
  - by_evaluation.
  - by_evaluation.
  - by_evaluation.
Defined.

Lemma no_op_conditions_witness :
  exists necessary this',
    determine_balance_necessity (scenario_globals 8 true true)
      (scenario_balancer false 0 0 1000 30) = Return (necessary, this')
    /\ (necessary = false <->
        (2 * MiB * 800 + 32 * MiB * 50 > 2 * MiB * 1000 + 32 * MiB * 30
         \/ _target_medium this' = 30)).
Proof.
  destruct (no_op_conditions (scenario_globals 8 true true)
              (scenario_balancer false 0 0 1000 30) 800 50 1480)
    as (necessary & this' & Hdet & Hiff & _).
  - scenario_globals_ok.
  - scenario_page_sizes_ok.
  - scenario_cache_ok.
  - by_evaluation.
  - by_evaluation.
  - by_evaluation.
  - by_evaluation.
  - exists necessary, this'. split; [exact Hdet|exact Hiff].
Defined.

Lemma before_relocation_behaviour_witness :
  calculate_optimal_medium (scenario_globals 8 true true)
    (scenario_balancer true 1000 20 8640 0) = Return 0
  /\ calculate_optimal_small (scenario_globals 8 true true)
       (scenario_balancer true 1000 20 8640 0) = Return 8640
  /\ exists minimal_small minimal_medium,
       calculate_minimal_small (scenario_globals 8 true true)
         (scenario_balancer true 1000 20 8640 0) = Return minimal_small
       /\ calculate_minimal_medium (scenario_globals 8 true true)
            (scenario_balancer true 1000 20 8640 0) = Return minimal_medium
       /\ minimal_small = Z.max 1000 (spec_floor (20000 * MiB) 8 (2 * MiB))
       /\ minimal_medium = Z.max 20 (spec_floor (20000 * MiB) 8 (32 * MiB))
       /\ 1000 <= minimal_small
       /\ 20 <= minimal_medium
       /\ spec_floor (20000 * MiB) 8 (2 * MiB) <= minimal_small
       /\ spec_floor (20000 * MiB) 8 (32 * MiB) <= minimal_medium.
Proof.
  apply (before_relocation_behaviour (scenario_globals 8 true true)
           (scenario_balancer true 1000 20 8640 0)).
  - scenario_globals_ok.
  - scenario_page_sizes_ok.
  - split; by_evaluation.
  - reflexivity.
Defined.



Lemma exactly_one_class_grows_witness :
  exists necessary this',
    determine_balance_necessity (scenario_globals 8 true true)
      (initialize_page_count (counting_machine 8640 0)
         (scenario_balancer false 0 0 0 0)) = Return (necessary, this')
    /\ exactly_one
         (_target_small this' > _available_small this')
         (_target_medium this' > _available_medium this')
         (_target_small this' = _available_small this'
          /\ _target_medium this' = _available_medium this')
    /\ _debtor_type (calculate_loaner_and_debtor this') = ZPageTypeMedium
    /\ _debtor_count (calculate_loaner_and_debtor this') = 50
    /\ _loaner_type (calculate_loaner_and_debtor this') = ZPageTypeSmall
    /\ _loaner_count (calculate_loaner_and_debtor this') = 800.
Proof.
  destruct (exactly_one_class_grows (scenario_globals 8 true true)
              (counting_machine 8640 0) (scenario_balancer false 0 0 0 0)
              800 50 8608)
    as (necessary & this' & Hdet & _ & _ & Hone & _ & Hmedium).
  - scenario_globals_ok.
  - scenario_page_sizes_ok.
  - scenario_cache_ok.
  - by_evaluation.
  - by_evaluation.
  - by_evaluation.
  - by_evaluation.
  - exists necessary, this'. split; [exact Hdet|]. split; [exact Hone|].
    assert (E : determine_balance_necessity (scenario_globals 8 true true)
                  (initialize_page_count (counting_machine 8640 0)
                     (scenario_balancer false 0 0 0 0))
                = Return (true,
                          set_target_small
                            (set_target_medium
                               (scenario_balancer false 0 0 8640 0) 50) 7840))
      by (vm_compute; reflexivity).
    rewrite E in Hdet. injection Hdet as <- <-.
    apply (Hmedium eq_refl eq_refl).
Defined.

Lemma rate_driven_shrink_of_small_witness :
  exists this',
    determine_balance_necessity (scenario_globals 8 true true)
      (scenario_balancer false 0 0 8640 0) = Return (true, this')
    /\ _target_small this' = 7840
    /\ _target_medium this' = 50.
Proof.
  apply (rate_driven_shrink_of_small (scenario_globals 8 true true)
           (scenario_balancer false 0 0 8640 0));
    first [ reflexivity | by_evaluation ].
Defined.

Lemma cold_cycle_no_op_witness :
  need_to_balance (scenario_globals 8 true false)
    (counting_machine 8640 0, scenario_balancer false 0 0 0 0)
  = Return (false, (counting_machine 8640 0, scenario_balancer false 0 0 0 0))
  /\ balance (scenario_globals 8 true false)
       (counting_machine 8640 0, scenario_balancer false 0 0 0 0)
     = Return (counting_machine 8640 0, scenario_balancer false 0 0 0 0).
Proof.
  destruct (cold_cycle_no_op (scenario_globals 8 true false)
              (counting_machine 8640 0) (scenario_balancer false 0 0 0 0))
    as (Hneed & Hbalance).
  - reflexivity.
  - split; [exact Hneed|].
    apply Hbalance. right. split; reflexivity.
Defined.


Lemma tiny_cache_never_balances_witness :
  determine_balance_necessity (scenario_globals 0 true true)
    (initialize_page_count (counting_machine 10 0)
       (scenario_balancer false 0 0 0 0))
  = Return (false,
            initialize_page_count (counting_machine 10 0)
              (scenario_balancer false 0 0 0 0))
  /\ balance (scenario_globals 0 true true)
       (counting_machine 10 0, scenario_balancer false 0 0 0 0)
     = Return (unlock (lock (counting_machine 10 0)),
               initialize_page_count (counting_machine 10 0)
                 (scenario_balancer false 0 0 0 0)).
Proof.
  destruct (tiny_cache_never_balances (scenario_globals 0 true true)
              (counting_machine 10 0) (scenario_balancer false 0 0 0 0) 1 1)
    as (_ & Hdet & _ & Hbalance).
  - scenario_globals_ok.
  - scenario_cache_ok.
  - by_evaluation.
  - by_evaluation.
  - by_evaluation.
  - by_evaluation.
  - split; [exact Hdet|].
    apply Hbalance; [reflexivity|]. right. split; reflexivity.
Defined.

(** ** Binary64 at work

    The rounding of the double arithmetic shows in the counts. *)

(** With 83 small pages cached, a small rate of 11 and a medium rate of 296
    bytes per second, the exact quotient is 5 medium pages and the source
    computes 4. *)
Example rounding_lowers_the_optimum :
  calculate_optimal_medium (scenario_globals_with_rates 11 296)
    (scenario_balancer false 0 0 83 0) = Return 4
  /\ spec_optimal_medium (32 * MiB) (2 * MiB * 83) 11 296 = 5.
Proof. split; vm_compute; reflexivity. Qed.

(** One percent of a heap of [100 * 2^57 - 1] bytes: the exact rule gives
    [2^32 - 1] medium pages, the source [2^32]. *)
Example rounding_raises_the_floor :
  calculate_minimal_medium (scenario_globals_with_heap (100 * 2 ^ 57 - 1) 1)
    (scenario_balancer false 0 0 8640 0) = Return (2 ^ 32)
  /\ spec_floor (100 * 2 ^ 57 - 1) 1 (32 * MiB) = 2 ^ 32 - 1.
Proof. split; vm_compute; reflexivity. Qed.

(** The optimal medium count is not monotone in the medium rate: one unit
    in the last place more of medium rate, and one page less. *)
Example rounding_breaks_monotonicity :
  calculate_optimal_medium
    {| ZPageSizeSmall := 2 * MiB; ZPageSizeMedium := 32 * MiB;
       ZMinPageCachePercent := 8; ZBalancePageCache := true; ASSERT := true;
       heap_capacity := 20000 * MiB;
       small_alloc_rate := 242575630;
       medium_alloc_rate := 8139487485047597 # 8388608;
       is_warm := true; is_ConcurrentGC_thread := true |}
    (scenario_balancer false 0 0 4000 0) = Return 200
  /\ calculate_optimal_medium
       {| ZPageSizeSmall := 2 * MiB; ZPageSizeMedium := 32 * MiB;
          ZMinPageCachePercent := 8; ZBalancePageCache := true; ASSERT := true;
          heap_capacity := 20000 * MiB;
          small_alloc_rate := 242575630;
          medium_alloc_rate := 8139487485047598 # 8388608;
          is_warm := true; is_ConcurrentGC_thread := true |}
       (scenario_balancer false 0 0 4000 0) = Return 199.
Proof. split; vm_compute; reflexivity. Qed.

(** The operations of the embedding and those of [SpecFloat] agree on the
    ratios and the scaled counts of these scenarios. *)
Example agreement_with_SpecFloat :
  forallb
    (fun rates : Z * Z =>
       double_eqb (double_of_spec_float
                     (spec_float_ratio (fst rates) (snd rates)))
         (double_ratio (fst rates) (snd rates)))
    [(1 * MiB, 200 * MiB); (296, 11); (11, 296); (2 ^ 60, 0); (0, 5);
     (970302520, 242575630); (2 ^ 50, 0); (2 ^ 50, 1); (3, 7)]
  = true
  /\ forallb
       (fun input : Z * Z * Z =>
          let '(small_pages, medium, small) := input in
          double_eqb
            (double_of_spec_float
               (spec_float_scaled (2 * MiB * small_pages) (32 * MiB)
                  medium small))
            (double_scaled (2 * MiB * small_pages) (32 * MiB) medium small))
       [(8640, 1 * MiB, 200 * MiB); (83, 296, 11); (8640, 2 ^ 60, 0);
        (4000, 970302520, 242575630); (5160, 3 * MiB, 100 * MiB)]
     = true
  /\ double_eqb
       (double_of_spec_float
          (SFdiv 53 1024
             (SFdiv 53 1024 (spec_float_of_Z (100 * 2 ^ 57 - 1))
                (spec_float_of_Z 100))
             (spec_float_of_Z (32 * MiB))))
       (double_div
          (double_div (double_of_size_t (100 * 2 ^ 57 - 1)) one_hundred)
          (double_of_size_t (32 * MiB)))
     = true.
Proof. repeat split; vm_compute; reflexivity. Qed.

(** ** Runs of the whole flow on the counting model *)

(** In the scenario of the rate-driven shrink, [balance] loans 800 small
    pages under the lock, and leaves 7840 small and 50 medium pages in the
    cache. *)
Example balance_small_to_medium :
  exists m this,
    balance (scenario_globals 8 true true)
      (counting_machine 8640 0, scenario_balancer false 0 0 0 0)
    = Return (m, this)
    /\ world m = (7840, 50)
    /\ firstn 3 (trace m) = [Lock; LoanPages 800 ZPageTypeSmall; Unlock]
    /\ Z.of_nat (List.length (trace m)) = 5203
    /\ (_loaner_type this, _loaner_count this) = (ZPageTypeSmall, 800)
    /\ (_debtor_type this, _debtor_count this) = (ZPageTypeMedium, 50)
    /\ (_loaner_list this, _debtor_list this) = ([], []).
Proof.
  eexists. eexists. split; [vm_compute; reflexivity|].
  repeat split; vm_compute; reflexivity.
Qed.

(** Before relocation, with 900 small and 60 medium pages selected as
    to-space and the same cache, the floor is (900, 60) and the targets are
    (7680, 60). *)
Example before_relocation_reserves_to_space :
  exists this,
    determine_balance_necessity (scenario_globals 8 true true)
      (scenario_balancer true 900 60 8640 0)
    = Return (true, this)
    /\ (_target_small this, _target_medium this) = (7680, 60).
Proof.
  eexists. split; vm_compute; reflexivity.
Qed.

(** A cache that already holds the targets is left alone. *)
Example no_movement :
  determine_balance_necessity (scenario_globals 8 true true)
    (scenario_balancer false 0 0 7840 50)
  = Return (false, scenario_balancer false 0 0 7840 50).
Proof. vm_compute. reflexivity. Qed.

(** Without room in the cache for the medium pages, the [assert] of
    [calculate_maximal_small_for_medium] ends a debug build, and a product
    build goes on with the wrapped difference: 64 MiB of cache and three
    medium pages of 32 MiB. *)
Example assert_without_room_debug :
  calculate_maximal_small_for_medium (scenario_globals 8 true true)
    (scenario_balancer false 0 0 16 1) 3
  = Fatal (AssertFailed "enough page cache").
Proof. vm_compute. reflexivity. Qed.

Example assert_without_room_product :
  calculate_maximal_small_for_medium (scenario_globals 8 false true)
    (scenario_balancer false 0 0 16 1) 3
  = Return ((2 ^ 64 - 32 * MiB) / (2 * MiB)).
Proof. vm_compute. reflexivity. Qed.

(** * Further properties of the solver *)

Section SolverProperties.

Context {ZPage : Type}.

Local Abbreviation Balancer := (ZPageCacheBalance ZPage).

(** X1.  For a fixed number of medium pages that leaves room in the cache,
    [calculate_maximal_small_for_medium] returns the number of small pages
    that makes full use of the available bytes, as the comment above it
    says. *)
Theorem maximal_small_makes_full_use
    (g : Globals) (this : Balancer) (medium : Z) :
  globals_ok g -> cache_ok g this ->
  0 <= medium -> ZPageSizeMedium g * medium < cache_bytes g this ->
  exists small,
    calculate_maximal_small_for_medium g this medium = Return small
    /\ 0 < small
    /\ ZPageSizeSmall g * small + ZPageSizeMedium g * medium
       = cache_bytes g this
    /\ calculate_total_size g small medium = available_page_cache_size g this.
Proof.
  intros Hg Hc Hm Hlt.
  pose proof (small_pages_exact g this medium Hg) as Hex.
  pose proof (small_size_positive g Hg) as HS.
  pose proof (medium_size_range g Hg) as [HM _].
  pose proof (cache_bytes_fit g this Hc) as Hfit.
  eexists. split.
  - apply calculate_maximal_small_for_medium_exact; assumption.
  - set (small := (cache_bytes g this - ZPageSizeMedium g * medium)
                  / ZPageSizeSmall g) in *.
    assert (Hpos : 0 < small) by nia.
    split; [exact Hpos|]. split; [lia|].
    rewrite (available_exact g this Hg Hc).
    rewrite (total_size_exact g small medium) by (try assumption; lia).
    lia.
Qed.

(** X2.  For a fixed number of small pages that leaves room in the cache,
    [calculate_maximal_medium_for_small] returns the largest number of
    medium pages that fits beside them; less than one medium page is left
    unused. *)
Theorem maximal_medium_is_largest
    (g : Globals) (this : Balancer) (small : Z) :
  globals_ok g -> cache_ok g this ->
  0 <= small -> ZPageSizeSmall g * small < cache_bytes g this ->
  exists medium,
    calculate_maximal_medium_for_small g this small = Return medium
    /\ 0 <= medium
    /\ ZPageSizeSmall g * small + ZPageSizeMedium g * medium
       <= cache_bytes g this
    /\ cache_bytes g this
       < ZPageSizeSmall g * small + ZPageSizeMedium g * (medium + 1)
    /\ (forall k,
          ZPageSizeSmall g * small + ZPageSizeMedium g * k
          <= cache_bytes g this ->
          k <= medium).
Proof.
  intros Hg Hc Hs Hlt.
  pose proof (medium_size_range g Hg) as [HM _].
  eexists. split.
  - apply calculate_maximal_medium_for_small_exact; assumption.
  - set (rest := cache_bytes g this - ZPageSizeSmall g * small) in *.
    pose proof (Z.mul_div_le rest (ZPageSizeMedium g) HM) as Hle.
    pose proof (Z.mul_succ_div_gt rest (ZPageSizeMedium g) HM) as Hgt.
    assert (0 <= rest / ZPageSizeMedium g) by (apply Z.div_pos; lia).
    repeat split; try lia.
    intros k Hk. apply Z.div_le_lower_bound; lia.
Qed.

(** X3.  When the optimal small count is below its floor (and the optimal
    medium count is not), the medium target is the largest medium count
    that fits beside the small floor, and the small target exceeds its
    floor by less than one medium page. *)
Theorem small_floor_gives_largest_medium
    (g : Globals) (this : Balancer)
    (minimal_small minimal_medium optimal_small optimal_medium : Z) :
  globals_ok g -> page_sizes_ok g -> cache_ok g this ->
  calculate_minimal_small g this = Return minimal_small ->
  calculate_minimal_medium g this = Return minimal_medium ->
  ZPageSizeSmall g * minimal_small + ZPageSizeMedium g * minimal_medium
  <= cache_bytes g this ->
  calculate_optimal_small g this = Return optimal_small ->
  calculate_optimal_medium g this = Return optimal_medium ->
  minimal_medium <= optimal_medium -> optimal_small < minimal_small ->
  exists necessary this',
    determine_balance_necessity g this = Return (necessary, this')
    /\ ZPageSizeSmall g * minimal_small
       + ZPageSizeMedium g * _target_medium this' <= cache_bytes g this
    /\ (forall k,
          ZPageSizeSmall g * minimal_small + ZPageSizeMedium g * k
          <= cache_bytes g this ->
          k <= _target_medium this')
    /\ minimal_small <= _target_small this'
    /\ ZPageSizeSmall g * _target_small this'
       < ZPageSizeSmall g * minimal_small + ZPageSizeMedium g.
Proof.
  intros Hg Hd Hc Hms Hmm Hfeas Hos Hom Hmed Hsmall.
  destruct (determine_balance_necessity_feasible g this _ _ _
              Hg Hd Hc Hms Hmm Hfeas Hos)
    as (om & Hom' & _ & _ & _ & Hsat & Hdet).
  rewrite Hom in Hom'. injection Hom' as <-.
  pose proof (small_size_positive g Hg) as HS.
  pose proof (medium_size_range g Hg) as [HM _].
  unfold spec_projection in Hdet.
  replace (optimal_medium >=? minimal_medium) with true in Hdet
    by (symmetry; apply geb_true_iff; exact Hmed).
  replace (optimal_small >=? minimal_small) with false in Hdet
    by (symmetry; apply geb_false_iff; exact Hsmall).
  replace (optimal_medium <? minimal_medium) with false in Hdet
    by (symmetry; apply Z.ltb_ge; exact Hmed).
  cbn [andb] in Hdet. cbv zeta in Hdet.
  set (rest := cache_bytes g this - ZPageSizeSmall g * minimal_small) in *.
  set (tm := rest / ZPageSizeMedium g) in *.
  eexists. eexists. split; [exact Hdet|].
  cbn [_target_small _target_medium set_target_small set_target_medium].
  pose proof (Z.mul_div_le rest (ZPageSizeMedium g) HM) as Hle.
  pose proof (Z.mul_succ_div_gt rest (ZPageSizeMedium g) HM) as Hgt.
  fold tm in Hle, Hgt.
  pose proof (small_pages_exact g this tm Hg) as Hex.
  set (ts := (cache_bytes g this - ZPageSizeMedium g * tm) / ZPageSizeSmall g)
    in *.
  split; [lia|]. split; [|split; nia].
  intros k Hk. apply Z.div_le_lower_bound; lia.
Qed.

(** X4.  Before relocation the solver asks for a balance exactly when an
    available count is below its floor; otherwise the targets are the
    available counts. *)
Theorem before_relocation_balances_below_floor
    (g : Globals) (this : Balancer) (minimal_small minimal_medium : Z) :
  globals_ok g -> cache_ok g this ->
  _before_relocation this = true ->
  calculate_minimal_small g this = Return minimal_small ->
  calculate_minimal_medium g this = Return minimal_medium ->
  ZPageSizeSmall g * minimal_small + ZPageSizeMedium g * minimal_medium
  <= cache_bytes g this ->
  exists necessary this',
    determine_balance_necessity g this = Return (necessary, this')
    /\ (necessary = true <->
        _available_small this < minimal_small
        \/ _available_medium this < minimal_medium)
    /\ (necessary = false ->
        _target_small this' = _available_small this
        /\ _target_medium this' = _available_medium this).
Proof.
  intros Hg Hc Hb Hms Hmm Hfeas.
  pose proof (small_size_positive g Hg) as HS.
  pose proof (medium_size_range g Hg) as [HM _].
  assert (Hom : calculate_optimal_medium g this
                = Return (_available_medium this)).
  { unfold calculate_optimal_medium. rewrite Hb. reflexivity. }
  assert (Hos : calculate_optimal_small g this
                = Return (_available_small this)).
  { unfold calculate_optimal_small. rewrite Hb. reflexivity. }
  destruct (determine_balance_necessity_projection g this _ _ _
              (_available_small this) Hg Hc Hms Hmm Hfeas Hom)
    as (_ & Hsat & Hdet);
    [apply (available_medium_nonneg g this Hc)
    |pose proof (available_small_nonneg g this Hc); unfold cache_bytes; nia
    |exact Hos|].
  pose proof (spec_projection_properties
                (ZPageSizeSmall g) (ZPageSizeMedium g) (cache_bytes g this)
                minimal_small minimal_medium
                (_available_small this) (_available_medium this)
                HS HM (medium_size_multiple g Hg)
                (small_divides_cache g this Hg)
                (minimal_small_at_least_one g this _ Hg Hms)
                (minimal_medium_at_least_one g this _ Hg Hmm)
                Hfeas Hsat) as Hproj.
  unfold spec_projection in Hdet, Hproj.
  destruct ((_available_medium this >=? minimal_medium)
            && (_available_small this >=? minimal_small)) eqn:E1.
  - apply andb_true_iff in E1. destruct E1 as [E1 E2].
    apply geb_true_iff in E1. apply geb_true_iff in E2.
    rewrite Z.eqb_refl in Hdet. cbn [negb] in Hdet.
    eexists. eexists. split; [exact Hdet|].
    cbn [_target_small _target_medium set_target_small set_target_medium].
    split; [split; intros H; [discriminate H|exfalso; lia]|].
    intros _. split; reflexivity.
  - assert (Hbelow : _available_small this < minimal_small
                     \/ _available_medium this < minimal_medium).
    { apply andb_false_iff in E1. destruct E1 as [E1|E1];
        apply geb_false_iff in E1; lia. }
    destruct (_available_medium this <? minimal_medium) eqn:E2.
    + apply Z.ltb_lt in E2.
      replace (minimal_medium =? _available_medium this) with false in Hdet
        by (symmetry; apply Z.eqb_neq; lia).
      cbn [negb] in Hdet.
      eexists. eexists. split; [exact Hdet|].
      repeat split; intros; try discriminate; try assumption; reflexivity.
    + apply Z.ltb_ge in E2. cbv zeta in Hdet, Hproj.
      destruct Hproj as (Heq & Hts & Htm & _).
      set (tm := (cache_bytes g this - ZPageSizeSmall g * minimal_small)
                 / ZPageSizeMedium g) in *.
      set (ts := (cache_bytes g this - ZPageSizeMedium g * tm)
                 / ZPageSizeSmall g) in *.
      assert (Hne : tm <> _available_medium this).
      { unfold cache_bytes in Heq. intros E. rewrite E in Heq. nia. }
      replace (tm =? _available_medium this) with false in Hdet
        by (symmetry; apply Z.eqb_neq; exact Hne).
      cbn [negb] in Hdet.
      eexists. eexists. split; [exact Hdet|].
      repeat split; intros; try discriminate; try assumption; reflexivity.
Qed.

Lemma set_targets_same (this : Balancer) :
  this = set_target_small (set_target_medium this (_target_medium this))
           (_target_small this).
Proof. destruct this. reflexivity. Qed.

Ltac outcome_step H :=
  match type of H with
  | Fatal _ = Return _ => discriminate H
  | bind (Return _) _ = _ => cbn [bind] in H
  | bind (Fatal _) _ = _ => cbn [bind] in H
  | bind (if ?b then _ else _) _ = _ => destruct b
  | bind (bind ?c _) _ = _ => destruct c; cbn [bind] in H
  | bind ?c _ = _ => destruct c; cbn [bind] in H
  | (if ?b then _ else _) = _ => destruct b
  end.

(** X5.  Whatever path [determine_balance_necessity] takes, when it returns
    it has written the two target fields of the balancer at most: the
    sampled counts, the phase, the selected counts and the loaner and debtor
    fields and lists are those it was given. *)
Theorem solver_writes_targets_only
    (g : Globals) (this this' : Balancer) (necessary : bool) :
  determine_balance_necessity g this = Return (necessary, this') ->
  exists ts tm, this' = set_target_small (set_target_medium this tm) ts.
Proof.
  unfold determine_balance_necessity. intros H.
  repeat outcome_step H.
  all: injection H as <- <-.
  all: try (eexists; eexists; apply set_targets_same).
  all: try (eexists; eexists; reflexivity).
Qed.

Lemma calculate_loaner_and_debtor_bytes
    (g : Globals) (this this' : Balancer) (minimal_small minimal_medium : Z) :
  globals_ok g -> page_sizes_ok g -> cache_ok g this ->
  calculate_minimal_small g this = Return minimal_small ->
  calculate_minimal_medium g this = Return minimal_medium ->
  ZPageSizeSmall g * minimal_small + ZPageSizeMedium g * minimal_medium
  < size_t_modulus ->
  determine_balance_necessity g this = Return (true, this') ->
  let this'' := calculate_loaner_and_debtor this' in
  page_size_of_type g (_loaner_type this'') * _loaner_count this''
  = page_size_of_type g (_debtor_type this'') * _debtor_count this''
  /\ 0 < _loaner_count this'' /\ 0 < _debtor_count this''
  /\ ((_loaner_type this'' = ZPageTypeSmall
       /\ _debtor_type this'' = ZPageTypeMedium)
      \/ (_loaner_type this'' = ZPageTypeMedium
          /\ _debtor_type this'' = ZPageTypeSmall)).
Proof.
  intros Hg Hd Hc Hms Hmm Hfit Hdet.
  pose proof (small_size_positive g Hg) as HS.
  pose proof (medium_size_range g Hg) as [HM _].
  pose proof (minimal_small_at_least_one g this _ Hg Hms) as Hms1.
  pose proof (minimal_medium_at_least_one g this _ Hg Hmm) as Hmm1.
  pose proof (cache_bytes_fit g this Hc) as HAfit.
  pose proof (available_small_nonneg g this Hc) as Has.
  pose proof (available_medium_nonneg g this Hc) as Ham.
  destruct (Z_le_gt_dec
              (ZPageSizeSmall g * minimal_small
               + ZPageSizeMedium g * minimal_medium)
              (cache_bytes g this)) as [Hfeas|Hinf].
  - destruct (determine_balance_necessity_optimal_small g this _ _ _
                Hg Hc Hms Hmm Hfeas Hdet) as (os & Hos).
    destruct (solver_outcome g this _ _ _ Hg Hd Hc Hms Hmm Hfeas Hos)
      as (ts & tm & Hdet' & Heq & Hts & Htm).
    rewrite Hdet' in Hdet. injection Hdet as Hne <-.
    apply negb_true_iff in Hne. apply Z.eqb_neq in Hne.
    unfold cache_bytes in *.
    destruct (equal_bytes_counts _ _ ts tm _ _ HS HM Heq)
      as (Hiff & Hsmall & Hmedium).
    unfold calculate_loaner_and_debtor.
    cbn [_target_small _target_medium set_target_small set_target_medium
         _available_small _available_medium].
    set (a_s := _available_small this) in *.
    set (a_m := _available_medium this) in *.
    destruct (Z_lt_le_dec a_s ts) as [H1|H1].
    + replace (ts >? a_s) with true by (symmetry; apply gtb_true_iff; lia).
      specialize (Hsmall H1).
      cbv zeta.
      cbn [_debtor_type _debtor_count _loaner_type _loaner_count
           set_debtor set_loaner _target_small _target_medium
           _available_small _available_medium set_target_small
           set_target_medium page_size_of_type].
      fold a_s a_m. rewrite !wrap_small by nia.
      split; [nia|]. split; [lia|]. split; [lia|]. right. split; reflexivity.
    + assert (H2 : a_m < tm) by nia.
      specialize (Hmedium H2).
      replace (ts >? a_s) with false by (symmetry; apply gtb_false_iff; lia).
      replace (tm >? a_m) with true by (symmetry; apply gtb_true_iff; lia).
      cbv zeta.
      cbn [_debtor_type _debtor_count _loaner_type _loaner_count
           set_debtor set_loaner _target_small _target_medium
           _available_small _available_medium set_target_small
           set_target_medium page_size_of_type].
      fold a_s a_m. rewrite !wrap_small by nia.
      split; [nia|]. split; [lia|]. split; [lia|]. left. split; reflexivity.
  - rewrite (determine_balance_necessity_infeasible g this _ _
               Hg Hc Hms Hmm Hfit) in Hdet by lia.
    discriminate Hdet.
Qed.

(** X6.  When the solver asks for a balance, [calculate_loaner_and_debtor]
    sets a loaner and a debtor of different types, small and medium, with
    positive counts, and the loaned pages hold exactly the bytes of the
    pages to create: the conversion keeps the byte size of the cache. *)
Theorem loaner_and_debtor_bytes_agree
    (g : Globals) (this this' : Balancer) (minimal_small minimal_medium : Z) :
  globals_ok g -> page_sizes_ok g -> cache_ok g this ->
  calculate_minimal_small g this = Return minimal_small ->
  calculate_minimal_medium g this = Return minimal_medium ->
  ZPageSizeSmall g * minimal_small + ZPageSizeMedium g * minimal_medium
  < size_t_modulus ->
  determine_balance_necessity g this = Return (true, this') ->
  let this'' := calculate_loaner_and_debtor this' in
  page_size_of_type g (_loaner_type this'') * _loaner_count this''
  = page_size_of_type g (_debtor_type this'') * _debtor_count this''
  /\ 0 < _loaner_count this'' /\ 0 < _debtor_count this''
  /\ ((_loaner_type this'' = ZPageTypeSmall
       /\ _debtor_type this'' = ZPageTypeMedium)
      \/ (_loaner_type this'' = ZPageTypeMedium
          /\ _debtor_type this'' = ZPageTypeSmall)).
Proof. apply calculate_loaner_and_debtor_bytes. Qed.

(** X8.  After relocation, when no medium page is being allocated (a medium
    rate of zero), the optimal medium count is zero and the medium target
    is the medium floor itself; the small pages take the rest of the
    cache. *)
Theorem zero_medium_rate_gives_medium_floor
    (g : Globals) (this : Balancer) (minimal_small minimal_medium : Z) :
  globals_ok g -> cache_ok g this ->
  _before_relocation this = false ->
  (medium_alloc_rate g == 0)%Q ->
  calculate_minimal_small g this = Return minimal_small ->
  calculate_minimal_medium g this = Return minimal_medium ->
  ZPageSizeSmall g * minimal_small + ZPageSizeMedium g * minimal_medium
  <= cache_bytes g this ->
  calculate_optimal_medium g this = Return 0
  /\ exists necessary this',
       determine_balance_necessity g this = Return (necessary, this')
       /\ _target_medium this' = minimal_medium
       /\ _target_small this'
          = (cache_bytes g this - ZPageSizeMedium g * minimal_medium)
            / ZPageSizeSmall g.
Proof.
  intros Hg Hc Hb Hzero Hms Hmm Hfeas.
  pose proof (minimal_small_at_least_one g this _ Hg Hms) as Hms1.
  pose proof (minimal_medium_at_least_one g this _ Hg Hmm) as Hmm1.
  pose proof (small_size_positive g Hg) as HS.
  pose proof (medium_size_range g Hg) as [HM _].
  assert (HA : 0 < cache_bytes g this) by nia.
  pose proof (calculate_optimal_medium_zero_rate g this Hg Hc Hb Hzero) as Hom.
  split; [exact Hom|].
  destruct (calculate_optimal_small_returns g this 0 Hg Hc Hom) as (os & Hos);
    [lia|lia|right; lia|].
  destruct (determine_balance_necessity_projection g this _ _ _ os
              Hg Hc Hms Hmm Hfeas Hom) as (_ & _ & Hdet);
    [lia|lia|exact Hos|].
  unfold spec_projection in Hdet.
  replace (0 >=? minimal_medium) with false in Hdet
    by (symmetry; apply geb_false_iff; lia).
  replace (0 <? minimal_medium) with true in Hdet
    by (symmetry; apply Z.ltb_lt; lia).
  cbn [andb] in Hdet.
  eexists. eexists. split; [exact Hdet|]. split; reflexivity.
Qed.

(** X16.  The floors are always defined: whatever the heap capacity, the
    percentage and the phase are, the conversions to [size_t] in
    [calculate_minimal_small] and [calculate_minimal_medium] are in range,
    both functions return, each floor is one page at least and, before
    relocation, the selected to-space count at least. *)
Theorem floors_are_always_defined (g : Globals) (this : Balancer) :
  globals_ok g ->
  exists minimal_small minimal_medium,
    calculate_minimal_small g this = Return minimal_small
    /\ calculate_minimal_medium g this = Return minimal_medium
    /\ 1 <= minimal_small /\ 1 <= minimal_medium
    /\ (_before_relocation this = true ->
        _small_selected_to this <= minimal_small
        /\ _medium_selected_to this <= minimal_medium).
Proof.
  intros Hg.
  destruct (calculate_minimal_small_returns g this Hg) as (cs & Hcs & Hms).
  destruct (calculate_minimal_medium_returns g this Hg) as (cm & Hcm & Hmm).
  eexists. eexists. split; [exact Hms|]. split; [exact Hmm|].
  destruct (_before_relocation this).
  - split; [lia|]. split; [lia|]. intros _. lia.
  - split; [lia|]. split; [lia|]. intros H. discriminate H.
Qed.

(** X17.  When the floor fits in the cache, the calls the solver makes
    with a floor meet the [assert]s of the two helpers: the strict
    inequality holds for the medium floor, for the small floor and for the
    medium count that [calculate_maximal_medium_for_small] pairs with the
    small floor. *)
Theorem floor_calls_meet_their_asserts
    (g : Globals) (this : Balancer) (minimal_small minimal_medium : Z) :
  globals_ok g -> cache_ok g this ->
  calculate_minimal_small g this = Return minimal_small ->
  calculate_minimal_medium g this = Return minimal_medium ->
  ZPageSizeSmall g * minimal_small + ZPageSizeMedium g * minimal_medium
  <= cache_bytes g this ->
  (available_page_cache_size g this
     >? wrap (minimal_medium * ZPageSizeMedium g)) = true
  /\ (available_page_cache_size g this
        >? wrap (minimal_small * ZPageSizeSmall g)) = true
  /\ (exists medium,
        calculate_maximal_medium_for_small g this minimal_small = Return medium
        /\ minimal_medium <= medium
        /\ (available_page_cache_size g this
              >? wrap (medium * ZPageSizeMedium g)) = true).
Proof.
  intros Hg Hc Hms Hmm Hfeas.
  pose proof (minimal_small_at_least_one g this _ Hg Hms) as Hms1.
  pose proof (minimal_medium_at_least_one g this _ Hg Hmm) as Hmm1.
  pose proof (small_size_positive g Hg) as HS.
  pose proof (medium_size_range g Hg) as [HM _].
  pose proof (cache_bytes_fit g this Hc) as Hfit.
  rewrite (available_exact g this Hg Hc).
  assert (Hgt : forall n size, 0 <= n -> 0 < size ->
                  size * n < cache_bytes g this ->
                  (cache_bytes g this >? wrap (n * size)) = true).
  { intros n size Hn Hsize Hlt. rewrite wrap_small by nia.
    apply gtb_true_iff. lia. }
  split; [|split].
  - apply Hgt; [lia|exact HM|nia].
  - apply Hgt; [lia|exact HS|nia].
  - rewrite (calculate_maximal_medium_for_small_exact g this _ Hg Hc)
      by nia.
    eexists. split; [reflexivity|].
    pose proof (Z.mul_div_le
                  (cache_bytes g this - ZPageSizeSmall g * minimal_small)
                  (ZPageSizeMedium g) HM).
    split.
    + apply Z.div_le_lower_bound; lia.
    + apply Hgt; [|exact HM|nia].
      apply Z.div_pos; nia.
Qed.

(** X18.  After relocation [calculate_optimal_small] ends in the [assert]
    of [calculate_maximal_small_for_medium] exactly in a debug build in
    which the optimal medium pages take all of the available bytes; in
    every other case it returns. *)
Theorem optimal_small_stops_exactly_at_saturation
    (g : Globals) (this : Balancer) :
  globals_ok g -> page_sizes_ok g -> medium_rate_finite g -> cache_ok g this ->
  _before_relocation this = false ->
  exists optimal_medium,
    calculate_optimal_medium g this = Return optimal_medium
    /\ (calculate_optimal_small g this
        = Fatal (AssertFailed "enough page cache")
        <-> ASSERT g = true
            /\ ZPageSizeMedium g * optimal_medium = cache_bytes g this)
    /\ ((exists optimal_small,
           calculate_optimal_small g this = Return optimal_small)
        <-> ASSERT g = false
            \/ ZPageSizeMedium g * optimal_medium < cache_bytes g this).
Proof.
  intros Hg Hd Hfin Hc Hb.
  destruct (calculate_optimal_medium_fits g this Hg Hd Hfin Hc)
    as (om & Hom & Hom0 & Hfits).
  pose proof (medium_size_range g Hg) as [HM _].
  pose proof (cache_bytes_fit g this Hc) as Hfit.
  exists om. split; [exact Hom|].
  assert (E : calculate_optimal_small g this
              = bind (assert g (cache_bytes g this >? ZPageSizeMedium g * om)
                        "enough page cache")
                  (fun _ =>
                     Return ((cache_bytes g this - ZPageSizeMedium g * om)
                             / ZPageSizeSmall g))).
  { unfold calculate_optimal_small. rewrite Hb, Hom. cbn [bind].
    unfold calculate_maximal_small_for_medium.
    rewrite (available_exact g this Hg Hc).
    rewrite (wrap_small (om * ZPageSizeMedium g)) by nia.
    replace (om * ZPageSizeMedium g) with (ZPageSizeMedium g * om) by ring.
    rewrite wrap_small by nia. reflexivity. }
  rewrite E. unfold assert.
  destruct (ASSERT g);
    destruct (Z.gtb_spec (cache_bytes g this) (ZPageSizeMedium g * om))
      as [Hroom|Hfull];
    cbn [andb negb bind].
  - split; split.
    + intros H. discriminate H.
    + intros [_ H]. lia.
    + intros _. right. assumption.
    + intros _. eexists. reflexivity.
  - split; split.
    + intros _. split; [reflexivity|lia].
    + intros _. reflexivity.
    + intros [os H]. discriminate H.
    + intros [H|H]; [discriminate H|lia].
  - split; split.
    + intros H. discriminate H.
    + intros [H _]. discriminate H.
    + intros _. left. reflexivity.
    + intros _. eexists. reflexivity.
  - split; split.
    + intros H. discriminate H.
    + intros [H _]. discriminate H.
    + intros _. left. reflexivity.
    + intros _. eexists. reflexivity.
Qed.

End SolverProperties.

(** * Further properties of the flow *)

Section FlowProperties.

Context {ZPage World : Type} {C : Collaborators ZPage World}.

Local Abbreviation State := (Machine ZPage World * ZPageCacheBalance ZPage)%type.

Lemma fold_left_trace (step : Machine ZPage World -> ZPage -> Machine ZPage World)
    (events : ZPage -> list (event ZPage)) :
  (forall m page, trace (step m page) = trace m ++ events page) ->
  forall pages m,
    trace (fold_left step pages m) = trace m ++ flat_map events pages.
Proof.
  intros Hstep pages. induction pages as [|page pages IH]; intros m.
  - cbn. rewrite app_nil_r. reflexivity.
  - cbn [fold_left flat_map]. rewrite IH, Hstep, app_assoc. reflexivity.
Qed.

Lemma fold_left_world (step : Machine ZPage World -> ZPage -> Machine ZPage World)
    (effect : ZPage -> World -> World) :
  (forall m page, world (step m page) = effect page (world m)) ->
  forall pages m,
    world (fold_left step pages m)
    = fold_left (fun w page => effect page w) pages (world m).
Proof.
  intros Hstep pages. induction pages as [|page pages IH]; intros m.
  - reflexivity.
  - cbn [fold_left]. rewrite IH, Hstep. reflexivity.
Qed.

Lemma flat_map_singleton {A B : Type} (f : A -> B) (l : list A) :
  flat_map (fun a => [f a]) l = map f l.
Proof.
  induction l as [|a l IH]; [reflexivity|]. cbn. rewrite IH. reflexivity.
Qed.

Lemma unmap_protocol_aux (m : Machine ZPage World)
    (this : ZPageCacheBalance ZPage) :
  trace (fst (unmap (m, this)))
  = trace m ++ map PhysicalUnmap (_loaner_list this)
    ++ flat_map free_events (_loaner_list this)
  /\ snd (unmap (m, this)) = set_loaner_list this [].
Proof.
  unfold unmap, unmap_pages, free_physical_memory.
  cbn [fst snd]. split; [|reflexivity].
  rewrite (fold_left_trace _ free_events)
    by (intros; unfold free_events, unlock, lock, call; cbn [trace];
        rewrite <- !app_assoc; reflexivity).
  rewrite (fold_left_trace _ (fun page => [PhysicalUnmap page]))
    by reflexivity.
  rewrite flat_map_singleton, app_assoc. reflexivity.
Qed.

(** X9.  The teardown stage: [unmap] unmaps every loaner page, in the order
    of the list and without the lock, before it frees any physical memory;
    then each page has its memory freed, its descriptor cleared and is put
    on the detached list, under a lock taken for that page alone.  The
    loaner list is left empty and nothing else of the balancer changes. *)
Theorem unmap_protocol (m : Machine ZPage World)
    (this : ZPageCacheBalance ZPage) :
  let pages := _loaner_list this in
  trace (fst (unmap (m, this)))
  = trace m ++ map PhysicalUnmap pages ++ flat_map free_events pages
  /\ world (fst (unmap (m, this)))
     = fold_left
         (fun w page =>
            detached_insert_last page (pmem_clear page (physical_free page w)))
         pages
         (fold_left (fun w page => physical_unmap page w) pages (world m))
  /\ snd (unmap (m, this)) = set_loaner_list this [].
Proof.
  intros pages. unfold unmap, unmap_pages, free_physical_memory.
  cbn [fst snd]. fold pages.
  split; [|split; [|reflexivity]].
  - rewrite (fold_left_trace _ free_events)
      by (intros; unfold free_events, unlock, lock, call; cbn [trace];
          rewrite <- !app_assoc; reflexivity).
    rewrite (fold_left_trace _ (fun page => [PhysicalUnmap page]))
      by reflexivity.
    rewrite flat_map_singleton, app_assoc. reflexivity.
  - rewrite (fold_left_world _
               (fun page w =>
                  detached_insert_last page
                    (pmem_clear page (physical_free page w))))
      by reflexivity.
    rewrite (fold_left_world _ physical_unmap) by reflexivity.
    reflexivity.
Qed.

Lemma set_debtor_list_same (this : ZPageCacheBalance ZPage) :
  set_debtor_list this (_debtor_list this) = this.
Proof. destruct this. reflexivity. Qed.

Lemma create_pages_spec (n : nat) (size : Z) :
  forall (m : Machine ZPage World) (this : ZPageCacheBalance ZPage),
  exists created,
    List.length created = n
    /\ snd (create_pages n size (m, this))
       = set_debtor_list this (_debtor_list this ++ created)
    /\ trace (fst (create_pages n size (m, this)))
       = trace m ++ List.concat (repeat (create_events (_debtor_type this) size) n).
Proof.
  induction n as [|n IH]; intros m this.
  - exists []. cbn. rewrite !app_nil_r, set_debtor_list_same.
    repeat split; reflexivity.
  - cbn [create_pages].
    destruct (create_page (_debtor_type this) size (world (lock m)))
      as [w page] eqn:Hcreate.
    match goal with
    | |- context [create_pages n size (?m1, ?this1)] =>
        destruct (IH m1 this1) as (created & Hlen & Hthis & Htrace)
    end.
    exists (page :: created).
    split; [cbn; rewrite Hlen; reflexivity|]. split.
    + rewrite Hthis. cbn [_debtor_list set_debtor_list].
      rewrite <- app_assoc. reflexivity.
    + rewrite Htrace. cbn [_debtor_type set_debtor_list repeat List.concat].
      unfold unlock, lock, call. cbn [trace world].
      rewrite <- !app_assoc. reflexivity.
Qed.

Lemma create_pages_for_debtor_count_aux (g : Globals)
    (m : Machine ZPage World) (this : ZPageCacheBalance ZPage) :
  exists created,
    Z.of_nat (List.length created) = Z.max 0 (_debtor_count this)
    /\ snd (create_pages_for_debtor g (m, this))
       = set_debtor_list this (_debtor_list this ++ created)
    /\ trace (fst (create_pages_for_debtor g (m, this)))
       = trace m
         ++ List.concat (repeat
                           (create_events (_debtor_type this)
                              (page_size_of_type g (_debtor_type this)))
                           (List.length created)).
Proof.
  unfold create_pages_for_debtor. cbn [snd].
  destruct (create_pages_spec (Z.to_nat (_debtor_count this))
              (page_size_of_type g (_debtor_type this)) m this)
    as (created & Hlen & Hthis & Htrace).
  exists created. split; [rewrite Hlen; lia|].
  split; [exact Hthis|]. rewrite Hlen. exact Htrace.
Qed.

(** X10.  [create_pages_for_debtor] appends exactly [_debtor_count] new
    pages to the debtor list; each page is created with the type of the
    debtor and the page size of that type, and accounted for with
    [increase_used] (not as reclaimed), under a lock taken for that page
    alone.  A debtor count of zero creates nothing. *)
Theorem create_pages_for_debtor_count (g : Globals) (m : Machine ZPage World)
    (this : ZPageCacheBalance ZPage) :
  exists created,
    Z.of_nat (List.length created) = Z.max 0 (_debtor_count this)
    /\ snd (create_pages_for_debtor g (m, this))
       = set_debtor_list this (_debtor_list this ++ created)
    /\ trace (fst (create_pages_for_debtor g (m, this)))
       = trace m
         ++ List.concat (repeat
                      (create_events (_debtor_type this)
                         (page_size_of_type g (_debtor_type this)))
                      (List.length created)).
Proof.
  unfold create_pages_for_debtor. cbn [snd].
  destruct (create_pages_spec (Z.to_nat (_debtor_count this))
              (page_size_of_type g (_debtor_type this)) m this)
    as (created & Hlen & Hthis & Htrace).
  exists created. split; [rewrite Hlen; lia|].
  split; [exact Hthis|]. rewrite Hlen. exact Htrace.
Qed.

Lemma map_each_spec (g : Globals) (pages : list ZPage) :
  forall m m',
    map_each g pages m = Return m' ->
    trace m' = trace m ++ map MapPage pages
    /\ world m' = fold_left (fun w page => map_page page w) pages (world m).
Proof.
  induction pages as [|page pages IH]; intros m m' H.
  - injection H as <-. cbn. rewrite app_nil_r. split; reflexivity.
  - cbn [map_each] in H.
    destruct (assert g (negb (is_mapped page (world m))) _);
      [|discriminate H].
    cbn [bind] in H. destruct (IH _ _ H) as (Htrace & Hworld).
    split.
    + rewrite Htrace. unfold call. cbn [trace map].
      rewrite <- app_assoc. reflexivity.
    + rewrite Hworld. reflexivity.
Qed.

Lemma map_each_product (g : Globals) (pages : list ZPage) :
  ASSERT g = false ->
  forall m, exists m', map_each g pages m = Return m'.
Proof.
  intros Hproduct. induction pages as [|page pages IH]; intros m.
  - eexists. reflexivity.
  - cbn [map_each]. unfold assert. rewrite Hproduct. cbn [andb bind].
    apply IH.
Qed.

(** X11.  [map_pages] maps every debtor page once, in the order of the
    list, and leaves the balancer as it is.  In a product build it always
    returns; in a debug build it ends the VM when the page at the head of
    the debtor list is already mapped. *)
Theorem map_pages_protocol (g : Globals) (m : Machine ZPage World)
    (this : ZPageCacheBalance ZPage) :
  (forall m' this',
      map_pages g (m, this) = Return (m', this') ->
      this' = this
      /\ trace m' = trace m ++ map MapPage (_debtor_list this)
      /\ world m'
         = fold_left (fun w page => map_page page w) (_debtor_list this)
             (world m))
  /\ (ASSERT g = false -> exists m', map_pages g (m, this) = Return (m', this))
  /\ (ASSERT g = true ->
      forall page pages,
        _debtor_list this = page :: pages ->
        is_mapped page (world m) = true ->
        map_pages g (m, this)
        = Fatal (AssertFailed
                   "ZPage should not be mapped right after page creation.")).
Proof.
  unfold map_pages. split; [|split].
  - intros m' this' H.
    destruct (map_each g (_debtor_list this) m) as [m1|] eqn:Hmap;
      [|discriminate H].
    cbn [bind] in H. injection H as <- <-.
    split; [reflexivity|]. apply (map_each_spec g _ _ _ Hmap).
  - intros Hproduct.
    destruct (map_each_product g (_debtor_list this) Hproduct m) as (m' & H).
    exists m'. rewrite H. reflexivity.
  - intros Hdebug page pages Hlist Hmapped. rewrite Hlist.
    cbn [map_each]. unfold assert. rewrite Hdebug, Hmapped. reflexivity.
Qed.

Lemma insert_pages_to_page_cache_trace (m : Machine ZPage World)
    (this : ZPageCacheBalance ZPage) :
  trace (fst (insert_pages_to_page_cache (m, this)))
  = trace m ++ flat_map publish_events (_debtor_list this)
  /\ snd (insert_pages_to_page_cache (m, this)) = set_debtor_list this [].
Proof.
  unfold insert_pages_to_page_cache. cbn [fst snd]. split; [|reflexivity].
  apply fold_left_trace. intros. unfold publish_events, call. cbn [trace].
  rewrite <- !app_assoc. reflexivity.
Qed.

Lemma remap_spec (g : Globals) (m m' : Machine ZPage World)
    (this this' : ZPageCacheBalance ZPage) :
  remap g (m, this) = Return (m', this') ->
  exists created,
    Z.of_nat (List.length created) = Z.max 0 (_debtor_count this)
    /\ trace m'
       = trace m
         ++ List.concat (repeat
                           (create_events (_debtor_type this)
                              (page_size_of_type g (_debtor_type this)))
                           (List.length created))
         ++ map MapPage (_debtor_list this ++ created)
         ++ flat_map publish_events (_debtor_list this ++ created)
    /\ this' = set_debtor_list this [].
Proof.
  unfold remap. intros H.
  destruct (create_pages_for_debtor_count_aux g m this)
    as (created & Hlen & Hthis & Htrace).
  destruct (create_pages_for_debtor g (m, this)) as [m1 this1].
  cbn [fst snd] in Hthis, Htrace.
  destruct (map_pages g (m1, this1)) as [[m2 this2]|] eqn:Hmap;
    [|discriminate H].
  cbn [bind] in H.
  unfold map_pages in Hmap.
  destruct (map_each g (_debtor_list this1) m1) as [m3|] eqn:Heach;
    [|discriminate Hmap].
  cbn [bind] in Hmap. injection Hmap as <- <-.
  destruct (map_each_spec g _ _ _ Heach) as (Htrace3 & _).
  destruct (insert_pages_to_page_cache_trace m3 this1) as (Htrace4 & Hthis4).
  destruct (insert_pages_to_page_cache (m3, this1)) as [m4 this4].
  cbn [fst snd] in Htrace4, Hthis4. injection H as <- <-.
  exists created. split; [exact Hlen|]. split.
  - rewrite Htrace4, Htrace3, Htrace, Hthis.
    cbn [_debtor_list set_debtor_list]. rewrite <- !app_assoc. reflexivity.
  - rewrite Hthis4, Hthis. reflexivity.
Qed.

Lemma balance_protocol_aux (g : Globals) (m m1 m' : Machine ZPage World)
    (this this1 this' : ZPageCacheBalance ZPage) :
  need_to_balance g (m, this) = Return (true, (m1, this1)) ->
  balance g (m, this) = Return (m', this') ->
  exists created : list ZPage,
    Z.of_nat (List.length created) = Z.max 0 (_debtor_count this1)
    /\ trace m'
       = trace m1
         ++ map PhysicalUnmap (_loaner_list this1)
         ++ flat_map free_events (_loaner_list this1)
         ++ List.concat (repeat
                           (create_events (_debtor_type this1)
                              (page_size_of_type g (_debtor_type this1)))
                           (List.length created))
         ++ map MapPage (_debtor_list this1 ++ created)
         ++ flat_map publish_events (_debtor_list this1 ++ created).
Proof.
  intros Hneed H. unfold balance in H.
  destruct (assert g (ZBalancePageCache g) _); [|discriminate H].
  cbn [bind] in H.
  destruct (assert g (is_ConcurrentGC_thread g) _); [|discriminate H].
  cbn [bind] in H. rewrite Hneed in H. cbn [bind] in H.
  destruct (unmap_protocol_aux m1 this1) as (Htrace1 & Hthis1).
  destruct (unmap (m1, this1)) as [m2 this2].
  cbn [fst snd] in Htrace1, Hthis1.
  destruct (remap_spec g _ _ _ _ H) as (created & Hlen & Htrace & Hthis).
  subst this2. cbn [_debtor_count _debtor_type _debtor_list set_loaner_list]
    in Hlen, Htrace, Hthis.
  exists created. split; [exact Hlen|].
  rewrite Htrace, Htrace1. rewrite <- !app_assoc. reflexivity.
Qed.

(** X12.  When [need_to_balance] has loaned pages, [balance] runs the
    stages in this order and no other call: every loaner page is unmapped,
    then every loaner page is freed and detached, then the debtor pages are
    created (as many as [_debtor_count]), then every debtor page is mapped,
    and only then are the debtor pages reset, entered in the page table and
    released to the cache (not as reclaimed).  Both lists of the balancer
    are empty at the end. *)
Theorem balance_protocol (g : Globals) (m m1 m' : Machine ZPage World)
    (this this1 this' : ZPageCacheBalance ZPage) :
  need_to_balance g (m, this) = Return (true, (m1, this1)) ->
  balance g (m, this) = Return (m', this') ->
  exists created,
    Z.of_nat (List.length created) = Z.max 0 (_debtor_count this1)
    /\ trace m'
       = trace m1
         ++ map PhysicalUnmap (_loaner_list this1)
         ++ flat_map free_events (_loaner_list this1)
         ++ List.concat (repeat
                           (create_events (_debtor_type this1)
                              (page_size_of_type g (_debtor_type this1)))
                           (List.length created))
         ++ map MapPage (_debtor_list this1 ++ created)
         ++ flat_map publish_events (_debtor_list this1 ++ created)
    /\ _loaner_list this' = []
    /\ _debtor_list this' = []
    /\ this' = set_debtor_list (set_loaner_list this1 []) [].
Proof.
  intros Hneed H. unfold balance in H.
  destruct (assert g (ZBalancePageCache g) _); [|discriminate H].
  cbn [bind] in H.
  destruct (assert g (is_ConcurrentGC_thread g) _); [|discriminate H].
  cbn [bind] in H. rewrite Hneed in H. cbn [bind] in H.
  destruct (unmap_protocol_aux m1 this1) as (Htrace1 & Hthis1).
  destruct (unmap (m1, this1)) as [m2 this2].
  cbn [fst snd] in Htrace1, Hthis1.
  destruct (remap_spec g _ _ _ _ H) as (created & Hlen & Htrace & Hthis).
  subst this2. cbn [_debtor_count _debtor_type _debtor_list set_loaner_list]
    in Hlen, Htrace, Hthis.
  exists created. split; [exact Hlen|]. split.
  - rewrite Htrace, Htrace1. rewrite <- !app_assoc. reflexivity.
  - rewrite Hthis. repeat split; reflexivity.
Qed.

Lemma lock_discipline_app (a b : list (event ZPage)) :
  forall held,
    lock_discipline held (a ++ b)
    = match lock_discipline held a with
      | Some held' => lock_discipline held' b
      | None => None
      end.
Proof.
  induction a as [|e a IH]; intros held; [reflexivity|].
  destruct e, held; cbn [lock_discipline app]; try reflexivity; apply IH.
Qed.

Lemma lock_discipline_unlocked_steps (A : Type)
    (events : A -> list (event ZPage)) :
  (forall a, lock_discipline false (events a) = Some false) ->
  forall l, lock_discipline false (flat_map events l) = Some false.
Proof.
  intros Hstep l. induction l as [|a l IH]; [reflexivity|].
  cbn [flat_map]. rewrite lock_discipline_app, Hstep. exact IH.
Qed.

Lemma lock_discipline_repeat (segment : list (event ZPage)) (n : nat) :
  lock_discipline false segment = Some false ->
  lock_discipline false (List.concat (repeat segment n)) = Some false.
Proof.
  intros Hsegment. induction n as [|n IH]; [reflexivity|].
  cbn [repeat List.concat]. rewrite lock_discipline_app, Hsegment. exact IH.
Qed.

(** The calls [need_to_balance] makes when it returns: none, or the lock
    taken and released, with the loan in between when a balance is
    necessary. *)
Lemma need_to_balance_trace (g : Globals) (m m1 : Machine ZPage World)
    (this this1 : ZPageCacheBalance ZPage) (necessary : bool) :
  need_to_balance g (m, this) = Return (necessary, (m1, this1)) ->
  (necessary = false /\ trace m1 = trace m)
  \/ (necessary = false /\ trace m1 = trace m ++ [Lock; Unlock])
  \/ (necessary = true
      /\ exists count type, trace m1 = trace m ++ [Lock; LoanPages count type; Unlock]).
Proof.
  unfold need_to_balance. intros H.
  destruct (is_warm g); cbn [negb] in H.
  - destruct (determine_balance_necessity g (initialize_page_count (lock m) this))
      as [[b this2]|]; [|discriminate H].
    cbn [bind] in H. destruct b.
    + destruct (loan_pages _ _ _) as [w loaned].
      injection H as <- <- <-. right. right. split; [reflexivity|].
      eexists. eexists. unfold unlock, lock, call. cbn [trace].
      rewrite <- !app_assoc. reflexivity.
    + injection H as <- <- <-. right. left. split; [reflexivity|].
      unfold unlock, lock, call. cbn [trace].
      rewrite <- !app_assoc. reflexivity.
  - injection H as <- <- <-. left. split; reflexivity.
Qed.

(** X13.  The locking discipline of [balance]: started with the lock free,
    a [balance] that returns has taken the lock only when it was free and
    released it each time; it has loaned from the cache, freed physical
    memory and created pages only with the lock held, and unmapped, mapped
    and published pages only with the lock free; the lock is free at the
    end. *)
Theorem balance_keeps_lock_discipline (g : Globals)
    (m m' : Machine ZPage World) (this this' : ZPageCacheBalance ZPage) :
  lock_discipline false (trace m) = Some false ->
  balance g (m, this) = Return (m', this') ->
  lock_discipline false (trace m') = Some false.
Proof.
  intros Hstart H.
  assert (Hbalance := H). unfold balance in H.
  destruct (assert g (ZBalancePageCache g) _); [|discriminate H].
  cbn [bind] in H.
  destruct (assert g (is_ConcurrentGC_thread g) _); [|discriminate H].
  cbn [bind] in H.
  destruct (need_to_balance g (m, this)) as [[necessary [m1 this1]]|] eqn:Hneed;
    [|discriminate H].
  cbn [bind] in H.
  destruct (need_to_balance_trace g _ _ _ _ _ Hneed)
    as [(Hn & Htrace)|[(Hn & Htrace)|(Hn & count & type & Htrace)]];
    subst necessary.
  - injection H as <- <-. rewrite Htrace. exact Hstart.
  - injection H as <- <-. rewrite Htrace, lock_discipline_app, Hstart.
    reflexivity.
  - clear H.
    destruct (balance_protocol_aux g _ _ _ _ _ _ Hneed Hbalance)
      as (created & _ & Htrace').
    rewrite Htrace', Htrace, <- !flat_map_singleton.
    rewrite !lock_discipline_app, Hstart.
    cbn [lock_discipline].
    rewrite lock_discipline_app.
    rewrite (lock_discipline_unlocked_steps _ (fun page => [PhysicalUnmap page]))
      by reflexivity.
    rewrite lock_discipline_app.
    rewrite (lock_discipline_unlocked_steps _ free_events) by reflexivity.
    rewrite lock_discipline_app.
    rewrite lock_discipline_repeat by reflexivity.
    rewrite lock_discipline_app.
    rewrite (lock_discipline_unlocked_steps _ (fun page => [MapPage page]))
      by reflexivity.
    apply lock_discipline_unlocked_steps. reflexivity.
Qed.

(** X14.  A whole balance converts bytes for bytes: when [need_to_balance]
    answers yes, it has asked the cache, under the lock, for the loaner
    count of pages of the loaner type, and a [balance] that returns has
    created pages of the debtor type that hold exactly the bytes of the
    pages asked for. *)
Theorem balance_creates_the_loaned_bytes (g : Globals)
    (m m1 m' : Machine ZPage World) (this this1 this' : ZPageCacheBalance ZPage)
    (minimal_small minimal_medium : Z) :
  let sampled := initialize_page_count m this in
  globals_ok g -> page_sizes_ok g -> cache_ok g sampled ->
  calculate_minimal_small g sampled = Return minimal_small ->
  calculate_minimal_medium g sampled = Return minimal_medium ->
  ZPageSizeSmall g * minimal_small + ZPageSizeMedium g * minimal_medium
  < size_t_modulus ->
  need_to_balance g (m, this) = Return (true, (m1, this1)) ->
  balance g (m, this) = Return (m', this') ->
  trace m1
  = trace m ++ [Lock; LoanPages (_loaner_count this1) (_loaner_type this1);
                Unlock]
  /\ 0 < _loaner_count this1
  /\ exists created,
       trace m'
       = trace m1
         ++ map PhysicalUnmap (_loaner_list this1)
         ++ flat_map free_events (_loaner_list this1)
         ++ List.concat (repeat
                           (create_events (_debtor_type this1)
                              (page_size_of_type g (_debtor_type this1)))
                           (List.length created))
         ++ map MapPage (_debtor_list this1 ++ created)
         ++ flat_map publish_events (_debtor_list this1 ++ created)
       /\ page_size_of_type g (_loaner_type this1) * _loaner_count this1
          = page_size_of_type g (_debtor_type this1)
            * Z.of_nat (List.length created).
Proof.
  intros sampled Hg Hd Hc Hms Hmm Hfit Hneed Hbalance.
  assert (Hneed' := Hneed). unfold need_to_balance in Hneed'.
  destruct (is_warm g); cbn [negb] in Hneed'; [|discriminate Hneed'].
  change (initialize_page_count (lock m) this) with sampled in Hneed'.
  destruct (determine_balance_necessity g sampled) as [[b this2]|] eqn:Hdet;
    [|discriminate Hneed'].
  cbn [bind] in Hneed'. destruct b; [|discriminate Hneed'].
  destruct (loan_pages _ _ _) as [w loaned].
  injection Hneed' as <- <-.
  pose proof (calculate_loaner_and_debtor_bytes g sampled this2 _ _
                Hg Hd Hc Hms Hmm Hfit Hdet) as Hbytes.
  cbv zeta in Hbytes. destruct Hbytes as (Hbytes & Hloaner & Hdebtor & _).
  destruct (balance_protocol_aux g _ _ _ _ _ _ Hneed Hbalance)
    as (created & Hlen & Htrace).
  cbn [_loaner_count _loaner_type _debtor_count _debtor_type
       set_loaner_list] in *.
  split.
  - unfold unlock, lock, call. cbn [trace]. rewrite <- !app_assoc. reflexivity.
  - split; [exact Hloaner|]. exists created. split; [exact Htrace|].
    rewrite Hlen, Z.max_r by lia. exact Hbytes.
Qed.

(** X15.  In a product build [balance] always returns, for rates that are
    not negative and finite, page sizes that are powers of two, and a cache
    and a floor whose bytes fit in 64 bits: no
    [guarantee] fires and no conversion of a double is out of range, in the
    cold cycle, when the floor does not fit in the cache, and when pages
    are converted.  Started with empty lists, it ends with empty lists. *)
Theorem balance_returns_in_product_build (g : Globals)
    (m : Machine ZPage World) (this : ZPageCacheBalance ZPage)
    (minimal_small minimal_medium : Z) :
  let sampled := initialize_page_count m this in
  globals_ok g -> page_sizes_ok g -> medium_rate_finite g ->
  cache_ok g sampled ->
  calculate_minimal_small g sampled = Return minimal_small ->
  calculate_minimal_medium g sampled = Return minimal_medium ->
  ZPageSizeSmall g * minimal_small + ZPageSizeMedium g * minimal_medium
  < size_t_modulus ->
  ASSERT g = false ->
  _loaner_list this = [] -> _debtor_list this = [] ->
  exists m' this',
    balance g (m, this) = Return (m', this')
    /\ _loaner_list this' = [] /\ _debtor_list this' = [].
Proof.
  intros sampled Hg Hd Hfin Hc Hms Hmm Hfit Hproduct Hloaner Hdebtor.
  unfold balance. rewrite !assert_true by (left; exact Hproduct).
  cbn [bind]. destruct (is_warm g) eqn:Hwarm.
  - rewrite (need_to_balance_warm g m this Hwarm).
    change (initialize_page_count (lock m) this) with sampled.
    destruct (Z_le_gt_dec
                (ZPageSizeSmall g * minimal_small
                 + ZPageSizeMedium g * minimal_medium)
                (cache_bytes g sampled)) as [Hfeas|Hinf].
    + destruct (calculate_optimal_medium_fits g sampled Hg Hd Hfin Hc)
        as (om & Hom & Hom0 & Hfits).
      destruct (calculate_optimal_small_returns g sampled om Hg Hc Hom Hom0
                  Hfits (or_introl Hproduct)) as (os & Hos).
      destruct (solver_outcome g sampled _ _ _ Hg Hd Hc Hms Hmm Hfeas Hos)
        as (ts & tm & Hdet & _).
      rewrite Hdet. cbn [bind].
      destruct (negb (tm =? _available_medium sampled)).
      * destruct (loan_pages _ _ _) as [w loaned]. cbn [bind].
        match goal with
        | |- exists m' this', remap g (unmap (?m1, ?this1)) = _ /\ _ =>
            destruct (unmap_protocol_aux m1 this1) as (_ & Hunmap);
            destruct (unmap (m1, this1)) as [m2 this2]
        end.
        cbn [snd] in Hunmap. subst this2. unfold remap, map_pages.
        match goal with
        | |- context [create_pages_for_debtor g (?m2, ?this2)] =>
            destruct (create_pages_for_debtor_count_aux g m2 this2)
              as (created & _ & Hcreate & _);
            destruct (create_pages_for_debtor g (m2, this2)) as [m3 this3]
        end.
        cbn [snd] in Hcreate. subst this3.
        match goal with
        | |- context [map_each g ?pages m3] =>
            destruct (map_each_product g pages Hproduct m3) as (m4 & Hmap)
        end.
        rewrite Hmap. cbn [bind]. unfold insert_pages_to_page_cache.
        eexists _, _. split; [reflexivity|]. split; reflexivity.
      * eexists _, _. split; [reflexivity|].
        split; [exact Hloaner|exact Hdebtor].
    + rewrite (determine_balance_necessity_infeasible g sampled _ _
                 Hg Hc Hms Hmm Hfit) by lia.
      cbn [bind]. eexists _, _. split; [reflexivity|].
      split; [exact Hloaner|exact Hdebtor].
  - rewrite (need_to_balance_cold g m this Hwarm). cbn [bind].
    exists m, this. split; [reflexivity|]. split; assumption.
Qed.

End FlowProperties.

(** ** The further properties at the scenarios *)

Lemma maximal_small_makes_full_use_witness :
  exists small,
    calculate_maximal_small_for_medium (scenario_globals 8 true true)
      (scenario_balancer false 0 0 8640 0) 50 = Return small
    /\ 0 < small
    /\ 2 * MiB * small + 32 * MiB * 50 = 2 * MiB * 8640 + 32 * MiB * 0.
Proof.
  destruct (maximal_small_makes_full_use (scenario_globals 8 true true)
              (scenario_balancer false 0 0 8640 0) 50)
    as (small & Hcall & Hpos & Hfull & _).
  - scenario_globals_ok.
  - scenario_cache_ok.
  - by_evaluation.
  - by_evaluation.
  - exists small. split; [exact Hcall|]. split; [exact Hpos|exact Hfull].
Defined.

Lemma maximal_medium_is_largest_witness :
  exists medium,
    calculate_maximal_medium_for_small (scenario_globals 8 true true)
      (scenario_balancer false 0 0 8640 0) 800 = Return medium
    /\ 0 <= medium
    /\ forall k, 2 * MiB * 800 + 32 * MiB * k <= 2 * MiB * 8640 + 32 * MiB * 0 ->
                 k <= medium.
Proof.
  destruct (maximal_medium_is_largest (scenario_globals 8 true true)
              (scenario_balancer false 0 0 8640 0) 800)
    as (medium & Hcall & Hpos & _ & _ & Hmax).
  - scenario_globals_ok.
  - scenario_cache_ok.
  - by_evaluation.
  - by_evaluation.
  - exists medium. split; [exact Hcall|]. split; [exact Hpos|exact Hmax].
Defined.

Lemma small_floor_gives_largest_medium_witness :
  exists necessary this',
    determine_balance_necessity (scenario_globals 8 true true)
      (scenario_balancer true 0 0 100 600) = Return (necessary, this')
    /\ 800 <= _target_small this'
    /\ 2 * MiB * _target_small this' < 2 * MiB * 800 + 32 * MiB.
Proof.
  destruct (small_floor_gives_largest_medium (scenario_globals 8 true true)
              (scenario_balancer true 0 0 100 600) 800 50 100 600)
    as (necessary & this' & Hdet & _ & _ & Hfloor & Hnear).
  - scenario_globals_ok.
  - scenario_page_sizes_ok.
  - scenario_cache_ok.
  - by_evaluation.
  - by_evaluation.
  - by_evaluation.
  - by_evaluation.
  - by_evaluation.
  - by_evaluation.
  - by_evaluation.
  - exists necessary, this'. split; [exact Hdet|]. split; [exact Hfloor|exact Hnear].
Defined.

Lemma before_relocation_balances_below_floor_witness :
  exists necessary this',
    determine_balance_necessity (scenario_globals 8 true true)
      (scenario_balancer true 0 0 100 600) = Return (necessary, this')
    /\ (necessary = true <-> 100 < 800 \/ 600 < 50).
Proof.
  destruct (before_relocation_balances_below_floor
              (scenario_globals 8 true true)
              (scenario_balancer true 0 0 100 600) 800 50)
    as (necessary & this' & Hdet & Hiff & _).
  - scenario_globals_ok.
  - scenario_cache_ok.
  - reflexivity.
  - by_evaluation.
  - by_evaluation.
  - by_evaluation.
  - exists necessary, this'. split; [exact Hdet|exact Hiff].
Defined.

Lemma solver_writes_targets_only_witness :
  exists ts tm,
    set_target_small
      (set_target_medium (scenario_balancer false 0 0 8640 0) 50) 7840
    = set_target_small
        (set_target_medium (scenario_balancer false 0 0 8640 0) tm) ts.
Proof.
  apply (solver_writes_targets_only (scenario_globals 8 true true)
           (scenario_balancer false 0 0 8640 0) _ true).
  vm_compute. reflexivity.
Defined.

Lemma loaner_and_debtor_bytes_agree_witness :
  32 * MiB * 50 = 2 * MiB * 800.
Proof.
  destruct (loaner_and_debtor_bytes_agree (scenario_globals 8 true true)
              (scenario_balancer false 0 0 8640 0)
              (set_target_small
                 (set_target_medium (scenario_balancer false 0 0 8640 0) 50)
                 7840)
              800 50) as (Hbytes & _).
  - scenario_globals_ok.
  - scenario_page_sizes_ok.
  - scenario_cache_ok.
  - by_evaluation.
  - by_evaluation.
  - by_evaluation.
  - by_evaluation.
  - symmetry. exact Hbytes.
Defined.

Lemma zero_medium_rate_gives_medium_floor_witness :
  calculate_optimal_medium (scenario_globals_with_rates (200 * MiB) 0)
    (scenario_balancer false 0 0 1000 100) = Return 0
  /\ exists necessary this',
       determine_balance_necessity (scenario_globals_with_rates (200 * MiB) 0)
         (scenario_balancer false 0 0 1000 100) = Return (necessary, this')
       /\ _target_medium this' = 50.
Proof.
  destruct (zero_medium_rate_gives_medium_floor
              (scenario_globals_with_rates (200 * MiB) 0)
              (scenario_balancer false 0 0 1000 100) 800 50)
    as (Hzero & necessary & this' & Hdet & Hmedium & _).
  - scenario_globals_ok.
  - scenario_cache_ok.
  - reflexivity.
  - reflexivity.
  - by_evaluation.
  - by_evaluation.
  - by_evaluation.
  - split; [exact Hzero|]. exists necessary, this'.
    split; [exact Hdet|exact Hmedium].
Defined.

Lemma balance_protocol_witness :
  exists m' this',
    balance (scenario_globals 0 true true)
      (counting_machine 40 0, scenario_balancer false 0 0 0 0)
    = Return (m', this')
    /\ _loaner_list this' = []
    /\ _debtor_list this' = [].
Proof.
  destruct (need_to_balance (scenario_globals 0 true true)
              (counting_machine 40 0, scenario_balancer false 0 0 0 0))
    as [[[] [m1 this1]]|] eqn:Hneed;
    [|exfalso; vm_compute in Hneed; discriminate Hneed
     |exfalso; vm_compute in Hneed; discriminate Hneed].
  destruct (balance (scenario_globals 0 true true)
              (counting_machine 40 0, scenario_balancer false 0 0 0 0))
    as [[m' this']|] eqn:Hbalance;
    [|exfalso; vm_compute in Hbalance; discriminate Hbalance].
  destruct (balance_protocol _ _ _ _ _ _ _ Hneed Hbalance)
    as (created & _ & _ & Hloaner & Hdebtor & _).
  exists m', this'. split; [reflexivity|]. split; [exact Hloaner|exact Hdebtor].
Defined.

Lemma balance_keeps_lock_discipline_witness :
  exists m' this',
    balance (scenario_globals 0 true true)
      (counting_machine 40 0, scenario_balancer false 0 0 0 0)
    = Return (m', this')
    /\ lock_discipline false (trace m') = Some false.
Proof.
  destruct (balance (scenario_globals 0 true true)
              (counting_machine 40 0, scenario_balancer false 0 0 0 0))
    as [[m' this']|] eqn:Hbalance;
    [|exfalso; vm_compute in Hbalance; discriminate Hbalance].
  exists m', this'. split; [reflexivity|].
  apply (balance_keeps_lock_discipline (scenario_globals 0 true true)
           (counting_machine 40 0) m' (scenario_balancer false 0 0 0 0) this'
           eq_refl Hbalance).
Defined.

Lemma balance_creates_the_loaned_bytes_witness :
  exists m1 this1,
    need_to_balance (scenario_globals 0 true true)
      (counting_machine 40 0, scenario_balancer false 0 0 0 0)
    = Return (true, (m1, this1))
    /\ trace m1
       = [Lock; LoanPages (_loaner_count this1) (_loaner_type this1); Unlock]
    /\ 0 < _loaner_count this1.
Proof.
  destruct (need_to_balance (scenario_globals 0 true true)
              (counting_machine 40 0, scenario_balancer false 0 0 0 0))
    as [[[] [m1 this1]]|] eqn:Hneed;
    [|exfalso; vm_compute in Hneed; discriminate Hneed
     |exfalso; vm_compute in Hneed; discriminate Hneed].
  destruct (balance (scenario_globals 0 true true)
              (counting_machine 40 0, scenario_balancer false 0 0 0 0))
    as [[m' this']|] eqn:Hbalance;
    [|exfalso; vm_compute in Hbalance; discriminate Hbalance].
  assert (Hg : globals_ok (scenario_globals 0 true true))
    by scenario_globals_ok.
  assert (Hd : page_sizes_ok (scenario_globals 0 true true))
    by scenario_page_sizes_ok.
  assert (Hc : cache_ok (scenario_globals 0 true true)
                 (initialize_page_count (counting_machine 40 0)
                    (scenario_balancer false 0 0 0 0)))
    by scenario_cache_ok.
  destruct (balance_creates_the_loaned_bytes (scenario_globals 0 true true)
              (counting_machine 40 0) m1 m'
              (scenario_balancer false 0 0 0 0) this1 this' 1 1
              Hg Hd Hc eq_refl eq_refl eq_refl Hneed Hbalance)
    as (Htrace & Hpos & _).
  exists m1, this1. split; [reflexivity|]. split; [exact Htrace|exact Hpos].
Defined.

Lemma map_pages_protocol_witness :
  exists m',
    map_pages (scenario_globals 8 false true)
      (counting_machine 8640 0,
       set_debtor_list (scenario_balancer false 0 0 0 0)
         [ZPageTypeMedium; ZPageTypeMedium])
    = Return (m',
              set_debtor_list (scenario_balancer false 0 0 0 0)
                [ZPageTypeMedium; ZPageTypeMedium]).
Proof.
  apply (proj1 (proj2 (map_pages_protocol (scenario_globals 8 false true)
                         (counting_machine 8640 0)
                         (set_debtor_list (scenario_balancer false 0 0 0 0)
                            [ZPageTypeMedium; ZPageTypeMedium])))).
  reflexivity.
Defined.

Lemma balance_returns_in_product_build_witness :
  exists m' this',
    balance (scenario_globals 0 false true)
      (counting_machine 40 0, scenario_balancer false 0 0 0 0)
    = Return (m', this')
    /\ _loaner_list this' = [] /\ _debtor_list this' = [].
Proof.
  apply (balance_returns_in_product_build (scenario_globals 0 false true)
           (counting_machine 40 0) (scenario_balancer false 0 0 0 0) 1 1).
  - scenario_globals_ok.
  - scenario_page_sizes_ok.
  - scenario_medium_rate_finite.
  - scenario_cache_ok.
  - by_evaluation.
  - by_evaluation.
  - by_evaluation.
  - reflexivity.
  - reflexivity.
  - reflexivity.
Defined.

Lemma floors_are_always_defined_witness :
  exists minimal_small minimal_medium,
    calculate_minimal_small (scenario_globals 8 true true)
      (scenario_balancer true 1000 20 8640 0) = Return minimal_small
    /\ calculate_minimal_medium (scenario_globals 8 true true)
         (scenario_balancer true 1000 20 8640 0) = Return minimal_medium
    /\ 1000 <= minimal_small /\ 20 <= minimal_medium.
Proof.
  destruct (floors_are_always_defined (scenario_globals 8 true true)
              (scenario_balancer true 1000 20 8640 0))
    as (ms & mm & Hms & Hmm & _ & _ & Hsel).
  - scenario_globals_ok.
  - exists ms, mm. split; [exact Hms|]. split; [exact Hmm|].
    apply Hsel. reflexivity.
Defined.

Lemma floor_calls_meet_their_asserts_witness :
  exists medium,
    calculate_maximal_medium_for_small (scenario_globals 8 true true)
      (scenario_balancer false 0 0 8640 0) 800 = Return medium
    /\ 50 <= medium.
Proof.
  destruct (floor_calls_meet_their_asserts (scenario_globals 8 true true)
              (scenario_balancer false 0 0 8640 0) 800 50)
    as (_ & _ & medium & Hcall & Hfloor & _).
  - scenario_globals_ok.
  - scenario_cache_ok.
  - by_evaluation.
  - by_evaluation.
  - by_evaluation.
  - exists medium. split; [exact Hcall|exact Hfloor].
Defined.

Lemma optimal_small_stops_exactly_at_saturation_witness :
  exists optimal_medium,
    calculate_optimal_medium (scenario_globals_with_rates 0 (2 ^ 60))
      (scenario_balancer false 0 0 8640 0) = Return optimal_medium
    /\ (calculate_optimal_small (scenario_globals_with_rates 0 (2 ^ 60))
          (scenario_balancer false 0 0 8640 0)
        = Fatal (AssertFailed "enough page cache")
        <-> true = true
            /\ 32 * MiB * optimal_medium = 2 * MiB * 8640 + 32 * MiB * 0).
Proof.
  destruct (optimal_small_stops_exactly_at_saturation
              (scenario_globals_with_rates 0 (2 ^ 60))
              (scenario_balancer false 0 0 8640 0))
    as (om & Hom & Hstop & _).
  - scenario_globals_ok.
  - scenario_page_sizes_ok.
  - scenario_medium_rate_finite.
  - scenario_cache_ok.
  - reflexivity.
  - exists om. split; [exact Hom|exact Hstop].
Defined.
